(** * apitrace-tests: coherent persistent-mapped buffer tests

    A shallow embedding of the two test programs
    [apps/gl/fill_ssbo_coherent.cpp] and [apps/gl/map_and_draw_coherent.cpp].

    Both programs are straight-line drivers of the GLFW / OpenGL API.  The
    embedding keeps three things apart:

    - the _program_: every C++ function becomes a computation in a small
      state-and-exit monad, with the source's names;
    - the _world_: the state the program and the GL objects live in (the
      store of buffer objects with their bytes, the uniforms, the globals of
      the translation unit and the trace of API calls and prints);
    - the _driver_: everything the program only observes (window creation,
      the error code, the extension strings, the page size, what the device
      does with a dispatch), a record of oracles a run is parameterised by. *)

From Stdlib Require Import ZArith List String Ascii Bool Lia QArith.
From stdpp Require Import base option list gmap.

Local Open Scope Z_scope.

(** ** Machine integers *)

(** Conversion to [unsigned int] / [uint32_t] / [GLuint]: the low 32 bits. *)
Definition uint32 (z : Z) : Z := Z.land z 0xFFFFFFFF.

(** Conversion to [int] / [int32_t]: the low 32 bits, in two's complement. *)
Definition int32 (z : Z) : Z :=
  let u := uint32 z in
  if u <? 0x80000000 then u else u - 0x100000000.

Definition INT_MAX : Z := 0x7FFFFFFF.

(** Conversion to [unsigned char], as [memset] applies to its fill value. *)
Definition uint8 (z : Z) : Z := Z.land z 0xFF.

(** Value of a binary literal [0b...], digits given most significant first. *)
Fixpoint bin_digits (acc : Z) (s : string) : Z :=
  match s with
  | EmptyString => acc
  | String c s' => bin_digits (2 * acc + (if Ascii.eqb c "1"%char then 1 else 0)) s'
  end.

(** A binary literal initialising an [int]: the literal has type [int] when
    its value fits and [unsigned int] otherwise, and is then converted. *)
Definition int_literal_0b (s : string) : Z := int32 (bin_digits 0 s).

(** ** Floating point numbers

    A [float] is a number of the IEEE 754 binary32 format: a finite value,
    taken as the rational it denotes (the sign of a zero is not kept), an
    infinity, or not a number. *)
Inductive float :=
| Finite (q : Q)
| Infinity (negative : bool)
| NaN.

(** The integer nearest to [n / d], for [0 <= n] and [0 < d]; of two
    nearest ones, the even one. *)
Definition nearest_even (n d : Z) : Z :=
  let (q, r) := Z.div_eucl n d in
  if 2 * r <? d then q
  else if d <? 2 * r then q + 1
  else if Z.even q then q else q + 1.

(** The quotient [n / d] of two positive integers, with the sign given
    apart, rounded to binary32 in the default rounding mode (to nearest, ties
    to even): 24 bits of precision, the exponent of the leading bit from
    -126 (below, the values are steps of [2 ^ -149]) to 127 (above, the
    result is an infinity). *)
Definition round_binary32 (negative : bool) (n d : Z) : float :=
  let e0 := Z.log2 n - Z.log2 d in
  let e1 :=                      (* [2 ^ e1 <= n / d < 2 ^ (e1 + 1)] *)
    if (if 0 <=? e0 then Z.shiftl d e0 <=? n else d <=? Z.shiftl n (- e0))
    then e0 else e0 - 1 in
  let e := Z.max e1 (-126) in
  let s := e - 23 in             (* the unit in the last place is [2 ^ s] *)
  let m := if 0 <=? s then nearest_even n (Z.shiftl d s)
           else nearest_even (Z.shiftl n (- s)) d in
  let sm := if negative then - m else m in
  if 0 <=? s then
    if 2 ^ 128 <=? Z.shiftl m s then Infinity negative
    else Finite (inject_Z (Z.shiftl sm s))
  else Finite (Qred (sm # Z.to_pos (Z.shiftl 1 (- s)))).

(** The conversion [(float) z] of an [int]. *)
Definition float_of_int (z : Z) : float :=
  if z =? 0 then Finite 0 else round_binary32 (z <? 0) (Z.abs z) 1.

(** The quotient [x / y] of two [float]s, a zero being taken as positive. *)
Definition float_div (x y : float) : float :=
  match x, y with
  | NaN, _ | _, NaN => NaN
  | Infinity _, Infinity _ => NaN
  | Infinity negative, Finite q => Infinity (xorb negative (Qnum q <? 0))
  | Finite _, Infinity _ => Finite 0
  | Finite p, Finite q =>
      if Qnum q =? 0 then
        if Qnum p =? 0 then NaN else Infinity (Qnum p <? 0)
      else if Qnum p =? 0 then Finite 0
      else round_binary32 (xorb (Qnum p <? 0) (Qnum q <? 0))
             (Z.abs (Qnum p) * Zpos (Qden q)) (Zpos (Qden p) * Z.abs (Qnum q))
  end.

(** ** Constants of the C library and of OpenGL

    [EXIT_FAILURE] is the C library's; [GL_NO_ERROR] and [GL_OUT_OF_MEMORY]
    have the values the OpenGL specification fixes (they are declared in
    glad.h).  [EXIT_SKIP] is supplied by the build system and is a parameter
    of every definition that uses it. *)

Definition EXIT_FAILURE : Z := 1.
Definition GL_NO_ERROR : Z := 0.
Definition GL_OUT_OF_MEMORY : Z := 0x0505.

(** ** Observable events *)

Inductive arg :=
| I (z : Z)          (* an integer argument *)
| T (s : string)     (* a string or a symbolic enumerant *)
| R (q : Q).         (* a floating point argument *)

Inductive stream := stdout | stderr.

Inductive event :=
| Call (fn : string) (args : list arg)
| Printf (to : stream) (fmt : string) (args : list arg).

(** ** The monad of the programs

    A computation runs from a world and either returns a value, leaves the
    process through [exit], aborts on a failed [assert], has undefined
    behaviour, or exhausts the fuel given to a loop. *)

Inductive outcome (W A : Type) :=
| Ret (a : A) (w : W)
| Exit (code : Z) (w : W)
| Abort (w : W)
| Undef (w : W)
| Fuel (w : W).
Arguments Ret {W A} a w.
Arguments Exit {W A} code w.
Arguments Abort {W A} w.
Arguments Undef {W A} w.
Arguments Fuel {W A} w.

Definition M (W A : Type) : Type := W -> outcome W A.

Definition ret {W A} (a : A) : M W A := fun w => Ret a w.

Definition bind {W A B} (m : M W A) (k : A -> M W B) : M W B :=
  fun w =>
    match m w with
    | Ret a w' => k a w'
    | Exit c w' => Exit c w'
    | Abort w' => Abort w'
    | Undef w' => Undef w'
    | Fuel w' => Fuel w'
    end.

Definition exit {W A} (code : Z) : M W A := fun w => Exit code w.
Definition abort {W A} : M W A := fun w => Abort w.
Definition undef {W A} : M W A := fun w => Undef w.
Definition out_of_fuel {W A} : M W A := fun w => Fuel w.
Definition get {W} : M W W := fun w => Ret w w.
Definition gets {W A} (f : W -> A) : M W A := fun w => Ret (f w) w.
Definition modify {W} (f : W -> W) : M W unit := fun w => Ret tt (f w).

Declare Scope prog_scope.
Delimit Scope prog_scope with prog.
Notation "x <- m ;; k" := (bind m (fun x => k))
  (at level 100, m at next level, right associativity) : prog_scope.
Notation "m ;; k" := (bind m (fun _ => k))
  (at level 100, right associativity) : prog_scope.

(** The world a terminated run ended in, and its exit status if it has one. *)
Definition final_world {W A} (o : outcome W A) : W :=
  match o with
  | Ret _ w | Exit _ w | Abort w | Undef w | Fuel w => w
  end.

Definition exit_status {W} (o : outcome W Z) : option Z :=
  match o with
  | Ret c _ => Some c       (* [return c] from [main] *)
  | Exit c _ => Some c      (* [exit (c)] *)
  | _ => None
  end.

(** Running over the indices of a counted [for] loop whose bounds are
    constants of the program. *)
Fixpoint for_each {W A} (l : list Z) (body : Z -> A -> M W A) (a : A) : M W A :=
  match l with
  | [] => ret a
  | i :: l' => bind (body i a) (for_each l' body)
  end.

(** Fuel that lets a loop [for (i = i0; (unsigned) i < bound; i++)] reach the
    test that ends it: the test holds at most [bound - (unsigned) i0] times. *)
Definition loop_fuel (u0 bound : Z) : nat := S (Z.to_nat (bound - u0)).

(** ** Byte-addressed storage

    The storage of a buffer object is a function from byte address to byte;
    [int]s are read and written as four bytes, least significant first. *)

Definition memory : Type := Z -> Z.

Definition write_bytes (mem : memory) (start n c : Z) : memory :=
  fun a => if (start <=? a) && (a <? start + n) then c else mem a.

Definition load_int (mem : memory) (a : Z) : Z :=
  int32 (Z.lor (mem a)
        (Z.lor (Z.shiftl (mem (a + 1)) 8)
        (Z.lor (Z.shiftl (mem (a + 2)) 16)
               (Z.shiftl (mem (a + 3)) 24)))).

(** Byte [k] of the representation of an [int]. *)
Definition byte_of_int (v k : Z) : Z := uint8 (Z.shiftr (uint32 v) (8 * k)).

Definition store_int (mem : memory) (a v : Z) : memory :=
  fun x => if (a <=? x) && (x <? a + 4) then byte_of_int v (x - a) else mem x.

(** Total correctness: from a world satisfying [P] the computation returns,
    with a value and a world satisfying [Q]. *)
Definition hoare {W A} (P : W -> Prop) (m : M W A) (Q : A -> W -> Prop) : Prop :=
  forall w, P w -> exists a w', m w = Ret a w' /\ Q a w'.

(** The contract of an error check: it returns exactly on [GL_NO_ERROR],
    leaves with the skip status exactly on [GL_OUT_OF_MEMORY], and leaves with
    [EXIT_FAILURE] on every other error. *)
Definition error_check_contract {W} (EXIT_SKIP error : Z) (o : outcome W unit) : Prop :=
  ((exists w', o = Ret tt w') <-> error = GL_NO_ERROR) /\
  ((exists w', o = Exit EXIT_SKIP w') <-> error = GL_OUT_OF_MEMORY) /\
  (error <> GL_NO_ERROR -> error <> GL_OUT_OF_MEMORY ->
   exists w', o = Exit EXIT_FAILURE w').

(** * fill_ssbo_coherent.cpp *)

Module FillSsbo.

Record test_case := { stride : Z; offset : Z }.

(** A buffer object with storage: its size in bytes and its bytes. *)
Record buffer := { size : Z; bytes : memory }.

(** A pointer returned by [glMapBufferRange]: null, or the mapped range
    [base, base + len) of the storage of buffer [buf].  Mapped pointers alias
    the storage: what the device writes is what the pointer reads. *)
Inductive pointer :=
| Null
| Ptr (buf base len : Z).

Record coherent_data := { ssbo_id : Z; data : pointer }.

(** The uniforms of the compute program. *)
Record uniforms := {
  u_stride : Z;
  u_start_bound : Z;
  u_end_bound : Z;
  u_value : Z
}.

(** What a run observes of its platform. *)
Record driver := {
  glfwCreateWindow_ok : bool;              (* a window was created *)
  gladLoadGLLoader_ok : bool;              (* the GL entry points loaded *)
  GLAD_GL_VERSION_4_4 : Z;                 (* glad's flag for GL 4.4 *)
  glfwExtensionSupported : string -> bool;
  glGetError : nat -> Z;                   (* the error read by the n-th call *)
  sysconf_SC_PAGESIZE : Z;
  glCreateProgram : Z;                     (* the name of the program object *)
  GL_COMPILE_STATUS : Z;
  GL_LINK_STATUS : Z;
  fresh_storage : memory;                  (* contents of new storage *)
  device : uniforms -> memory -> memory    (* effect of glDispatchCompute (45, 1, 1)
                                              on the bound storage, once fenced *)
}.

Record world := {
  trace : list event;                      (* most recent event first *)
  buffers : gmap Z buffer;                 (* the buffer objects with storage *)
  generated : Z;                           (* buffer names generated so far *)
  binding : Z;                             (* buffer bound to GL_SHADER_STORAGE_BUFFER *)
  current : uniforms;
  errors_read : nat;                       (* calls of glGetError so far *)
  prog : Z;                                (* static GLuint prog *)
  test_cases : list test_case              (* test_case test_cases[7] *)
}.

Definition initial_world : world :=
  {| trace := [];
     buffers := ∅;
     generated := 0;
     binding := 0;
     current := {| u_stride := 0; u_start_bound := 0; u_end_bound := 0; u_value := 0 |};
     errors_read := 0;
     prog := 0;
     test_cases := replicate 7 {| stride := 0; offset := 0 |} |}.

Definition set_trace (f : list event -> list event) (w : world) : world :=
  {| trace := f (trace w); buffers := buffers w; generated := generated w;
     binding := binding w; current := current w; errors_read := errors_read w;
     prog := prog w; test_cases := test_cases w |}.

Definition set_buffers (f : gmap Z buffer -> gmap Z buffer) (w : world) : world :=
  {| trace := trace w; buffers := f (buffers w); generated := generated w;
     binding := binding w; current := current w; errors_read := errors_read w;
     prog := prog w; test_cases := test_cases w |}.

Definition set_generated (n : Z) (w : world) : world :=
  {| trace := trace w; buffers := buffers w; generated := n;
     binding := binding w; current := current w; errors_read := errors_read w;
     prog := prog w; test_cases := test_cases w |}.

Definition set_binding (b : Z) (w : world) : world :=
  {| trace := trace w; buffers := buffers w; generated := generated w;
     binding := b; current := current w; errors_read := errors_read w;
     prog := prog w; test_cases := test_cases w |}.

Definition set_current (f : uniforms -> uniforms) (w : world) : world :=
  {| trace := trace w; buffers := buffers w; generated := generated w;
     binding := binding w; current := f (current w); errors_read := errors_read w;
     prog := prog w; test_cases := test_cases w |}.

Definition set_errors_read (n : nat) (w : world) : world :=
  {| trace := trace w; buffers := buffers w; generated := generated w;
     binding := binding w; current := current w; errors_read := n;
     prog := prog w; test_cases := test_cases w |}.

Definition set_prog (p : Z) (w : world) : world :=
  {| trace := trace w; buffers := buffers w; generated := generated w;
     binding := binding w; current := current w; errors_read := errors_read w;
     prog := p; test_cases := test_cases w |}.

Definition set_test_cases (f : list test_case -> list test_case) (w : world) : world :=
  {| trace := trace w; buffers := buffers w; generated := generated w;
     binding := binding w; current := current w; errors_read := errors_read w;
     prog := prog w; test_cases := f (test_cases w) |}.

Definition set_bytes (f : memory -> memory) (b : buffer) : buffer :=
  {| size := size b; bytes := f (bytes b) |}.

Local Open Scope prog_scope.

(** Recording an API call or a print. *)
Definition call (fn : string) (args : list arg) : M world unit :=
  modify (set_trace (cons (Call fn args))).

Definition printf (fmt : string) (args : list arg) : M world unit :=
  modify (set_trace (cons (Printf stdout fmt args))).

Definition fprintf (to : stream) (fmt : string) (args : list arg) : M world unit :=
  modify (set_trace (cons (Printf to fmt args))).

(** ** The constants of the translation unit *)

Definition values_count : Z := 45000.
Definition fill_value_a : Z := int_literal_0b "01010101010101010101010101010101".
Definition fill_value_b : Z := int_literal_0b "11010111110101111101011111010111".

(** ** The C library and the GL entry points the program uses *)

(** [memset (p, c, n)]: writes [n] bytes [(unsigned char) c] from [p]; writing
    through a null pointer or past the mapped range is undefined. *)
Definition memset (p : pointer) (c n : Z) : M world unit :=
  match p with
  | Null => undef
  | Ptr b base len =>
      if n <=? len
      then
        modify (set_buffers (alter (set_bytes (fun m => write_bytes m base n (uint8 c))) b)) ;;
        call "memset" [I b; I base; I c; I n]
      else undef
  end.

(** [p[i]] for an [int *p]: reading outside the mapped range is undefined. *)
Definition read (p : pointer) (i : Z) : M world Z :=
  match p with
  | Null => undef
  | Ptr b base len =>
      if (0 <=? 4 * i) && (4 * i + 4 <=? len)
      then fun w =>
             match buffers w !! b with
             | Some bf => Ret (load_int (bytes bf) (base + 4 * i)) w
             | None => Undef w
             end
      else undef
  end.

Definition glGenBuffers : M world Z :=
  n <- gets generated ;;
  modify (set_generated (n + 1)) ;;
  call "glGenBuffers" [I 1; I (n + 1)] ;;
  ret (n + 1).

Definition glBindBufferBase (index buf : Z) : M world unit :=
  modify (set_binding buf) ;;
  call "glBindBufferBase" [T "GL_SHADER_STORAGE_BUFFER"; I index; I buf].

Definition map_flags : list arg :=
  [T "GL_MAP_READ_BIT"; T "GL_MAP_WRITE_BIT"; T "GL_MAP_PERSISTENT_BIT";
   T "GL_MAP_COHERENT_BIT"].

Definition glBufferStorage (drv : driver) (sz : Z) : M world unit :=
  b <- gets binding ;;
  modify (set_buffers (insert b {| size := sz; bytes := fresh_storage drv |})) ;;
  call "glBufferStorage" (T "GL_SHADER_STORAGE_BUFFER" :: I sz :: T "nullptr" :: map_flags).

(** Mapping succeeds on a non-empty range inside the storage. *)
Definition glMapBufferRange (off len : Z) : M world pointer :=
  b <- gets binding ;;
  bufs <- gets buffers ;;
  call "glMapBufferRange" (T "GL_SHADER_STORAGE_BUFFER" :: I off :: I len :: map_flags) ;;
  match bufs !! b with
  | Some bf =>
      if (0 <=? off) && (0 <? len) && (off + len <=? size bf)
      then ret (Ptr b off len)
      else ret Null
  | None => ret Null
  end.

Definition glUnmapBuffer : M world unit :=
  call "glUnmapBuffer" [T "GL_SHADER_STORAGE_BUFFER"].

Definition glUniform1ui (name : string) (v : Z) (set : Z -> uniforms -> uniforms)
  : M world unit :=
  call "glGetUniformLocation" [T "prog"; T name] ;;
  modify (set_current (set v)) ;;
  call "glUniform1ui" [T name; I v].

Definition glUniform1i (name : string) (v : Z) (set : Z -> uniforms -> uniforms)
  : M world unit :=
  call "glGetUniformLocation" [T "prog"; T name] ;;
  modify (set_current (set v)) ;;
  call "glUniform1i" [T name; I v].

Definition with_stride (v : Z) (u : uniforms) : uniforms :=
  {| u_stride := v; u_start_bound := u_start_bound u;
     u_end_bound := u_end_bound u; u_value := u_value u |}.
Definition with_start_bound (v : Z) (u : uniforms) : uniforms :=
  {| u_stride := u_stride u; u_start_bound := v;
     u_end_bound := u_end_bound u; u_value := u_value u |}.
Definition with_end_bound (v : Z) (u : uniforms) : uniforms :=
  {| u_stride := u_stride u; u_start_bound := u_start_bound u;
     u_end_bound := v; u_value := u_value u |}.
Definition with_value (v : Z) (u : uniforms) : uniforms :=
  {| u_stride := u_stride u; u_start_bound := u_start_bound u;
     u_end_bound := u_end_bound u; u_value := v |}.

(** The dispatch runs on the storage bound at binding point 0. *)
Definition glDispatchCompute (drv : driver) (x y z : Z) : M world unit :=
  b <- gets binding ;;
  u <- gets current ;;
  modify (set_buffers (alter (set_bytes (device drv u)) b)) ;;
  call "glDispatchCompute" [I x; I y; I z].

(** ** The compute shader

    [compute_shader_text] declares [layout (local_size_x = 1000)], the
    uniforms [stride], [start_bound], [end_bound], [value] and the storage
    block [int data[]] at binding 0.  Its [main], for the invocation with
    [gl_GlobalInvocationID.x = gid]:

      if (gid >= start_bound && gid < end_bound)
        if (mod (gid, stride) == 0) data[gid] = value; *)

(** The test [mod (x, y) == 0] of the shader, on an invocation number [x]
    and the uniform [y].  [mod] is GLSL's floating point one, on both
    numbers converted to [float]: [x - y * floor (x / y)].

    - For [y] not 0 it is the test that the integer remainder is 0: an
      invocation number of this dispatch is below 45000, so it is a [float]
      as it stands, and the quotient is far enough from the next integer for
      its floor to be that of the exact quotient; a stride that is rounded
      by the conversion is above [2 ^ 24], and both remainders are [x].
    - For [y = 0] the quotient is an infinity or not a number, so is
      [mod (x, y)], and the comparison with 0 does not hold: nothing is
      written.  (GLSL leaves the result of a division by 0 unspecified;
      the properties of the shader are stated for strides that are not 0.) *)
Definition glsl_mod_is_0 (x y : Z) : bool :=
  if y =? 0 then false else x mod y =? 0.

Definition compute_shader_main (u : uniforms) (gid : Z) (mem : memory) : memory :=
  if (u_start_bound u <=? gid) && (gid <? u_end_bound u)
  then if glsl_mod_is_0 gid (u_stride u)
       then store_int mem (4 * gid) (u_value u)
       else mem
  else mem.

(** [glDispatchCompute (45, 1, 1)] with 1000 invocations a group. *)
Definition invocations : list Z := seqZ 0 (45 * 1000).

(** A device that executes the shader as written. *)
Definition run_shader (u : uniforms) (mem : memory) : memory :=
  fold_left (fun m gid => compute_shader_main u gid m) invocations mem.

Section Program.

Variable EXIT_SKIP : Z.
Variable drv : driver.

Definition getSystemPageSize : M world Z :=
  call "sysconf" [T "_SC_PAGESIZE"] ;;
  ret (sysconf_SC_PAGESIZE drv).

Definition check_error : M world unit :=
  n <- gets errors_read ;;
  modify (set_errors_read (S n)) ;;
  call "glGetError" [] ;;
  let error := glGetError drv n in
  if error =? GL_NO_ERROR then ret tt
  else if error =? GL_OUT_OF_MEMORY then exit EXIT_SKIP
  else exit EXIT_FAILURE.

(** [gl_version] defaults to [GLAD_GL_VERSION_4_4] at every call of the
    program.  The string passed to [glfwExtensionSupported] is the literal
    ["extension"] of the source, not the parameter. *)
Definition require_extension (extension : string) (gl_version : Z) : M world unit :=
  if gl_version =? 0 then
    call "glfwExtensionSupported" [T "extension"] ;;
    if negb (glfwExtensionSupported drv "extension") then
      fprintf stderr "error: %s not supported\n" [T extension] ;;
      call "glfwTerminate" [] ;;
      exit EXIT_SKIP
    else ret tt
  else ret tt.

Definition build_programm : M world unit :=
  call "glCreateProgram" [] ;;
  modify (set_prog (glCreateProgram drv)) ;;
  call "glCreateShader" [T "GL_COMPUTE_SHADER"] ;;
  call "glShaderSource" [T "computeShader"; I 1; T "compute_shader_text"; T "NULL"] ;;
  call "glCompileShader" [T "computeShader"] ;;
  call "glGetShaderiv" [T "computeShader"; T "GL_COMPILE_STATUS"] ;;
  (if GL_COMPILE_STATUS drv =? 0 then
     call "glGetShaderInfoLog" [T "computeShader"; I 512; T "NULL"] ;;
     printf "ERROR::SHADER::VERTEX::COMPILATION_FAILED %s\n" [T "infoLog"]
   else ret tt) ;;
  call "glAttachShader" [T "prog"; T "computeShader"] ;;
  call "glLinkProgram" [T "prog"] ;;
  call "glGetProgramiv" [T "prog"; T "GL_LINK_STATUS"] ;;
  (if GL_LINK_STATUS drv =? 0 then
     call "glGetProgramInfoLog" [T "prog"; I 512; T "NULL"] ;;
     printf "ERROR::SHADER::PROGRAM::LINKING_FAILED %s\n" [T "infoLog"]
   else ret tt) ;;
  p <- gets prog ;;
  if p =? 0 then abort else ret tt.

Definition init_ssbo : M world Z :=
  data <- glGenBuffers ;;
  glBindBufferBase 0 data ;;
  glBufferStorage drv (values_count * 4) ;;
  coherent_memory <- glMapBufferRange 0 (values_count * 4) ;;
  memset coherent_memory fill_value_a (values_count * 4) ;;
  glUnmapBuffer ;;
  check_error ;;
  ret data.

Definition fence : M world unit :=
  call "glFenceSync" [T "GL_SYNC_GPU_COMMANDS_COMPLETE"; I 0] ;;
  call "glClientWaitSync" [T "fence"; T "GL_SYNC_FLUSH_COMMANDS_BIT"; T "GL_TIMEOUT_IGNORED"].

Definition init_test_cases : M world unit :=
  p <- getSystemPageSize ;;
  let page_size := uint32 p in
  modify (set_test_cases <[0%nat := {| stride := 2;         offset := 0 |}]>) ;;
  modify (set_test_cases <[1%nat := {| stride := page_size; offset := page_size |}]>) ;;
  modify (set_test_cases <[2%nat := {| stride := page_size; offset := uint32 (page_size - 4) |}]>) ;;
  modify (set_test_cases <[3%nat := {| stride := page_size; offset := uint32 (page_size + 4) |}]>) ;;
  modify (set_test_cases <[4%nat := {| stride := page_size; offset := uint32 (page_size * 2) |}]>) ;;
  modify (set_test_cases <[5%nat := {| stride := page_size; offset := uint32 (uint32 (page_size * 2) + 4) |}]>) ;;
  modify (set_test_cases <[6%nat := {| stride := page_size; offset := uint32 (uint32 (page_size * 2) - 4) |}]>).

(** The remainder [shifted_index % one.stride], computed on [unsigned int];
    a stride of 0 is undefined. *)
Definition shifted_rem (i : Z) (one : test_case) : M world Z :=
  let shifted_index := int32 (uint32 (i + offset one / 4)) in
  if stride one =? 0 then undef
  else ret (uint32 shifted_index mod stride one).

Definition mismatch (fn : string) (i v : Z) : M world unit :=
  printf ("Probe mismatch in " ++ fn ++ " data[%i]: %i\n") [I i; I v].

(** The step of a loop [for (int i = ...; ...; i++)] after a body that did
    not return: incrementing [INT_MAX] is undefined. *)
Definition next {A} (i : Z) (loop : Z -> M world A) : M world A :=
  if i =? INT_MAX then undef else loop (i + 1).

(** First loop of [probe_value_in_range]:
    [for (int i = 0; i < values_count - one.offset / 4; i++)]. *)
Fixpoint untouched_loop (data : pointer) (one : test_case) (k : M world bool)
  (fuel : nat) (i : Z) : M world bool :=
  match fuel with
  | O => out_of_fuel
  | S fuel' =>
      if uint32 i <? uint32 (values_count - offset one / 4) then
        r <- shifted_rem i one ;;
        if negb (r =? 0) then
          v <- read data i ;;
          if negb (v =? fill_value_b) then
            mismatch "probe_value_in_range" i v ;; ret false
          else next i (untouched_loop data one k fuel')
        else next i (untouched_loop data one k fuel')
      else k
  end.

(** Second loop of [probe_value_in_range]:
    [for (int i = start_bound - one.offset / 4; i < end_bound - one.offset / 4; i++)]. *)
Fixpoint written_loop (data : pointer) (one : test_case) (end_bound value : Z)
  (fuel : nat) (i : Z) : M world bool :=
  match fuel with
  | O => out_of_fuel
  | S fuel' =>
      if uint32 i <? uint32 (end_bound - offset one / 4) then
        r <- shifted_rem i one ;;
        if r =? 0 then
          v <- read data i ;;
          if negb (v =? value) then
            mismatch "probe_value_in_range" i v ;; ret false
          else next i (written_loop data one end_bound value fuel')
        else next i (written_loop data one end_bound value fuel')
      else ret true
  end.

Definition probe_value_in_range (data : pointer) (one : test_case)
  (start_bound end_bound value : Z) : M world bool :=
  let i0 := int32 (uint32 (start_bound - offset one / 4)) in
  untouched_loop data one
    (written_loop data one end_bound value
       (loop_fuel (uint32 i0) (uint32 (end_bound - offset one / 4))) i0)
    (loop_fuel 0 (uint32 (values_count - offset one / 4))) 0.

Fixpoint probe_inital_state_loop (data : pointer) (one : test_case)
  (fuel : nat) (i : Z) : M world bool :=
  match fuel with
  | O => out_of_fuel
  | S fuel' =>
      if uint32 i <? uint32 (values_count - offset one / 4) then
        v <- read data i ;;
        if negb (v =? fill_value_b) then
          mismatch "inprobe_inital_state" i v ;; ret false
        else next i (probe_inital_state_loop data one fuel')
      else ret true
  end.

Definition probe_inital_state (data : pointer) (one : test_case) : M world bool :=
  probe_inital_state_loop data one
    (loop_fuel 0 (uint32 (values_count - offset one / 4))) 0.

Fixpoint probe_offseted_loop (data : pointer) (one : test_case)
  (fuel : nat) (i : Z) : M world bool :=
  match fuel with
  | O => out_of_fuel
  | S fuel' =>
      if uint32 i <? offset one / 4 then
        v <- read data i ;;
        if negb (v =? fill_value_a) then
          mismatch "probe_offseted_part_of_ssbo" i v ;; ret false
        else next i (probe_offseted_loop data one fuel')
      else ret true
  end.

Definition probe_offseted_part_of_ssbo (ssbo : Z) (one : test_case) : M world bool :=
  if offset one =? 0 then ret true
  else
    glBindBufferBase 0 ssbo ;;
    glUnmapBuffer ;;
    coherent_memory <- glMapBufferRange 0 (offset one) ;;
    probe_offseted_loop coherent_memory one (loop_fuel 0 (offset one / 4)) 0.

Definition compute_exec (ssbo : Z) (one : test_case) (start_bound end_bound value : Z)
  : M world unit :=
  glBindBufferBase 0 ssbo ;;
  glUniform1ui "stride" (stride one) with_stride ;;
  glUniform1ui "start_bound" (Z.max (offset one) start_bound) with_start_bound ;;
  glUniform1ui "end_bound" end_bound with_end_bound ;;
  glUniform1i "value" value with_value ;;
  glDispatchCompute drv 45 1 1.

Definition map_ssbo (ssbo : Z) (offset : Z) : M world pointer :=
  glBindBufferBase 0 ssbo ;;
  coherent_memory <- glMapBufferRange offset (uint32 (values_count * 4 - offset)) ;;
  memset coherent_memory fill_value_b (uint32 (values_count * 4 - offset)) ;;
  ret coherent_memory.

Definition modifed_value : Z := int_literal_0b "0101010101010101010101010101010".
Definition remodifed_value : Z := int_literal_0b "1100110010001010111010010101010".

(** [pass &= probe (...)]: the probe always runs. *)
Definition and_probe (pass : bool) (probe : M world bool) : M world bool :=
  r <- probe ;; ret (pass && r).

Definition test_script (one : test_case) : M world bool :=
  let pass := true in
  let one_third := uint32 (values_count / 3) in
  let two_third := uint32 (2 * one_third) in

  a_id <- init_ssbo ;;
  a_data <- map_ssbo a_id (offset one) ;;
  let buff_a := {| ssbo_id := a_id; data := a_data |} in

  b_id <- init_ssbo ;;
  b_data <- map_ssbo b_id (offset one) ;;
  let buff_b := {| ssbo_id := b_id; data := b_data |} in

  c_id <- init_ssbo ;;
  c_data <- map_ssbo c_id (offset one) ;;
  let buff_c := {| ssbo_id := c_id; data := c_data |} in

  pass <- and_probe pass (probe_inital_state (data buff_a) one) ;;
  pass <- and_probe pass (probe_inital_state (data buff_b) one) ;;
  pass <- and_probe pass (probe_inital_state (data buff_c) one) ;;

  call "glUseProgram" [T "prog"] ;;

  (* Stage 1 *)
  compute_exec (ssbo_id buff_b) one 0 one_third modifed_value ;;
  fence ;;

  pass <- and_probe pass (probe_value_in_range (data buff_b) one 0 one_third modifed_value) ;;
  pass <- and_probe pass (probe_inital_state (data buff_a) one) ;;
  pass <- and_probe pass (probe_inital_state (data buff_c) one) ;;

  (* Stage 2 *)
  compute_exec (ssbo_id buff_a) one 0 (uint32 values_count) modifed_value ;;
  compute_exec (ssbo_id buff_b) one one_third two_third modifed_value ;;
  fence ;;

  pass <- and_probe pass (probe_value_in_range (data buff_a) one 0 (uint32 values_count) modifed_value) ;;
  pass <- and_probe pass (probe_value_in_range (data buff_b) one 0 two_third modifed_value) ;;
  pass <- and_probe pass (probe_inital_state (data buff_c) one) ;;

  (* Stage 3 *)
  compute_exec (ssbo_id buff_a) one 0 (uint32 values_count) modifed_value ;;
  compute_exec (ssbo_id buff_b) one one_third two_third remodifed_value ;;
  compute_exec (ssbo_id buff_c) one one_third two_third modifed_value ;;
  fence ;;

  pass <- and_probe pass (probe_value_in_range (data buff_a) one 0 (uint32 values_count) modifed_value) ;;
  pass <- and_probe pass (probe_value_in_range (data buff_b) one 0 one_third modifed_value) ;;
  pass <- and_probe pass (probe_value_in_range (data buff_b) one one_third two_third remodifed_value) ;;
  pass <- and_probe pass (probe_value_in_range (data buff_c) one one_third two_third modifed_value) ;;

  (* Check that the values outside the maped bounds aren't modified *)
  pass <- and_probe pass (probe_offseted_part_of_ssbo (ssbo_id buff_a) one) ;;
  pass <- and_probe pass (probe_offseted_part_of_ssbo (ssbo_id buff_b) one) ;;
  pass <- and_probe pass (probe_offseted_part_of_ssbo (ssbo_id buff_c) one) ;;

  ret pass.

(** [test_cases[i]] for an index of the array. *)
Definition test_case_at (i : Z) : M world test_case :=
  cases <- gets test_cases ;;
  match cases !! Z.to_nat i with
  | Some one => ret one
  | None => undef
  end.

(** Body of the loop of [main]:
    [pass = test_script (test_cases[i]) && pass; if (!pass) printf (...)]. *)
Definition main_loop_body (i : Z) (pass : bool) : M world bool :=
  one <- test_case_at i ;;
  r <- test_script one ;;
  let pass := r && pass in
  (if negb pass then
     printf "Test failed  with offset: %u stride: %u \n" [I (offset one); I (stride one)]
   else ret tt) ;;
  ret pass.

Definition glfwWindowHints : M world unit :=
  call "glfwWindowHint" [T "GLFW_VISIBLE"; T "GLFW_TRUE"] ;;
  call "glfwWindowHint" [T "GLFW_CONTEXT_VERSION_MAJOR"; I 4] ;;
  call "glfwWindowHint" [T "GLFW_CONTEXT_VERSION_MINOR"; I 3] ;;
  call "glfwWindowHint" [T "GLFW_OPENGL_FORWARD_COMPAT"; T "GL_TRUE"] ;;
  call "glfwWindowHint" [T "GLFW_OPENGL_PROFILE"; T "GLFW_OPENGL_CORE_PROFILE"].

(** [main]: [argc] and [argv] are its parameters; the last statement is
    [return 0 ; // pass ? 0 : EXIT_FAILURE;]. *)
Definition main (argc : Z) (argv : list string) : M world Z :=
  let pass := true in
  call "glfwInit" [] ;;
  glfwWindowHints ;;
  call "glfwCreateWindow" [I 1024; I 1024; T "Map coherent"; T "NULL"; T "NULL"] ;;
  if negb (glfwCreateWindow_ok drv) then ret EXIT_SKIP
  else
    call "glfwMakeContextCurrent" [T "window"] ;;
    call "gladLoadGLLoader" [T "glfwGetProcAddress"] ;;
    if negb (gladLoadGLLoader_ok drv) then ret EXIT_FAILURE
    else
      require_extension "GL_ARB_uniform_buffer_object" (GLAD_GL_VERSION_4_4 drv) ;;
      require_extension "GL_ARB_buffer_storage" (GLAD_GL_VERSION_4_4 drv) ;;
      require_extension "GL_ARB_map_buffer_range" (GLAD_GL_VERSION_4_4 drv) ;;
      require_extension "GL_VMWX_map_buffer_debug" (GLAD_GL_VERSION_4_4 drv) ;;
      build_programm ;;
      init_test_cases ;;
      pass <- for_each (seqZ 0 7) main_loop_body pass ;;
      call "glfwDestroyWindow" [T "window"] ;;
      call "glfwTerminate" [] ;;
      ret 0.

End Program.

(** ** Platforms the properties are stated on *)

(** The device as a closed form: the byte at [a] after a dispatch of the
    shader, invocation [a / 4] having written its element or not. *)
Definition shader_effect (u : uniforms) (mem : memory) : memory :=
  fun a =>
    let gid := a / 4 in
    if (0 <=? gid) && (gid <? 45 * 1000)
       && (u_start_bound u <=? gid) && (gid <? u_end_bound u)
       && glsl_mod_is_0 gid (u_stride u)
    then byte_of_int (u_value u) (a - 4 * gid)
    else mem a.

(** Whether invocation [gid] of a dispatch writes its element. *)
Definition writes (u : uniforms) (gid : Z) : bool :=
  (u_start_bound u <=? gid) && (gid <? u_end_bound u) && glsl_mod_is_0 gid (u_stride u).

(** A platform without GL 4.4 that creates the window, loads GL, reports no
    error, answers [supported] about extensions, has pages of [page] bytes
    and runs dispatches as [dev]. *)
Definition platform (supported : string -> bool) (page : Z)
  (dev : uniforms -> memory -> memory) : driver :=
  {| glfwCreateWindow_ok := true;
     gladLoadGLLoader_ok := true;
     GLAD_GL_VERSION_4_4 := 0;
     glfwExtensionSupported := supported;
     glGetError := fun _ => GL_NO_ERROR;
     sysconf_SC_PAGESIZE := page;
     glCreateProgram := 1;
     GL_COMPILE_STATUS := 1;
     GL_LINK_STATUS := 1;
     fresh_storage := fun _ => 0;
     device := dev |}.

(** The extensions the program names. *)
Definition required_extensions : list string :=
  ["GL_ARB_uniform_buffer_object"; "GL_ARB_buffer_storage";
   "GL_ARB_map_buffer_range"; "GL_VMWX_map_buffer_debug"]%string.

(** A platform that supports an extension called [extension] and none of
    the required ones; and one that supports exactly the required ones. *)
Definition supports_literal (s : string) : bool := String.eqb s "extension".
Definition supports_required (s : string) : bool :=
  existsb (String.eqb s) required_extensions.

(** A device on which the writes of a dispatch never reach the storage. *)
Definition lossy_device (u : uniforms) (mem : memory) : memory := mem.

Definition lossy_platform : driver := platform supports_literal 4096 lossy_device.
Definition conforming_platform : driver := platform supports_literal 4096 shader_effect.

(** ** The test cases *)

(** An offset that sits exactly 4 bytes before, or 4 bytes after, a multiple
    of the page size. *)
Definition near_page_boundary (page o : Z) : bool :=
  ((o + 4) mod page =? 0) || ((o - 4) mod page =? 0).

Definition near_boundary_cases (page : Z) (cases : list test_case) : list test_case :=
  filter (fun c => near_page_boundary page (offset c) = true) cases.

(** The table [init_test_cases] is meant to fill, for pages of [p] bytes. *)
Definition page_straddling_cases (p : Z) : list test_case :=
  [ {| stride := 2; offset := 0 |};
    {| stride := p; offset := p |};
    {| stride := p; offset := p - 4 |};
    {| stride := p; offset := p + 4 |};
    {| stride := p; offset := 2 * p |};
    {| stride := p; offset := 2 * p + 4 |};
    {| stride := p; offset := 2 * p - 4 |} ].

(** ** The probes *)

(** [data[i]] in world [w], when reading it is defined. *)
Definition element (w : world) (data : pointer) (i : Z) : option Z :=
  match read data i w with
  | Ret v _ => Some v
  | _ => None
  end.

(** The elements of the mapped range whose index in the buffer is not a
    multiple of the stride still hold [fill_value_b]. *)
Definition untouched_ok (w : world) (data : pointer) (one : test_case) : Prop :=
  forall i, 0 <= i < values_count - offset one / 4 ->
    (i + offset one / 4) mod stride one <> 0 ->
    element w data i = Some fill_value_b.

(** The elements from [start_bound] to [end_bound], as indices of the buffer,
    whose index in the buffer is a multiple of the stride hold [value]. *)
Definition written_ok (w : world) (data : pointer) (one : test_case)
  (start_bound end_bound value : Z) : Prop :=
  forall i, start_bound - offset one / 4 <= i < end_bound - offset one / 4 ->
    (i + offset one / 4) mod stride one = 0 ->
    element w data i = Some value.

(** The tests of the two loops of [probe_value_in_range] at index [j] of a
    range mapped at byte [base] of the buffer [bf]. *)
Definition untouched_at (base : Z) (bf : buffer) (one : test_case) (j : Z) : bool :=
  ((j + offset one / 4) mod stride one =? 0)
  || (load_int (bytes bf) (base + 4 * j) =? fill_value_b).

Definition written_at (base : Z) (bf : buffer) (one : test_case) (value j : Z) : bool :=
  negb ((j + offset one / 4) mod stride one =? 0)
  || (load_int (bytes bf) (base + 4 * j) =? value).

(** The line a probe prints on a mismatch. *)
Definition mismatch_line (fn : string) (i v : Z) : event :=
  Printf stdout ("Probe mismatch in " ++ fn ++ " data[%i]: %i\n") [I i; I v].

(** A world in which buffer 1 has its [values_count * 4] bytes set to the
    byte of [fill_value_b], as [map_ssbo] at offset 0 leaves them. *)
Definition b_filled_world : world :=
  set_buffers
    (insert 1 {| size := values_count * 4; bytes := fun _ => uint8 fill_value_b |})
    initial_world.

(** ** What a run of [test_script] leaves in the trace *)

(** The writes of the CPU side: the allocation of a storage and the fill of
    a range of a mapped buffer with a byte. *)
Inductive cpu_write :=
| Alloc (size : Z)
| Fill (buf base byte n : Z).

Definition cpu_write_of (e : event) : option cpu_write :=
  match e with
  | Call fn args =>
      if String.eqb fn "glBufferStorage" then
        match args with
        | _ :: I sz :: _ => Some (Alloc sz)
        | _ => None
        end
      else if String.eqb fn "memset" then
        match args with
        | [I b; I base; I c; I n] => Some (Fill b base (uint8 c) n)
        | _ => None
        end
      else None
  | Printf _ _ _ => None
  end.

(** The CPU writes of a trace, oldest first. *)
Definition cpu_writes (t : list event) : list cpu_write :=
  omap cpu_write_of (rev t).

(** The value an event sets the uniform [start_bound] to, if it sets it. *)
Definition start_bound_of (e : event) : option Z :=
  match e with
  | Call fn [T name; I v] =>
      if String.eqb fn "glUniform1ui" && String.eqb name "start_bound"
      then Some v else None
  | _ => None
  end.

(** An event of the stages of a test on [one]: no CPU write, and no
    [start_bound] below the offset of the test case. *)
Definition stage_event (one : test_case) (e : event) : bool :=
  match cpu_write_of e with
  | Some _ => false
  | None =>
      match start_bound_of e with
      | Some v => offset one <=? v
      | None => true
      end
  end.

(** World [w'] is [w], or [w] after the line of a probe mismatch. *)
Definition printed (w w' : world) : Prop :=
  w' = w \/ exists fn i v, w' = set_trace (cons (mismatch_line fn i v)) w.

(** The first [offset] bytes of a storage hold the byte of [fill_value_a]. *)
Definition prefix_untouched (one : test_case) (bf : buffer) : Prop :=
  forall a, 0 <= a < offset one -> bytes bf a = uint8 fill_value_a.

(** The device leaves alone every byte below the element [start_bound]. *)
Definition frames_below_start (drv : driver) : Prop :=
  forall u mem a, a < 4 * u_start_bound u -> device drv u mem a = mem a.

(** The invariant of the stages of [test_script]: the three buffers [ids]
    have storage of [values_count * 4] bytes satisfying [Pb], the trace since
    [t0] holds stage events only, and the test cases, the count of errors
    read and the count of buffer names are [cases], [errs] and [gen]. *)
Definition stage_inv (Pb : buffer -> Prop) (one : test_case) (ids : list Z)
  (t0 : list event) (cases : list test_case) (errs : nat) (gen : Z) (w : world) : Prop :=
  (forall id, In id ids ->
     exists bf, buffers w !! id = Some bf /\ size bf = values_count * 4 /\ Pb bf) /\
  (exists new, trace w = new ++ t0 /\ forallb (stage_event one) new = true) /\
  test_cases w = cases /\ errors_read w = errs /\ generated w = gen.

(** The events of [init_ssbo] and of [map_ssbo], most recent first, and
    those of the allocation of the three buffers of a test. *)
Definition init_ssbo_events (id : Z) : list event :=
  [ Call "glGetError" [];
    Call "glUnmapBuffer" [T "GL_SHADER_STORAGE_BUFFER"];
    Call "memset" [I id; I 0; I fill_value_a; I (values_count * 4)];
    Call "glMapBufferRange"
      (T "GL_SHADER_STORAGE_BUFFER" :: I 0 :: I (values_count * 4) :: map_flags);
    Call "glBufferStorage"
      (T "GL_SHADER_STORAGE_BUFFER" :: I (values_count * 4) :: T "nullptr" :: map_flags);
    Call "glBindBufferBase" [T "GL_SHADER_STORAGE_BUFFER"; I 0; I id];
    Call "glGenBuffers" [I 1; I id] ].

Definition map_ssbo_events (id off : Z) : list event :=
  [ Call "memset" [I id; I off; I fill_value_b; I (values_count * 4 - off)];
    Call "glMapBufferRange"
      (T "GL_SHADER_STORAGE_BUFFER" :: I off :: I (values_count * 4 - off) :: map_flags);
    Call "glBindBufferBase" [T "GL_SHADER_STORAGE_BUFFER"; I 0; I id] ].

Definition allocation_events (one : test_case) (g : Z) : list event :=
  map_ssbo_events (g + 3) (offset one) ++ init_ssbo_events (g + 3) ++
  map_ssbo_events (g + 2) (offset one) ++ init_ssbo_events (g + 2) ++
  map_ssbo_events (g + 1) (offset one) ++ init_ssbo_events (g + 1).

(** The CPU writes of a test, oldest first: three times, a storage of
    [values_count * 4] bytes is allocated, filled whole with the byte of
    [fill_value_a], then filled from [offset] to its end with the byte of
    [fill_value_b]. *)
Definition three_filled_buffers (one : test_case) (g : Z) : list cpu_write :=
  let n := values_count * 4 in
  [ Alloc n; Fill (g + 1) 0 (uint8 fill_value_a) n;
    Fill (g + 1) (offset one) (uint8 fill_value_b) (n - offset one);
    Alloc n; Fill (g + 2) 0 (uint8 fill_value_a) n;
    Fill (g + 2) (offset one) (uint8 fill_value_b) (n - offset one);
    Alloc n; Fill (g + 3) 0 (uint8 fill_value_a) n;
    Fill (g + 3) (offset one) (uint8 fill_value_b) (n - offset one) ].

(** A test case the probes can run on: the stride is not 0, the offset is a
    multiple of 4 and the first third of the elements starts behind it. *)
Definition runnable (one : test_case) : Prop :=
  stride one <> 0 /\ 0 <= offset one /\ offset one mod 4 = 0 /\
  offset one / 4 <= values_count / 3.

(** The world [probe_offseted_part_of_ssbo] probes in: [ssbo] is bound and
    its first [offset] bytes are mapped again. *)
Definition remapped (ssbo : Z) (one : test_case) (w : world) : world :=
  set_trace
    (fun t =>
       Call "glMapBufferRange"
         (T "GL_SHADER_STORAGE_BUFFER" :: I 0 :: I (offset one) :: map_flags)
       :: Call "glUnmapBuffer" [T "GL_SHADER_STORAGE_BUFFER"]
       :: Call "glBindBufferBase" [T "GL_SHADER_STORAGE_BUFFER"; I 0; I ssbo] :: t)
    (set_binding ssbo w).

(** The uniforms [compute_exec] dispatches with. *)
Definition dispatch_uniforms (one : test_case) (start_bound end_bound value : Z) : uniforms :=
  {| u_stride := stride one;
     u_start_bound := Z.max (offset one) start_bound;
     u_end_bound := end_bound;
     u_value := value |}.

(** The events of [compute_exec], most recent first. *)
Definition compute_exec_events (ssbo : Z) (one : test_case)
  (start_bound end_bound value : Z) : list event :=
  [ Call "glDispatchCompute" [I 45; I 1; I 1];
    Call "glUniform1i" [T "value"; I value];
    Call "glGetUniformLocation" [T "prog"; T "value"];
    Call "glUniform1ui" [T "end_bound"; I end_bound];
    Call "glGetUniformLocation" [T "prog"; T "end_bound"];
    Call "glUniform1ui" [T "start_bound"; I (Z.max (offset one) start_bound)];
    Call "glGetUniformLocation" [T "prog"; T "start_bound"];
    Call "glUniform1ui" [T "stride"; I (stride one)];
    Call "glGetUniformLocation" [T "prog"; T "stride"];
    Call "glBindBufferBase" [T "GL_SHADER_STORAGE_BUFFER"; I 0; I ssbo] ].

(** A platform whose device runs the shader invocation by invocation. *)
Definition shader_platform : driver := platform supports_literal 4096 run_shader.

(** The line [main] prints once a test has failed. *)
Definition test_failed_line (one : test_case) : event :=
  Printf stdout "Test failed  with offset: %u stride: %u \n" [I (offset one); I (stride one)].

(** The world [main] runs its first test in, on [lossy_platform]. *)
Definition world_of_first_test : world :=
  final_world
    (bind (build_programm lossy_platform) (fun _ => init_test_cases lossy_platform)
       (set_trace
          (fun _ =>
             [ Call "glfwExtensionSupported" [T "extension"];
               Call "glfwExtensionSupported" [T "extension"];
               Call "glfwExtensionSupported" [T "extension"];
               Call "glfwExtensionSupported" [T "extension"];
               Call "gladLoadGLLoader" [T "glfwGetProcAddress"];
               Call "glfwMakeContextCurrent" [T "window"];
               Call "glfwCreateWindow" [I 1024; I 1024; T "Map coherent"; T "NULL"; T "NULL"];
               Call "glfwWindowHint" [T "GLFW_OPENGL_PROFILE"; T "GLFW_OPENGL_CORE_PROFILE"];
               Call "glfwWindowHint" [T "GLFW_OPENGL_FORWARD_COMPAT"; T "GL_TRUE"];
               Call "glfwWindowHint" [T "GLFW_CONTEXT_VERSION_MINOR"; I 3];
               Call "glfwWindowHint" [T "GLFW_CONTEXT_VERSION_MAJOR"; I 4];
               Call "glfwWindowHint" [T "GLFW_VISIBLE"; T "GLFW_TRUE"];
               Call "glfwInit" [] ])
          initial_world)).

(** The invariant of the loop of [main] on pages of [p] bytes: the test
    cases are in place and the trace only grew since [t0]. *)
Definition main_inv (p : Z) (t0 : list event) (w : world) : Prop :=
  test_cases w = page_straddling_cases p /\ exists new, trace w = new ++ t0.

(** However the computation ends, it has only added events that satisfy [P]
    to the trace. *)
Definition appends {A} (P : event -> bool) (m : M world A) : Prop :=
  forall w, exists new,
    trace (final_world (m w)) = new ++ trace w /\ forallb P new = true.
(** ** The storage of a test, element by element *)

(** Element [e] of a storage read as an array of [int]. *)
Definition elem (mem : memory) (e : Z) : Z := load_int mem (4 * e).

(** The storage of a buffer of a test, its bytes being [mem]. *)
Definition storage (mem : memory) : buffer :=
  {| size := values_count * 4; bytes := mem |}.

(** The bytes [init_ssbo] and then [map_ssbo] leave in new storage. *)
Definition filled (fresh : memory) (one : test_case) : memory :=
  write_bytes (write_bytes fresh 0 (values_count * 4) (uint8 fill_value_a))
    (offset one) (values_count * 4 - offset one) (uint8 fill_value_b).

(** What the three probes ask of a storage whose range from [offset] is
    mapped, the elements numbered as in the buffer.  [range_ok] asks for
    the written values only when the start bound is not below the mapping:
    below it the second loop of [probe_value_in_range] does not run. *)
Definition initial_ok (one : test_case) (mem : memory) : Prop :=
  forall e, offset one / 4 <= e < values_count -> elem mem e = fill_value_b.

Definition range_ok (one : test_case) (start_bound end_bound value : Z)
  (mem : memory) : Prop :=
  (forall e, offset one / 4 <= e < values_count -> e mod stride one <> 0 ->
             elem mem e = fill_value_b) /\
  (offset one / 4 <= start_bound ->
   forall e, start_bound <= e < end_bound -> e mod stride one = 0 ->
             elem mem e = value).

Definition prefix_ok (one : test_case) (mem : memory) : Prop :=
  forall e, 0 <= e < offset one / 4 -> elem mem e = fill_value_a.

(** The bytes of the three buffers of a test after each stage, on a device
    [dev], from new storage holding [fresh]. *)
Definition buff_b_1 (dev : uniforms -> memory -> memory) (fresh : memory)
  (one : test_case) : memory :=
  dev (dispatch_uniforms one 0 15000 modifed_value) (filled fresh one).

Definition buff_a_2 (dev : uniforms -> memory -> memory) (fresh : memory)
  (one : test_case) : memory :=
  dev (dispatch_uniforms one 0 45000 modifed_value) (filled fresh one).

Definition buff_b_2 (dev : uniforms -> memory -> memory) (fresh : memory)
  (one : test_case) : memory :=
  dev (dispatch_uniforms one 15000 30000 modifed_value) (buff_b_1 dev fresh one).

Definition buff_a_3 (dev : uniforms -> memory -> memory) (fresh : memory)
  (one : test_case) : memory :=
  dev (dispatch_uniforms one 0 45000 modifed_value) (buff_a_2 dev fresh one).

Definition buff_b_3 (dev : uniforms -> memory -> memory) (fresh : memory)
  (one : test_case) : memory :=
  dev (dispatch_uniforms one 15000 30000 remodifed_value) (buff_b_2 dev fresh one).

Definition buff_c_3 (dev : uniforms -> memory -> memory) (fresh : memory)
  (one : test_case) : memory :=
  dev (dispatch_uniforms one 15000 30000 modifed_value) (filled fresh one).

(** What the probes of [test_script] ask, stage by stage. *)
Definition test_verdict (dev : uniforms -> memory -> memory) (fresh : memory)
  (one : test_case) : Prop :=
  initial_ok one (filled fresh one) /\
  (* Stage 1 *)
  range_ok one 0 15000 modifed_value (buff_b_1 dev fresh one) /\
  (* Stage 2 *)
  range_ok one 0 45000 modifed_value (buff_a_2 dev fresh one) /\
  range_ok one 0 30000 modifed_value (buff_b_2 dev fresh one) /\
  (* Stage 3 *)
  range_ok one 0 45000 modifed_value (buff_a_3 dev fresh one) /\
  range_ok one 0 15000 modifed_value (buff_b_3 dev fresh one) /\
  range_ok one 15000 30000 remodifed_value (buff_b_3 dev fresh one) /\
  range_ok one 15000 30000 modifed_value (buff_c_3 dev fresh one) /\
  (* the part that is not mapped *)
  prefix_ok one (buff_a_3 dev fresh one) /\
  prefix_ok one (buff_b_3 dev fresh one) /\
  prefix_ok one (buff_c_3 dev fresh one).

(** An event that is not the line [main] prints for a failed test. *)
Definition quiet (e : event) : bool :=
  match e with
  | Call _ _ => true
  | Printf _ fmt _ => negb (String.eqb fmt "Test failed  with offset: %u stride: %u \n")
  end.

(** The state of a test between its steps: its buffers [g + 1], [g + 2] and
    [g + 3] hold [ma], [mb] and [mc], the other buffers are those of [rest],
    and the trace has grown from [t0] by quiet events. *)
Definition test_state (g : Z) (rest : gmap Z buffer) (t0 : list event)
  (cases : list test_case) (errs : nat) (ma mb mc : memory) (w : world) : Prop :=
  buffers w =
    <[g + 3 := storage mc]> (<[g + 2 := storage mb]> (<[g + 1 := storage ma]> rest)) /\
  (exists new, trace w = new ++ t0 /\ forallb quiet new = true) /\
  test_cases w = cases /\ errors_read w = errs /\ generated w = g + 3.

(** What is left of [main] once the program object is built. *)
Definition tests_and_exit (EXIT_SKIP : Z) (drv : driver) : M world Z :=
  bind (init_test_cases drv) (fun _ =>
  bind (for_each (seqZ 0 7) (main_loop_body EXIT_SKIP drv) true) (fun _ =>
  bind (call "glfwDestroyWindow" [T "window"]) (fun _ =>
  bind (call "glfwTerminate" []) (fun _ => ret 0)))).

(** The loop of [main] on the cases of [l], then the end of [main]. *)
Definition tests_from (EXIT_SKIP : Z) (drv : driver) (l : list Z) (pass : bool)
  : M world Z :=
  bind (for_each l (main_loop_body EXIT_SKIP drv) pass) (fun _ =>
  bind (call "glfwDestroyWindow" [T "window"]) (fun _ =>
  bind (call "glfwTerminate" []) (fun _ => ret 0))).

(** An event that is not a call of [glfwDestroyWindow], of [glfwTerminate]
    or of [glDispatchCompute]. *)
Definition startup_event (e : event) : bool :=
  match e with
  | Call fn _ =>
      negb (String.eqb fn "glfwDestroyWindow") && negb (String.eqb fn "glfwTerminate")
      && negb (String.eqb fn "glDispatchCompute")
  | Printf _ _ _ => true
  end.

(** The status [check_error] leaves with on an error. *)
Definition error_status (EXIT_SKIP error : Z) : Z :=
  if error =? GL_OUT_OF_MEMORY then EXIT_SKIP else EXIT_FAILURE.

(** Why the process has left through [exit] with status [c], in world [w]:
    the check of the extensions found GL 4.4 and the extension called
    [extension] both missing and left with [EXIT_SKIP]; or [check_error] has
    just read an error, the last one read in [w], and left with the status
    of that error. *)
Definition exit_cause (EXIT_SKIP : Z) (drv : driver) (c : Z) (w : world) : Prop :=
  c = EXIT_SKIP /\ GLAD_GL_VERSION_4_4 drv = 0 /\
    glfwExtensionSupported drv "extension" = false \/
  exists n, errors_read w = S n /\ glGetError drv n <> GL_NO_ERROR /\
            c = error_status EXIT_SKIP (glGetError drv n).

(** The world [main_loop_body] runs test case 1 in, on pages of 4096 bytes. *)
Definition world_of_second_test : world :=
  set_test_cases (fun _ => page_straddling_cases 4096) initial_world.

(** A platform on which GL has run out of memory. *)
Definition out_of_memory : driver :=
  {| glfwCreateWindow_ok := true;
     gladLoadGLLoader_ok := true;
     GLAD_GL_VERSION_4_4 := 1;
     glfwExtensionSupported := fun _ => false;
     glGetError := fun _ => GL_OUT_OF_MEMORY;
     sysconf_SC_PAGESIZE := 4096;
     glCreateProgram := 1;
     GL_COMPILE_STATUS := 1;
     GL_LINK_STATUS := 1;
     fresh_storage := fun _ => 0;
     device := run_shader |}.

(** The events of [build_programm], most recent first. *)
Definition build_programm_events (drv : driver) : list event :=
  (if GL_LINK_STATUS drv =? 0
   then [ Printf stdout "ERROR::SHADER::PROGRAM::LINKING_FAILED %s\n" [T "infoLog"];
          Call "glGetProgramInfoLog" [T "prog"; I 512; T "NULL"] ]
   else []) ++
  [ Call "glGetProgramiv" [T "prog"; T "GL_LINK_STATUS"];
    Call "glLinkProgram" [T "prog"];
    Call "glAttachShader" [T "prog"; T "computeShader"] ] ++
  (if GL_COMPILE_STATUS drv =? 0
   then [ Printf stdout "ERROR::SHADER::VERTEX::COMPILATION_FAILED %s\n" [T "infoLog"];
          Call "glGetShaderInfoLog" [T "computeShader"; I 512; T "NULL"] ]
   else []) ++
  [ Call "glGetShaderiv" [T "computeShader"; T "GL_COMPILE_STATUS"];
    Call "glCompileShader" [T "computeShader"];
    Call "glShaderSource" [T "computeShader"; I 1; T "compute_shader_text"; T "NULL"];
    Call "glCreateShader" [T "GL_COMPUTE_SHADER"];
    Call "glCreateProgram" [] ].
(** The run of the program on a platform. *)
Definition run (EXIT_SKIP : Z) (drv : driver) (argc : Z) (argv : list string)
  : outcome world Z :=
  main EXIT_SKIP drv argc argv initial_world.

End FillSsbo.

(** * map_and_draw_coherent.cpp *)

Module MapDraw.

(** What a run observes of its platform.  [glReadPixels] is what reading the
    rendered framebuffer back would give; the program has no call of it left
    (its [probe] is commented out). *)
Record driver := {
  glfwCreateWindow_ok : bool;
  gladLoadGLLoader_ok : bool;
  GLAD_GL_VERSION_4_4 : Z;
  glfwExtensionSupported : string -> bool;
  glGetError : nat -> Z;                   (* the error read by the n-th call *)
  sysconf_SC_PAGESIZE : Z;
  glCreateProgram : Z;
  GL_COMPILE_STATUS_vertex : Z;
  GL_COMPILE_STATUS_fragment : Z;
  GL_LINK_STATUS : Z;
  glGenBuffers_ssbo : Z;                   (* the name generated for [ssbo] *)
  glCheckFramebufferStatus_complete : bool;
  glfwWindowShouldClose : nat -> bool;     (* the answer to the n-th call *)
  glReadPixels : Z -> Z -> list Q
}.

Record world := {
  trace : list event;                      (* most recent event first *)
  mapped : gmap Z Z;                       (* size in bytes of coherent_memory[k], once mapped *)
  color : gmap Z float;                     (* floats written through coherent_memory[0] *)
  vertices : gmap Z float;                  (* floats written through coherent_memory[1] *)
  indexes : gmap Z Z;                      (* unsigned ints written through coherent_memory[2] *)
  indexes_count : Z;                       (* static int indexes_count *)
  errors_read : nat;                       (* calls of glGetError so far *)
  close_polls : nat;                       (* calls of glfwWindowShouldClose so far *)
  prog : Z;
  ssbo : Z
}.

Definition initial_world : world :=
  {| trace := []; mapped := ∅; color := ∅; vertices := ∅; indexes := ∅;
     indexes_count := 0; errors_read := 0; close_polls := 0; prog := 0; ssbo := 0 |}.

Definition set_trace (f : list event -> list event) (w : world) : world :=
  {| trace := f (trace w); mapped := mapped w; color := color w; vertices := vertices w;
     indexes := indexes w; indexes_count := indexes_count w; errors_read := errors_read w;
     close_polls := close_polls w; prog := prog w; ssbo := ssbo w |}.

Definition set_mapped (f : gmap Z Z -> gmap Z Z) (w : world) : world :=
  {| trace := trace w; mapped := f (mapped w); color := color w; vertices := vertices w;
     indexes := indexes w; indexes_count := indexes_count w; errors_read := errors_read w;
     close_polls := close_polls w; prog := prog w; ssbo := ssbo w |}.

Definition set_color (f : gmap Z float -> gmap Z float) (w : world) : world :=
  {| trace := trace w; mapped := mapped w; color := f (color w); vertices := vertices w;
     indexes := indexes w; indexes_count := indexes_count w; errors_read := errors_read w;
     close_polls := close_polls w; prog := prog w; ssbo := ssbo w |}.

Definition set_vertices (f : gmap Z float -> gmap Z float) (w : world) : world :=
  {| trace := trace w; mapped := mapped w; color := color w; vertices := f (vertices w);
     indexes := indexes w; indexes_count := indexes_count w; errors_read := errors_read w;
     close_polls := close_polls w; prog := prog w; ssbo := ssbo w |}.

Definition set_indexes (f : gmap Z Z -> gmap Z Z) (w : world) : world :=
  {| trace := trace w; mapped := mapped w; color := color w; vertices := vertices w;
     indexes := f (indexes w); indexes_count := indexes_count w; errors_read := errors_read w;
     close_polls := close_polls w; prog := prog w; ssbo := ssbo w |}.

Definition set_indexes_count (n : Z) (w : world) : world :=
  {| trace := trace w; mapped := mapped w; color := color w; vertices := vertices w;
     indexes := indexes w; indexes_count := n; errors_read := errors_read w;
     close_polls := close_polls w; prog := prog w; ssbo := ssbo w |}.

Definition set_errors_read (n : nat) (w : world) : world :=
  {| trace := trace w; mapped := mapped w; color := color w; vertices := vertices w;
     indexes := indexes w; indexes_count := indexes_count w; errors_read := n;
     close_polls := close_polls w; prog := prog w; ssbo := ssbo w |}.

Definition set_close_polls (n : nat) (w : world) : world :=
  {| trace := trace w; mapped := mapped w; color := color w; vertices := vertices w;
     indexes := indexes w; indexes_count := indexes_count w; errors_read := errors_read w;
     close_polls := n; prog := prog w; ssbo := ssbo w |}.

Definition set_prog (p : Z) (w : world) : world :=
  {| trace := trace w; mapped := mapped w; color := color w; vertices := vertices w;
     indexes := indexes w; indexes_count := indexes_count w; errors_read := errors_read w;
     close_polls := close_polls w; prog := p; ssbo := ssbo w |}.

Definition set_ssbo (p : Z) (w : world) : world :=
  {| trace := trace w; mapped := mapped w; color := color w; vertices := vertices w;
     indexes := indexes w; indexes_count := indexes_count w; errors_read := errors_read w;
     close_polls := close_polls w; prog := prog w; ssbo := p |}.

Local Open Scope prog_scope.

Definition call (fn : string) (args : list arg) : M world unit :=
  modify (set_trace (cons (Call fn args))).

Definition printf (fmt : string) (args : list arg) : M world unit :=
  modify (set_trace (cons (Printf stdout fmt args))).

Definition fprintf (to : stream) (fmt : string) (args : list arg) : M world unit :=
  modify (set_trace (cons (Printf to fmt args))).

(** [sizeof (float)] and [sizeof (unsigned int)]. *)
Definition sizeof_element : Z := 4.

(** [coherent_memory[k]], cast to an array, at [index] set to [v]: a store through the pointer
    mapped for buffer [k]; through a pointer that was not mapped, or outside
    the mapped range, it is undefined. *)
Definition store {V} (k : Z) (set : (gmap Z V -> gmap Z V) -> world -> world)
  (index : Z) (v : V) : M world unit :=
  m <- gets mapped ;;
  match m !! k with
  | Some sz =>
      if (0 <=? index) && (sizeof_element * index + sizeof_element <=? sz)
      then modify (set (insert index v))
      else undef
  | None => undef
  end.

(** [glMapBufferRange (target, 0, size, ...)] assigned to [coherent_memory[k]]. *)
Definition glMapBufferRange (target : string) (k sz : Z) : M world unit :=
  call "glMapBufferRange"
    [T target; I 0; I sz; T "GL_MAP_WRITE_BIT"; T "GL_MAP_PERSISTENT_BIT";
     T "GL_MAP_COHERENT_BIT"] ;;
  modify (set_mapped (insert k sz)).

Definition glBufferStorage (target : string) (sz : Z) : M world unit :=
  call "glBufferStorage"
    [T target; I sz; T "NULL"; T "GL_MAP_WRITE_BIT"; T "GL_MAP_PERSISTENT_BIT";
     T "GL_MAP_COHERENT_BIT"; T "GL_DYNAMIC_STORAGE_BIT"].

(** The C quotient of two [int]s, and the [float] quotient
    [(float) a / (float) b] of two [int]s. *)
Definition idiv (a b : Z) : Z := Z.quot a b.
Definition fdiv (a b : Z) : float := float_div (float_of_int a) (float_of_int b).

Section Program.

Variable EXIT_SKIP : Z.
Variable drv : driver.

Definition getSystemPageSize : M world Z :=
  call "sysconf" [T "_SC_PAGESIZE"] ;;
  ret (sysconf_SC_PAGESIZE drv).

Definition check_error : M world unit :=
  n <- gets errors_read ;;
  modify (set_errors_read (S n)) ;;
  call "glGetError" [] ;;
  let error := glGetError drv n in
  if error =? GL_NO_ERROR then ret tt
  else if error =? GL_OUT_OF_MEMORY then exit EXIT_SKIP
  else exit EXIT_FAILURE.

(** As in the other program, the string tested is the literal ["extension"]. *)
Definition reqire_extension (extension : string) (gl_version : Z) : M world unit :=
  if gl_version =? 0 then
    call "glfwExtensionSupported" [T "extension"] ;;
    if negb (glfwExtensionSupported drv "extension") then
      fprintf stderr "error: %s not supported\n" [T extension] ;;
      call "glfwTerminate" [] ;;
      exit EXIT_SKIP
    else ret tt
  else ret tt.

Definition build_programm : M world unit :=
  call "glCreateShader" [T "GL_VERTEX_SHADER"] ;;
  call "glShaderSource" [T "vertexShader"; I 1; T "vert_shader_text"; T "NULL"] ;;
  call "glCompileShader" [T "vertexShader"] ;;
  call "glGetShaderiv" [T "vertexShader"; T "GL_COMPILE_STATUS"] ;;
  (if GL_COMPILE_STATUS_vertex drv =? 0 then
     call "glGetShaderInfoLog" [T "vertexShader"; I 512; T "NULL"] ;;
     printf "ERROR::SHADER::VERTEX::COMPILATION_FAILED %s\n" [T "infoLog"]
   else ret tt) ;;
  call "glCreateShader" [T "GL_FRAGMENT_SHADER"] ;;
  call "glShaderSource" [T "fragmentShader"; I 1; T "frag_shader_text"; T "NULL"] ;;
  call "glCompileShader" [T "fragmentShader"] ;;
  call "glGetShaderiv" [T "fragmentShader"; T "GL_COMPILE_STATUS"] ;;
  (if GL_COMPILE_STATUS_fragment drv =? 0 then
     call "glGetShaderInfoLog" [T "fragmentShader"; I 512; T "NULL"] ;;
     printf "ERROR::SHADER::FRAGMENT::COMPILATION_FAILED %s\n" [T "infoLog"]
   else ret tt) ;;
  call "glCreateProgram" [] ;;
  modify (set_prog (glCreateProgram drv)) ;;
  call "glAttachShader" [T "prog"; T "vertexShader"] ;;
  call "glAttachShader" [T "prog"; T "fragmentShader"] ;;
  call "glLinkProgram" [T "prog"] ;;
  call "glGetProgramiv" [T "prog"; T "GL_LINK_STATUS"] ;;
  (if GL_LINK_STATUS drv =? 0 then
     call "glGetProgramInfoLog" [T "prog"; I 512; T "NULL"] ;;
     printf "ERROR::SHADER::PROGRAM::LINKING_FAILED %s\n" [T "infoLog"]
   else ret tt) ;;
  call "glDeleteShader" [T "vertexShader"] ;;
  call "glDeleteShader" [T "fragmentShader"] ;;
  p <- gets prog ;;
  if p =? 0 then abort else ret tt.

Definition setup_buffers (width height : Z) : M world bool :=
  reqire_extension "GL_ARB_uniform_buffer_object" (GLAD_GL_VERSION_4_4 drv) ;;
  reqire_extension "GL_ARB_buffer_storage" (GLAD_GL_VERSION_4_4 drv) ;;
  reqire_extension "GL_ARB_map_buffer_range" (GLAD_GL_VERSION_4_4 drv) ;;
  reqire_extension "GL_VMWX_map_buffer_debug" (GLAD_GL_VERSION_4_4 drv) ;;

  call "glGenBuffers" [I 1; T "ssbo"] ;;
  modify (set_ssbo (glGenBuffers_ssbo drv)) ;;
  call "glBindBuffer" [T "GL_SHADER_STORAGE_BUFFER"; T "ssbo"] ;;
  call "glBindBufferBase" [T "GL_SHADER_STORAGE_BUFFER"; I 1; T "ssbo"] ;;

  let size := int32 (width * height * 4 * sizeof_element) in

  glBufferStorage "GL_SHADER_STORAGE_BUFFER" size ;;
  glMapBufferRange "GL_SHADER_STORAGE_BUFFER" 0 size ;;

  s <- gets ssbo ;;
  if s =? 0 then abort
  else
    call "glBindBuffer" [T "GL_SHADER_STORAGE_BUFFER"; I 0] ;;

    check_error ;;

    call "glGenFramebuffers" [I 1; T "fbo"] ;;
    call "glBindFramebuffer" [T "GL_FRAMEBUFFER"; T "fbo"] ;;

    call "glGenRenderbuffers" [I 1; T "rbo"] ;;
    call "glBindRenderbuffer" [T "GL_RENDERBUFFER"; T "rbo"] ;;
    call "glRenderbufferStorage" [T "GL_RENDERBUFFER"; T "GL_RGBA"; I width; I height] ;;
    call "glFramebufferRenderbuffer"
      [T "GL_FRAMEBUFFER"; T "GL_COLOR_ATTACHMENT0"; T "GL_RENDERBUFFER"; T "rbo"] ;;

    call "glGenBuffers" [I 1; T "vbo"] ;;

    call "glGenVertexArrays" [I 1; T "vao"] ;;
    call "glBindVertexArray" [T "vao"] ;;

    call "glBindBuffer" [T "GL_ARRAY_BUFFER"; T "vbo"] ;;
    glBufferStorage "GL_ARRAY_BUFFER" size ;;

    call "glVertexAttribPointer"
      [I 0; I 3; T "GL_FLOAT"; T "GL_FALSE"; I (3 * sizeof_element); I 0] ;;
    call "glEnableVertexAttribArray" [I 0] ;;
    glMapBufferRange "GL_ARRAY_BUFFER" 1 size ;;

    call "glGenBuffers" [I 1; T "indices"] ;;
    call "glBindBuffer" [T "GL_ELEMENT_ARRAY_BUFFER"; T "indices"] ;;
    glBufferStorage "GL_ELEMENT_ARRAY_BUFFER" size ;;
    glMapBufferRange "GL_ELEMENT_ARRAY_BUFFER" 2 size ;;

    call "glBindBuffer" [T "GL_ARRAY_BUFFER"; I 0] ;;
    call "glBindVertexArray" [I 0] ;;

    call "glCheckFramebufferStatus" [T "GL_FRAMEBUFFER"] ;;
    if negb (glCheckFramebufferStatus_complete drv) then ret false
    else
      call "glBindFramebuffer" [T "GL_FRAMEBUFFER"; I 0] ;;

      check_error ;;

      ret true.

(** Fuel for a loop whose counter moves from [lo] to [hi], both included, by
    steps of at least one. *)
Definition span_fuel (lo hi : Z) : nat := S (S (Z.to_nat (hi - lo))).

(** [generate_colors]: inner loop [for (int x = 0; x < width; x++)]. *)
Fixpoint color_row (width height y : Z) (fuel : nat) (x index : Z) : M world Z :=
  match fuel with
  | O => out_of_fuel
  | S fuel' =>
      if x <? width then
        store 0 set_color index (fdiv x width) ;;
        store 0 set_color (index + 1) (fdiv y height) ;;
        store 0 set_color (index + 2) (fdiv (x + y * width) (width * height)) ;;
        store 0 set_color (index + 3) (Finite 1) ;;
        color_row width height y fuel' (x + 1) (index + 4)
      else ret index
  end.

(** [generate_colors]: outer loop [for (int y = 0; y < height; y++)]. *)
Fixpoint color_rows (width height : Z) (fuel : nat) (y index : Z) : M world Z :=
  match fuel with
  | O => out_of_fuel
  | S fuel' =>
      if y <? height then
        index <- color_row width height y (span_fuel 0 width) 0 index ;;
        color_rows width height fuel' (y + 1) index
      else ret index
  end.

Definition generate_colors (width height step : Z) : M world unit :=
  index <- color_rows width height (span_fuel 0 height) 0 0 ;;
  printf "Colors count %d \n" [I (idiv index 4)].

(** [generateVerticles]: [for (int x = 0 - (width / 2); x <= width / 2; x += step)]. *)
Fixpoint vertex_row (width height step y : Z) (fuel : nat) (x index : Z) : M world Z :=
  match fuel with
  | O => out_of_fuel
  | S fuel' =>
      if x <=? idiv width 2 then
        store 1 set_vertices index (fdiv x (idiv width 2)) ;;
        store 1 set_vertices (index + 1) (fdiv y (idiv height 2)) ;;
        store 1 set_vertices (index + 2) (Finite 0) ;;
        vertex_row width height step y fuel' (x + step) (index + 3)
      else ret index
  end.

(** [generateVerticles]: [for (int y = (height / 2); y >= 0 - height / 2; y -= step)]. *)
Fixpoint vertex_rows (width height step : Z) (fuel : nat) (y index : Z) : M world Z :=
  match fuel with
  | O => out_of_fuel
  | S fuel' =>
      if y >=? 0 - idiv height 2 then
        index <- vertex_row width height step y
                   (span_fuel (0 - idiv width 2) (idiv width 2)) (0 - idiv width 2) index ;;
        vertex_rows width height step fuel' (y - step) index
      else ret index
  end.

(** [generateVerticles]: [for (int x = 0; x <= cols; x++)]. *)
Fixpoint index_pairs (cols y : Z) (fuel : nat) (x index : Z) : M world Z :=
  match fuel with
  | O => out_of_fuel
  | S fuel' =>
      if x <=? cols then
        store 2 set_indexes index (uint32 (y * (cols + 1) + x)) ;;
        store 2 set_indexes (index + 1) (uint32 ((y + 1) * (cols + 1) + x)) ;;
        index_pairs cols y fuel' (x + 1) (index + 2)
      else ret index
  end.

(** [generateVerticles]: [for (int y = 0; y < rows; y++)]. *)
Fixpoint index_rows (cols rows : Z) (fuel : nat) (y index : Z) : M world Z :=
  match fuel with
  | O => out_of_fuel
  | S fuel' =>
      if y <? rows then
        store 2 set_indexes index (uint32 (y * (cols + 1))) ;;
        index <- index_pairs cols y (span_fuel 0 cols) 0 (index + 1) ;;
        store 2 set_indexes index (uint32 ((y + 1) * (cols + 1) + (cols - 1))) ;;
        index_rows cols rows fuel' (y + 1) (index + 1)
      else ret index
  end.

Definition generateVerticles (width height step : Z) : M world unit :=
  index <- vertex_rows width height step
             (span_fuel (0 - idiv height 2) (idiv height 2)) (idiv height 2) 0 ;;
  printf "Vertexes count %d \n" [I (idiv index 3)] ;;

  let vertices_count := idiv index 3 in
  if step =? 0 then undef      (* width / step *)
  else
    let cols := idiv width step in
    let rows := idiv height step in
    index <- index_rows cols rows (span_fuel 0 rows) 0 0 ;;
    modify (set_indexes_count index) ;;
    printf "Indexes count %d \n" [I index].

(** Body of the loop of [draw]. *)
Definition draw_frame (width height : Z) : M world unit :=
  call "glBindFramebuffer" [T "GL_FRAMEBUFFER"; T "fbo"] ;;
  call "glViewport" [I 0; I 0; I width; I height] ;;
  call "glClearColor" [R 1%Q; R 0%Q; R 0%Q; R 1%Q] ;;
  call "glClear" [T "GL_COLOR_BUFFER_BIT"] ;;
  call "glFenceSync" [T "GL_SYNC_GPU_COMMANDS_COMPLETE"; I 0] ;;
  call "glClientWaitSync" [T "fence"; T "GL_SYNC_FLUSH_COMMANDS_BIT"; T "GL_TIMEOUT_IGNORED"] ;;
  call "glBindVertexArray" [T "vao"] ;;
  call "glBindBuffer" [T "GL_ELEMENT_ARRAY_BUFFER"; T "indices"] ;;
  n <- gets indexes_count ;;
  call "glDrawElements" [T "GL_TRIANGLE_STRIP"; I n; T "GL_UNSIGNED_INT"; I 0] ;;
  call "glBindVertexArray" [I 0] ;;
  call "glBindFramebuffer" [T "GL_READ_FRAMEBUFFER"; T "fbo"] ;;
  call "glBindFramebuffer" [T "GL_DRAW_FRAMEBUFFER"; I 0] ;;
  call "glBlitFramebuffer"
    [I 0; I 0; I width; I height; I 0; I 0; I 1024; I 1024;
     T "GL_COLOR_BUFFER_BIT"; T "GL_NEAREST"] ;;
  call "glfwSwapBuffers" [T "window"] ;;
  call "glfwPollEvents" [].

(** [while (!glfwWindowShouldClose (window)) { ... }]: the loop runs for as
    long as the window stays open, which no bound of the program limits. *)
Fixpoint draw_loop (width height : Z) (fuel : nat) : M world unit :=
  match fuel with
  | O => out_of_fuel
  | S fuel' =>
      n <- gets close_polls ;;
      modify (set_close_polls (S n)) ;;
      call "glfwWindowShouldClose" [T "window"] ;;
      if glfwWindowShouldClose drv n then ret tt
      else draw_frame width height ;; draw_loop width height fuel'
  end.

Definition draw (fuel : nat) (width height : Z) : M world unit :=
  call "glUseProgram" [T "prog"] ;;
  draw_loop width height fuel.

Definition glfwWindowHints : M world unit :=
  call "glfwWindowHint" [T "GLFW_VISIBLE"; T "GLFW_TRUE"] ;;
  call "glfwWindowHint" [T "GLFW_CONTEXT_VERSION_MAJOR"; I 3] ;;
  call "glfwWindowHint" [T "GLFW_CONTEXT_VERSION_MINOR"; I 2] ;;
  call "glfwWindowHint" [T "GLFW_OPENGL_FORWARD_COMPAT"; T "GL_TRUE"] ;;
  call "glfwWindowHint" [T "GLFW_OPENGL_PROFILE"; T "GLFW_OPENGL_CORE_PROFILE"].

(** [main].  [fuel] bounds the frames of the [draw] loop.  The four
    statements [pass = probe (...) && pass;] after [draw] are comments in the
    source, so [pass] keeps its initial value. *)
Definition main (fuel : nat) (argc : Z) (argv : list string) : M world Z :=
  let pass := true in
  let width := 256 in
  let height := 256 in
  let x0 := idiv width 4 in
  let x1 := idiv (width * 3) 4 in
  let y0 := idiv height 4 in
  let y1 := idiv (height * 3) 4 in
  let step := 8 in

  p <- getSystemPageSize ;;
  printf "getSystemPageSize: %u\n" [I p] ;;
  call "glfwInit" [] ;;
  glfwWindowHints ;;
  call "glfwCreateWindow" [I 1024; I 1024; T "Map coherent"; T "NULL"; T "NULL"] ;;
  if negb (glfwCreateWindow_ok drv) then ret EXIT_SKIP
  else
    call "glfwMakeContextCurrent" [T "window"] ;;
    call "gladLoadGLLoader" [T "glfwGetProcAddress"] ;;
    if negb (gladLoadGLLoader_ok drv) then ret EXIT_FAILURE
    else
      build_programm ;;
      ok <- setup_buffers width height ;;
      if negb ok then ret (if pass then 0 else EXIT_FAILURE)
      else
        generateVerticles width height step ;;
        generate_colors width height step ;;
        draw fuel width height ;;
        call "glfwDestroyWindow" [T "window"] ;;
        call "glfwTerminate" [] ;;
        ret (if pass then 0 else EXIT_FAILURE).

End Program.

(** ** Platforms the properties are stated on *)

(** A platform without GL 4.4 that creates the window, loads GL, reports no
    error, answers [supported] about extensions, closes the window at the
    poll numbered [frames] and would read [pixels] back. *)
Definition platform (supported : string -> bool) (frames : nat)
  (pixels : Z -> Z -> list Q) : driver :=
  {| glfwCreateWindow_ok := true;
     gladLoadGLLoader_ok := true;
     GLAD_GL_VERSION_4_4 := 0;
     glfwExtensionSupported := supported;
     glGetError := fun _ => GL_NO_ERROR;
     sysconf_SC_PAGESIZE := 4096;
     glCreateProgram := 1;
     GL_COMPILE_STATUS_vertex := 1;
     GL_COMPILE_STATUS_fragment := 1;
     GL_LINK_STATUS := 1;
     glGenBuffers_ssbo := 1;
     glCheckFramebufferStatus_complete := true;
     glfwWindowShouldClose := fun n => (frames <=? n)%nat;
     glReadPixels := pixels |}.

Definition required_extensions : list string :=
  ["GL_ARB_uniform_buffer_object"; "GL_ARB_buffer_storage";
   "GL_ARB_map_buffer_range"; "GL_VMWX_map_buffer_debug"]%string.

Definition supports_literal (s : string) : bool := String.eqb s "extension".
Definition supports_required (s : string) : bool :=
  existsb (String.eqb s) required_extensions.

(** Two platforms that differ at most in the pixels they would read back. *)
Definition same_but_pixels (d1 d2 : driver) : Prop :=
  glfwCreateWindow_ok d1 = glfwCreateWindow_ok d2 /\
  gladLoadGLLoader_ok d1 = gladLoadGLLoader_ok d2 /\
  GLAD_GL_VERSION_4_4 d1 = GLAD_GL_VERSION_4_4 d2 /\
  glfwExtensionSupported d1 = glfwExtensionSupported d2 /\
  glGetError d1 = glGetError d2 /\
  sysconf_SC_PAGESIZE d1 = sysconf_SC_PAGESIZE d2 /\
  glCreateProgram d1 = glCreateProgram d2 /\
  GL_COMPILE_STATUS_vertex d1 = GL_COMPILE_STATUS_vertex d2 /\
  GL_COMPILE_STATUS_fragment d1 = GL_COMPILE_STATUS_fragment d2 /\
  GL_LINK_STATUS d1 = GL_LINK_STATUS d2 /\
  glGenBuffers_ssbo d1 = glGenBuffers_ssbo d2 /\
  glCheckFramebufferStatus_complete d1 = glCheckFramebufferStatus_complete d2 /\
  glfwWindowShouldClose d1 = glfwWindowShouldClose d2.

(** The sizes [setup_buffers (256, 256)] maps the three buffers with. *)
Definition mapped_by_setup : gmap Z Z :=
  <[2 := 1048576]> (<[1 := 1048576]> (<[0 := 1048576]> ∅)).

(** A summary of a returning run of a generator: the fields of the world it
    leaves, the written arrays apart. *)
Definition unwritten_fields (w : world) : list event * gmap Z Z * nat * nat * Z * Z :=
  (trace w, mapped w, errors_read w, close_polls w, prog w, ssbo w).

(** The indices [0 .. n - 1] of [m] are all written, with values that
    satisfy [ok], and no other index is. *)
Definition written_range {V} (ok : V -> bool) (n : Z) (m : gmap Z V) : bool :=
  forallb (fun i => match m !! i with Some v => ok v | None => false end) (seqZ 0 n)
  && forallb (fun iv => (0 <=? fst iv) && (fst iv <? n)) (map_to_list m).

(** What [generateVerticles (256, 256, 8)] leaves: the prints, the count of
    indexes, and whether the vertex array holds exactly [3 * 1089] floats and
    the index array exactly 2176 indexes, each below 1089. *)
Definition vertices_report (o : outcome world unit) :=
  match o with
  | Ret _ w' =>
      Some (unwritten_fields w', indexes_count w',
            written_range (fun _ => true) (3 * 1089) (vertices w'),
            written_range (fun v => (0 <=? v) && (v <? 1089)) 2176 (indexes w'),
            bool_decide (color w' = ∅))
  | _ => None
  end.

(** What [generate_colors (256, 256, 8)] leaves. *)
Definition colors_report (o : outcome world unit) :=
  match o with
  | Ret _ w' => Some (unwritten_fields w', indexes_count w')
  | _ => None
  end.

(** ** The frames of [draw] *)

(** The events of one turn of the loop of [draw], most recent first: the
    poll that found the window open, then the frame. *)
Definition frame_events (width height n : Z) : list event :=
  [ Call "glfwPollEvents" [];
    Call "glfwSwapBuffers" [T "window"];
    Call "glBlitFramebuffer"
      [I 0; I 0; I width; I height; I 0; I 0; I 1024; I 1024;
       T "GL_COLOR_BUFFER_BIT"; T "GL_NEAREST"];
    Call "glBindFramebuffer" [T "GL_DRAW_FRAMEBUFFER"; I 0];
    Call "glBindFramebuffer" [T "GL_READ_FRAMEBUFFER"; T "fbo"];
    Call "glBindVertexArray" [I 0];
    Call "glDrawElements" [T "GL_TRIANGLE_STRIP"; I n; T "GL_UNSIGNED_INT"; I 0];
    Call "glBindBuffer" [T "GL_ELEMENT_ARRAY_BUFFER"; T "indices"];
    Call "glBindVertexArray" [T "vao"];
    Call "glClientWaitSync" [T "fence"; T "GL_SYNC_FLUSH_COMMANDS_BIT"; T "GL_TIMEOUT_IGNORED"];
    Call "glFenceSync" [T "GL_SYNC_GPU_COMMANDS_COMPLETE"; I 0];
    Call "glClear" [T "GL_COLOR_BUFFER_BIT"];
    Call "glClearColor" [R 1%Q; R 0%Q; R 0%Q; R 1%Q];
    Call "glViewport" [I 0; I 0; I width; I height];
    Call "glBindFramebuffer" [T "GL_FRAMEBUFFER"; T "fbo"];
    Call "glfwWindowShouldClose" [T "window"] ].

(** The events of [k] turns, most recent first. *)
Fixpoint frames_events (width height n : Z) (k : nat) : list event :=
  match k with
  | O => []
  | S k' => frame_events width height n ++ frames_events width height n k'
  end.

(** The polls from [from] on find the window open [k] times, then closed. *)
Definition closes_after (drv : driver) (from k : nat) : Prop :=
  (forall j, (j < k)%nat -> glfwWindowShouldClose drv (from + j)%nat = false) /\
  glfwWindowShouldClose drv (from + k)%nat = true.

(** The number of calls of [fn] in a trace. *)
Fixpoint calls_of (fn : string) (t : list event) : nat :=
  match t with
  | [] => 0
  | Call f _ :: t' => if String.eqb f fn then S (calls_of fn t') else calls_of fn t'
  | Printf _ _ _ :: t' => calls_of fn t'
  end.

(** A platform on which the window is never found closed. *)
Definition never_closed : driver :=
  {| glfwCreateWindow_ok := true;
     gladLoadGLLoader_ok := true;
     GLAD_GL_VERSION_4_4 := 1;
     glfwExtensionSupported := fun _ => false;
     glGetError := fun _ => GL_NO_ERROR;
     sysconf_SC_PAGESIZE := 4096;
     glCreateProgram := 1;
     GL_COMPILE_STATUS_vertex := 1;
     GL_COMPILE_STATUS_fragment := 1;
     GL_LINK_STATUS := 1;
     glGenBuffers_ssbo := 1;
     glCheckFramebufferStatus_complete := true;
     glfwWindowShouldClose := fun _ => false;
     glReadPixels := fun _ _ => [] |}.

(** A platform on which the framebuffer of [setup_buffers] is not complete. *)
Definition incomplete_framebuffer : driver :=
  {| glfwCreateWindow_ok := true;
     gladLoadGLLoader_ok := true;
     GLAD_GL_VERSION_4_4 := 1;
     glfwExtensionSupported := fun _ => false;
     glGetError := fun _ => GL_NO_ERROR;
     sysconf_SC_PAGESIZE := 4096;
     glCreateProgram := 1;
     GL_COMPILE_STATUS_vertex := 1;
     GL_COMPILE_STATUS_fragment := 1;
     GL_LINK_STATUS := 1;
     glGenBuffers_ssbo := 1;
     glCheckFramebufferStatus_complete := false;
     glfwWindowShouldClose := fun _ => true;
     glReadPixels := fun _ _ => [] |}.

(** The status [check_error] leaves with on an error. *)
Definition error_status (EXIT_SKIP error : Z) : Z :=
  if error =? GL_OUT_OF_MEMORY then EXIT_SKIP else EXIT_FAILURE.

(** Why the process has left through [exit] with status [c], in world [w]:
    the check of the extensions found GL 4.4 and the extension called
    [extension] both missing and left with [EXIT_SKIP]; or [check_error] has
    just read an error, the last one read in [w], and left with the status
    of that error. *)
Definition exit_cause (EXIT_SKIP : Z) (drv : driver) (c : Z) (w : world) : Prop :=
  c = EXIT_SKIP /\ GLAD_GL_VERSION_4_4 drv = 0 /\
    glfwExtensionSupported drv "extension" = false \/
  exists n, errors_read w = S n /\ glGetError drv n <> GL_NO_ERROR /\
            c = error_status EXIT_SKIP (glGetError drv n).

(** The events of [build_programm], most recent first. *)
Definition build_programm_events (drv : driver) : list event :=
  [ Call "glDeleteShader" [T "fragmentShader"];
    Call "glDeleteShader" [T "vertexShader"] ] ++
  (if GL_LINK_STATUS drv =? 0
   then [ Printf stdout "ERROR::SHADER::PROGRAM::LINKING_FAILED %s\n" [T "infoLog"];
          Call "glGetProgramInfoLog" [T "prog"; I 512; T "NULL"] ]
   else []) ++
  [ Call "glGetProgramiv" [T "prog"; T "GL_LINK_STATUS"];
    Call "glLinkProgram" [T "prog"];
    Call "glAttachShader" [T "prog"; T "fragmentShader"];
    Call "glAttachShader" [T "prog"; T "vertexShader"];
    Call "glCreateProgram" [] ] ++
  (if GL_COMPILE_STATUS_fragment drv =? 0
   then [ Printf stdout "ERROR::SHADER::FRAGMENT::COMPILATION_FAILED %s\n" [T "infoLog"];
          Call "glGetShaderInfoLog" [T "fragmentShader"; I 512; T "NULL"] ]
   else []) ++
  [ Call "glGetShaderiv" [T "fragmentShader"; T "GL_COMPILE_STATUS"];
    Call "glCompileShader" [T "fragmentShader"];
    Call "glShaderSource" [T "fragmentShader"; I 1; T "frag_shader_text"; T "NULL"];
    Call "glCreateShader" [T "GL_FRAGMENT_SHADER"] ] ++
  (if GL_COMPILE_STATUS_vertex drv =? 0
   then [ Printf stdout "ERROR::SHADER::VERTEX::COMPILATION_FAILED %s\n" [T "infoLog"];
          Call "glGetShaderInfoLog" [T "vertexShader"; I 512; T "NULL"] ]
   else []) ++
  [ Call "glGetShaderiv" [T "vertexShader"; T "GL_COMPILE_STATUS"];
    Call "glCompileShader" [T "vertexShader"];
    Call "glShaderSource" [T "vertexShader"; I 1; T "vert_shader_text"; T "NULL"];
    Call "glCreateShader" [T "GL_VERTEX_SHADER"] ].

(** ** The colour table *)

(** Component [c] of the colour [generate_colors] computes for the pixel
    [(x, y)]. *)
Definition color_value (width height x y c : Z) : float :=
  if c =? 0 then fdiv x width
  else if c =? 1 then fdiv y height
  else if c =? 2 then fdiv (x + y * width) (width * height)
  else Finite 1.

(** The fields of the world a generator of colours leaves alone. *)
Definition beside_color (w : world) :=
  (mapped w, vertices w, indexes w, indexes_count w, errors_read w, close_polls w,
   prog w, ssbo w).
(** The run of the program on a platform. *)
Definition run (EXIT_SKIP : Z) (drv : driver) (fuel : nat) (argc : Z) (argv : list string)
  : outcome world Z :=
  main EXIT_SKIP drv fuel argc argv initial_world.

End MapDraw.
(** * Ways a computation leaves the process *)

(** Every way [m] can stop the process: when it leaves through [exit] with
    status [c] in world [w'], [S c w'] holds; when an [assert] of it fails,
    [B] holds. *)
Definition stops_with {W A} (S : Z -> W -> Prop) (B : Prop) (m : M W A) : Prop :=
  forall w,
    match m w with
    | Exit c w' => S c w'
    | Abort _ => B
    | _ => True
    end.

(** Every value [m] can return satisfies [S]. *)
Definition returns_with {W A} (S : A -> Prop) (m : M W A) : Prop :=
  forall w a w', m w = Ret a w' -> S a.

(** * Properties *)

(** ** Machine integers *)

Lemma uint32_mod z : uint32 z = z mod 2 ^ 32.
Proof. unfold uint32. change 0xFFFFFFFF with (Z.ones 32). apply Z.land_ones. lia. Qed.

Lemma uint8_mod z : uint8 z = z mod 2 ^ 8.
Proof. unfold uint8. change 0xFF with (Z.ones 8). apply Z.land_ones. lia. Qed.

Lemma uint32_range z : 0 <= uint32 z < 2 ^ 32.
Proof. rewrite uint32_mod. apply Z.mod_pos_bound. lia. Qed.

Lemma uint32_small z : 0 <= z < 2 ^ 32 -> uint32 z = z.
Proof. intros H. rewrite uint32_mod. now apply Z.mod_small. Qed.

Lemma uint32_neg z : - 2 ^ 32 <= z < 0 -> uint32 z = z + 2 ^ 32.
Proof.
  intros H. rewrite uint32_mod.
  symmetry. apply Z.mod_unique with (q := -1); lia.
Qed.

Lemma int32_small z : - 2 ^ 31 <= z < 2 ^ 31 -> int32 z = z.
Proof.
  intros H. unfold int32.
  change 0x80000000 with (2 ^ 31). change 0x100000000 with (2 ^ 32).
  destruct (Z_lt_le_dec z 0) as [Hn|Hp].
  - rewrite uint32_neg by lia.
    destruct (Z.ltb_spec (z + 2 ^ 32) (2 ^ 31)); lia.
  - rewrite uint32_small by lia.
    destruct (Z.ltb_spec z (2 ^ 31)); lia.
Qed.

Lemma int32_uint32 z : int32 (uint32 z) = int32 z.
Proof.
  unfold int32. f_equal.
  rewrite (uint32_small (uint32 z)); [reflexivity | apply uint32_range].
Qed.

Lemma int32_range z : - 2 ^ 31 <= int32 z < 2 ^ 31.
Proof.
  unfold int32. pose proof (uint32_range z).
  change 0x80000000 with (2 ^ 31). change 0x100000000 with (2 ^ 32).
  destruct (Z.ltb_spec (uint32 z) (2 ^ 31)); lia.
Qed.

(** ** The monad *)

Lemma bind_Ret {W A B} (m : M W A) (k : A -> M W B) w a w' :
  m w = Ret a w' -> bind m k w = k a w'.
Proof. intros H. unfold bind. now rewrite H. Qed.

Lemma bind_inv_Ret {W A B} (m : M W A) (k : A -> M W B) w b w'' :
  bind m k w = Ret b w'' -> exists a w', m w = Ret a w' /\ k a w' = Ret b w''.
Proof.
  unfold bind. destruct (m w) as [a w'| | | |]; try discriminate.
  intros H. now exists a, w'.
Qed.

Lemma hoare_ret {W A} (P : W -> Prop) (a : A) (Q : A -> W -> Prop) :
  (forall w, P w -> Q a w) -> hoare P (ret a) Q.
Proof. intros H w Hw. exists a, w. split; [reflexivity | auto]. Qed.

Lemma hoare_bind {W A B} (P : W -> Prop) (m : M W A) (Q : A -> W -> Prop)
  (k : A -> M W B) (R : B -> W -> Prop) :
  hoare P m Q -> (forall a, hoare (Q a) (k a) R) -> hoare P (bind m k) R.
Proof.
  intros Hm Hk w Hw.
  destruct (Hm w Hw) as (a & w' & Hrun & Hq).
  destruct (Hk a w' Hq) as (b & w'' & Hrun' & Hr).
  exists b, w''. split; [| exact Hr].
  now rewrite (bind_Ret _ _ _ _ _ Hrun).
Qed.

Lemma hoare_weaken {W A} (P P' : W -> Prop) (m : M W A) (Q Q' : A -> W -> Prop) :
  hoare P' m Q' -> (forall w, P w -> P' w) -> (forall a w, Q' a w -> Q a w) ->
  hoare P m Q.
Proof.
  intros H HP HQ w Hw.
  destruct (H w (HP w Hw)) as (a & w' & Hrun & Hq). eauto.
Qed.

Lemma hoare_modify {W} (P : W -> Prop) (f : W -> W) (Q : unit -> W -> Prop) :
  (forall w, P w -> Q tt (f w)) -> hoare P (modify f) Q.
Proof. intros H w Hw. exists tt, (f w). split; [reflexivity | auto]. Qed.

Lemma hoare_for_each {W A} (Inv : W -> Prop) (body : Z -> A -> M W A) l :
  (forall i a, In i l -> hoare Inv (body i a) (fun _ => Inv)) ->
  forall a, hoare Inv (for_each l body a) (fun _ => Inv).
Proof.
  induction l as [|i l IH]; intros Hb a; simpl.
  - now apply hoare_ret.
  - eapply hoare_bind.
    + apply Hb. now left.
    + intros a'. apply IH. intros j b Hj. apply Hb. now right.
Qed.

(** ** fill_ssbo_coherent *)

Module FillSsboFacts.
Import FillSsbo.

(** Unfolding the monad and the record updates of the world. *)
Ltac exec :=
  cbv [bind call printf fprintf modify gets ret abort exit undef out_of_fuel
       getSystemPageSize glGenBuffers glBindBufferBase glBufferStorage glUnmapBuffer
       glUniform1ui glUniform1i glDispatchCompute fence
       set_trace set_buffers set_generated set_binding set_current set_errors_read
       set_prog set_test_cases
       trace buffers generated binding current errors_read prog test_cases].

(** *** The test cases *)

Lemma mod_shift p k r : 0 <= r < p -> (k * p + r) mod p = r.
Proof. intros H. rewrite Z.add_comm, Z_mod_plus_full. now apply Z.mod_small. Qed.

Lemma near_page_boundary_cases p :
  4 < p ->
  near_page_boundary p 0 = false /\
  near_page_boundary p p = false /\
  near_page_boundary p (p - 4) = true /\
  near_page_boundary p (p + 4) = true /\
  near_page_boundary p (2 * p) = false /\
  near_page_boundary p (2 * p + 4) = true /\
  near_page_boundary p (2 * p - 4) = true.
Proof.
  intros Hp. unfold near_page_boundary.
  assert (H4 : forall k, (k * p + 4) mod p = 4) by (intros; apply mod_shift; lia).
  assert (Hm : forall k, (k * p + (p - 4)) mod p = p - 4) by (intros; apply mod_shift; lia).
  assert (H0 : forall k, (k * p + 0) mod p = 0) by (intros; apply mod_shift; lia).
  repeat split.
  - replace (0 + 4) with (0 * p + 4) by lia. replace (0 - 4) with (-1 * p + (p - 4)) by lia.
    rewrite H4, Hm. destruct (Z.eqb_spec (p - 4) 0); [lia | reflexivity].
  - replace (p + 4) with (1 * p + 4) by lia. replace (p - 4) with (0 * p + (p - 4)) by lia.
    rewrite H4, Hm. destruct (Z.eqb_spec (p - 4) 0); [lia | reflexivity].
  - replace (p - 4 + 4) with (1 * p + 0) by lia. now rewrite H0.
  - replace (p + 4 - 4) with (1 * p + 0) by lia. rewrite H0. apply orb_true_r.
  - replace (2 * p + 4) with (2 * p + 4) by lia.
    replace (2 * p - 4) with (1 * p + (p - 4)) by lia.
    rewrite H4, Hm. destruct (Z.eqb_spec (p - 4) 0); [lia | reflexivity].
  - replace (2 * p + 4 - 4) with (2 * p + 0) by lia. rewrite H0. apply orb_true_r.
  - replace (2 * p - 4 + 4) with (2 * p + 0) by lia. now rewrite H0.
Qed.

(** What [init_test_cases] stores, in the arithmetic of [uint32_t]. *)
Lemma init_test_cases_run drv w :
  length (test_cases w) = 7%nat ->
  exists w',
    init_test_cases drv w = Ret tt w' /\
    let p := uint32 (sysconf_SC_PAGESIZE drv) in
    test_cases w' =
      [ {| stride := 2; offset := 0 |};
        {| stride := p; offset := p |};
        {| stride := p; offset := uint32 (p - 4) |};
        {| stride := p; offset := uint32 (p + 4) |};
        {| stride := p; offset := uint32 (p * 2) |};
        {| stride := p; offset := uint32 (uint32 (p * 2) + 4) |};
        {| stride := p; offset := uint32 (uint32 (p * 2) - 4) |} ] /\
    buffers w' = buffers w /\ generated w' = generated w /\
    errors_read w' = errors_read w /\ prog w' = prog w.
Proof.
  intros Hlen. destruct w as [tr bufs gen bnd cur errs pr cases]. simpl in Hlen.
  do 7 (destruct cases as [|? cases]; [discriminate Hlen|]).
  destruct cases; [|discriminate Hlen].
  unfold init_test_cases. exec. simpl.
  eexists. split; [reflexivity|]. repeat split.
Qed.

(** C4, as amended.  On a system with pages of [p] bytes, [4 < p] and
    [2 p + 4] below [2 ^ 32], [init_test_cases] fills the seven test cases
    [{2, 0}], and with stride [p] the offsets [p], [p - 4], [p + 4], [2 p],
    [2 p + 4], [2 p - 4]; four of the offsets sit exactly 4 bytes before or
    after a page boundary. *)
Theorem init_test_cases_straddle drv w :
  let p := sysconf_SC_PAGESIZE drv in
  4 < p -> 2 * p + 4 < 2 ^ 32 ->
  length (test_cases w) = 7%nat ->
  exists w',
    init_test_cases drv w = Ret tt w' /\
    length (test_cases w') = 7%nat /\
    test_cases w' = page_straddling_cases p /\
    length (near_boundary_cases p (test_cases w')) = 4%nat.
Proof.
  intros p Hp Hmax Hlen.
  destruct (init_test_cases_run drv w Hlen) as (w' & Hrun & Hcases & _).
  exists w'. split; [exact Hrun|]. cbv zeta in Hcases. fold p in Hcases.
  rewrite (uint32_small p) in Hcases by lia.
  rewrite (uint32_small (p * 2)) in Hcases by lia.
  rewrite !uint32_small in Hcases by lia.
  replace (p * 2) with (2 * p) in Hcases by lia.
  rewrite Hcases. split; [reflexivity|]. split; [reflexivity|].
  destruct (near_page_boundary_cases p Hp) as (N0 & N1 & N2 & N3 & N4 & N5 & N6).
  unfold near_boundary_cases, page_straddling_cases.
  repeat (rewrite filter_cons; cbn [offset]).
  rewrite N0, N1, N2, N3, N4, N5, N6. reflexivity.
Qed.

Lemma init_test_cases_straddle_witness :
  exists w',
    init_test_cases lossy_platform initial_world = Ret tt w' /\
    test_cases w' = page_straddling_cases 4096.
Proof.
  destruct (init_test_cases_straddle lossy_platform initial_world)
    as (w' & Hrun & _ & Hcases & _).
  - simpl. lia.
  - simpl. lia.
  - reflexivity.
  - exists w'. auto.
Defined.

(** C4, as stated, fails on pages of 4096 bytes: the table is the one
    claimed, but the offsets 4 bytes from a page boundary are not three. *)
Lemma init_test_cases_three_near_boundary_fails :
  let w' := final_world (init_test_cases lossy_platform initial_world) in
  ~ (test_cases w' = page_straddling_cases 4096 /\
     length (near_boundary_cases 4096 (test_cases w')) = 3%nat).
Proof.
  intros w' [_ H]. vm_compute in H. discriminate H.
Qed.

(** *** The probes *)

(** A range of indices either passes a test everywhere or has a first
    index that fails it. *)
Lemma first_failure (ok : Z -> bool) lo : forall m : nat,
  (forall j, lo <= j < lo + Z.of_nat m -> ok j = true) \/
  (exists j, lo <= j < lo + Z.of_nat m /\ ok j = false /\
             forall j', lo <= j' < j -> ok j' = true).
Proof.
  induction m as [|m [IH|(j & Hj & Hbad & Hfirst)]].
  - left. intros j Hj. lia.
  - destruct (ok (lo + Z.of_nat m)) eqn:E.
    + left. intros j Hj.
      destruct (Z.eq_dec j (lo + Z.of_nat m)) as [->|Hne]; [exact E | apply IH; lia].
    + right. exists (lo + Z.of_nat m). repeat split; try lia; auto.
  - right. exists j. repeat split; try lia; auto.
Qed.

Lemma next_run {A} (w : world) i (loop : Z -> M world A) :
  i < INT_MAX -> next i loop w = loop (i + 1) w.
Proof. intros H. unfold next. destruct (Z.eqb_spec i INT_MAX); [lia | reflexivity]. Qed.

Section Probes.

Variables (w : world) (b base len : Z) (bf : buffer).
Hypothesis Hbuf : buffers w !! b = Some bf.

Let data := Ptr b base len.
Let val (i : Z) := load_int (bytes bf) (base + 4 * i).

Lemma read_run i : 0 <= i -> 4 * i + 4 <= len -> read data i w = Ret (val i) w.
Proof.
  intros H0 H1. unfold data, read.
  destruct (Z.leb_spec 0 (4 * i)); [|lia].
  destruct (Z.leb_spec (4 * i + 4) len); [|lia].
  simpl. now rewrite Hbuf.
Qed.

Lemma element_run i : 0 <= i -> 4 * i + 4 <= len -> element w data i = Some (val i).
Proof. intros H0 H1. unfold element. now rewrite read_run. Qed.

Variable one : test_case.
Let off4 := offset one / 4.
Let n := values_count - off4.

Lemma shifted_rem_run i :
  stride one <> 0 -> 0 <= i + off4 < 2 ^ 31 ->
  shifted_rem i one w = Ret ((i + off4) mod stride one) w.
Proof.
  intros Hstride H. unfold shifted_rem. fold off4.
  destruct (Z.eqb_spec (stride one) 0); [contradiction|].
  rewrite int32_uint32, int32_small by lia.
  rewrite uint32_small by lia. reflexivity.
Qed.

Local Abbreviation untouched_at := (FillSsbo.untouched_at base bf one).
Local Abbreviation written_at := (FillSsbo.written_at base bf one).

Ltac unfold_at H :=
  unfold FillSsbo.untouched_at, FillSsbo.written_at in H; fold off4 in H;
  change (load_int (bytes bf) (base + 4 * ?i)) with (val i) in H.

Hypothesis Hstride : stride one <> 0.
Hypothesis Hoff : 0 <= off4 <= values_count.
Hypothesis Hlen : 4 * n <= len.

Lemma untouched_loop_ok k : forall fuel i,
  0 <= i <= n -> (Z.to_nat (n - i) < fuel)%nat ->
  (forall j, i <= j < n -> untouched_at j = true) ->
  untouched_loop data one k fuel i w = k w.
Proof.
  induction fuel as [|fuel IH]; intros i Hi Hfuel Hok; [lia|].
  cbn [untouched_loop]. fold off4. fold n.
  rewrite (uint32_small i) by (unfold n, values_count in *; lia).
  rewrite (uint32_small n) by (unfold n, values_count in *; lia).
  destruct (Z.ltb_spec i n) as [Hlt|Hge]; [|reflexivity].
  unfold bind at 1. rewrite shifted_rem_run by (unfold n, values_count in *; lia).
  specialize (Hok i ltac:(lia)) as Hoki. unfold_at Hoki.
  assert (Hnext : next i (untouched_loop data one k fuel) w = k w).
  { rewrite next_run by (unfold INT_MAX, n, values_count in *; lia).
    apply IH; [lia | lia | intros j Hj; apply Hok; lia]. }
  destruct ((i + off4) mod stride one =? 0); cbn [negb]; [exact Hnext|].
  unfold bind. rewrite read_run by (unfold n in *; lia).
  cbn [orb] in Hoki. rewrite Hoki. cbn [negb]. exact Hnext.
Qed.

Lemma untouched_loop_first k j : forall fuel i,
  0 <= i <= j -> j < n -> (Z.to_nat (n - i) < fuel)%nat ->
  untouched_at j = false ->
  (forall j', i <= j' < j -> untouched_at j' = true) ->
  untouched_loop data one k fuel i w =
    Ret false (set_trace (cons (mismatch_line "probe_value_in_range" j (val j))) w).
Proof.
  induction fuel as [|fuel IH]; intros i Hi Hj Hfuel Hbad Hok; [lia|].
  cbn [untouched_loop]. fold off4. fold n.
  rewrite (uint32_small i) by (unfold n, values_count in *; lia).
  rewrite (uint32_small n) by (unfold n, values_count in *; lia).
  destruct (Z.ltb_spec i n) as [Hlt|Hge]; [|lia].
  unfold bind at 1. rewrite shifted_rem_run by (unfold n, values_count in *; lia).
  destruct (Z.eq_dec i j) as [->|Hne].
  - unfold_at Hbad. apply orb_false_iff in Hbad as [Hr Hv].
    rewrite Hr. cbn [negb]. unfold bind at 1. rewrite read_run by (unfold n in *; lia).
    rewrite Hv. reflexivity.
  - assert (Hnext : next i (untouched_loop data one k fuel) w =
        Ret false (set_trace (cons (mismatch_line "probe_value_in_range" j (val j))) w)).
    { rewrite next_run by (unfold INT_MAX, n, values_count in *; lia).
      apply IH; try lia; auto. intros j' Hj'. apply Hok. lia. }
    specialize (Hok i ltac:(lia)) as Hoki. unfold_at Hoki.
    destruct ((i + off4) mod stride one =? 0); cbn [negb]; [exact Hnext|].
    unfold bind. rewrite read_run by (unfold n in *; lia).
    cbn [orb] in Hoki. rewrite Hoki. cbn [negb]. exact Hnext.
Qed.

Lemma written_loop_ok end_bound value :
  off4 <= end_bound <= values_count ->
  let hi := end_bound - off4 in
  forall fuel i,
  0 <= i <= values_count -> (Z.to_nat (hi - i) < fuel)%nat ->
  (forall j, i <= j < hi -> written_at value j = true) ->
  written_loop data one end_bound value fuel i w = Ret true w.
Proof.
  intros Hend hi.
  induction fuel as [|fuel IH]; intros i Hi Hfuel Hok; [lia|].
  cbn [written_loop]. fold off4. fold hi.
  rewrite (uint32_small hi) by (unfold hi, values_count in *; lia).
  rewrite (uint32_small i) by (unfold hi, values_count in *; lia).
  destruct (Z.ltb_spec i hi) as [Hlt|Hge]; [|reflexivity].
  unfold bind at 1. rewrite shifted_rem_run by (unfold hi, values_count in *; lia).
  specialize (Hok i ltac:(lia)) as Hoki. unfold_at Hoki.
  assert (Hnext : next i (written_loop data one end_bound value fuel) w = Ret true w).
  { rewrite next_run by (unfold INT_MAX, hi, values_count in *; lia).
    apply IH; [unfold hi in *; lia | lia | intros j Hj; apply Hok; lia]. }
  destruct ((i + off4) mod stride one =? 0); [|exact Hnext].
  unfold bind. rewrite read_run by (unfold hi, n in *; lia).
  cbn [negb orb] in Hoki. rewrite Hoki. cbn [negb]. exact Hnext.
Qed.

Lemma written_loop_first end_bound value j :
  off4 <= end_bound <= values_count ->
  let hi := end_bound - off4 in
  forall fuel i,
  0 <= i <= j -> j < hi -> (Z.to_nat (hi - i) < fuel)%nat ->
  written_at value j = false ->
  (forall j', i <= j' < j -> written_at value j' = true) ->
  written_loop data one end_bound value fuel i w =
    Ret false (set_trace (cons (mismatch_line "probe_value_in_range" j (val j))) w).
Proof.
  intros Hend hi.
  induction fuel as [|fuel IH]; intros i Hi Hj Hfuel Hbad Hok; [lia|].
  cbn [written_loop]. fold off4. fold hi.
  rewrite (uint32_small hi) by (unfold hi, values_count in *; lia).
  rewrite (uint32_small i) by (unfold hi, values_count in *; lia).
  destruct (Z.ltb_spec i hi) as [Hlt|Hge]; [|lia].
  unfold bind at 1. rewrite shifted_rem_run by (unfold hi, values_count in *; lia).
  destruct (Z.eq_dec i j) as [->|Hne].
  - unfold_at Hbad. apply orb_false_iff in Hbad as [Hr Hv].
    apply negb_false_iff in Hr. rewrite Hr.
    unfold bind at 1. rewrite read_run by (unfold hi, n in *; lia).
    rewrite Hv. reflexivity.
  - assert (Hnext : next i (written_loop data one end_bound value fuel) w =
        Ret false (set_trace (cons (mismatch_line "probe_value_in_range" j (val j))) w)).
    { rewrite next_run by (unfold INT_MAX, hi, values_count in *; lia).
      apply IH; try lia; auto. intros j' Hj'. apply Hok. lia. }
    specialize (Hok i ltac:(lia)) as Hoki. unfold_at Hoki.
    destruct ((i + off4) mod stride one =? 0); [|exact Hnext].
    unfold bind. rewrite read_run by (unfold hi, n in *; lia).
    cbn [negb orb] in Hoki. rewrite Hoki. cbn [negb]. exact Hnext.
Qed.

(** Below the offset the second loop of [probe_value_in_range] is empty: the
    start index, a difference of [unsigned]s, wraps around. *)
Lemma written_loop_wrapped start_bound end_bound value :
  off4 <= end_bound <= values_count ->
  0 <= start_bound < off4 ->
  let i0 := int32 (uint32 (start_bound - off4)) in
  written_loop data one end_bound value
    (loop_fuel (uint32 i0) (uint32 (end_bound - off4))) i0 w = Ret true w.
Proof.
  intros Hend Hs i0. set (hi := end_bound - off4).
  assert (Hi0 : uint32 i0 = start_bound - off4 + 2 ^ 32).
  { unfold i0. rewrite int32_uint32.
    rewrite int32_small by (unfold values_count in *; lia).
    apply uint32_neg. unfold values_count in *; lia. }
  rewrite (uint32_small hi) by (unfold hi, values_count in *; lia).
  unfold loop_fuel. cbn [written_loop]. fold off4. fold hi.
  rewrite (uint32_small hi) by (unfold hi, values_count in *; lia).
  rewrite Hi0.
  destruct (Z.ltb_spec (start_bound - off4 + 2 ^ 32) hi); [|reflexivity].
  unfold hi, values_count in *. lia.
Qed.


(** The tests, as properties of the elements. *)
Lemma untouched_at_true j :
  0 <= j < n ->
  untouched_at j = true <->
  ((j + off4) mod stride one <> 0 -> element w data j = Some fill_value_b).
Proof.
  intros Hj. rewrite element_run by (unfold n in *; lia).
  unfold FillSsbo.untouched_at; fold off4; change (load_int (bytes bf) (base + 4 * j)) with (val j). rewrite orb_true_iff, !Z.eqb_eq. split.
  - intros [H|H] Hr; [contradiction | now rewrite H].
  - intros H. destruct (Z.eq_dec ((j + off4) mod stride one) 0); [now left|].
    right. specialize (H ltac:(assumption)). congruence.
Qed.

Lemma written_at_true value j :
  0 <= j < n ->
  written_at value j = true <->
  ((j + off4) mod stride one = 0 -> element w data j = Some value).
Proof.
  intros Hj. rewrite element_run by (unfold n in *; lia).
  unfold FillSsbo.written_at; fold off4; change (load_int (bytes bf) (base + 4 * j)) with (val j). rewrite orb_true_iff, negb_true_iff, Z.eqb_neq, Z.eqb_eq. split.
  - intros [H|H] Hr; [contradiction | now rewrite H].
  - intros H. destruct (Z.eq_dec ((j + off4) mod stride one) 0) as [E|E]; [|now left].
    right. specialize (H E). congruence.
Qed.

Lemma untouched_ok_iff :
  untouched_ok w data one <-> forall j, 0 <= j < n -> untouched_at j = true.
Proof.
  unfold untouched_ok. fold off4. fold n. split; intros H j Hj.
  - apply untouched_at_true; auto.
  - apply untouched_at_true; auto.
Qed.

Lemma written_ok_iff start_bound end_bound value :
  off4 <= start_bound -> off4 <= end_bound <= values_count ->
  written_ok w data one start_bound end_bound value <->
  forall j, start_bound - off4 <= j < end_bound - off4 -> written_at value j = true.
Proof.
  intros Hs Hend. unfold written_ok. fold off4. split; intros H j Hj.
  - apply written_at_true; [unfold n in *; lia | auto].
  - apply written_at_true; [unfold n in *; lia | auto].
Qed.

(** The three ways [probe_value_in_range] ends when its bounds, as indices
    of the buffer, are not below the offset. *)
Lemma probe_value_in_range_cases start_bound end_bound value :
  off4 <= start_bound <= values_count ->
  off4 <= end_bound <= values_count ->
  let lo := start_bound - off4 in
  let hi := end_bound - off4 in
  let o := probe_value_in_range data one start_bound end_bound value w in
  ((forall j, 0 <= j < n -> untouched_at j = true) /\
   (forall j, lo <= j < hi -> written_at value j = true) /\
   o = Ret true w) \/
  (exists j, 0 <= j < n /\ untouched_at j = false /\
     (forall j', 0 <= j' < j -> untouched_at j' = true) /\
     o = Ret false (set_trace (cons (mismatch_line "probe_value_in_range" j (val j))) w)) \/
  (exists j, (forall j, 0 <= j < n -> untouched_at j = true) /\
     lo <= j < hi /\ written_at value j = false /\
     (forall j', lo <= j' < j -> written_at value j' = true) /\
     o = Ret false (set_trace (cons (mismatch_line "probe_value_in_range" j (val j))) w)).
Proof.
  intros Hs Hend lo hi o. unfold o, probe_value_in_range. fold off4. fold n. fold hi.
  assert (Hi0 : int32 (uint32 (start_bound - off4)) = lo).
  { rewrite int32_uint32. apply int32_small. unfold lo, values_count in *. lia. }
  rewrite Hi0.
  rewrite (uint32_small lo) by (unfold lo, values_count in *; lia).
  rewrite (uint32_small hi) by (unfold hi, values_count in *; lia).
  rewrite (uint32_small n) by (unfold n, values_count in *; lia).
  unfold loop_fuel. rewrite Z.sub_0_r.
  destruct (first_failure untouched_at 0 (Z.to_nat n)) as [H1|(j & Hj & Hbad & Hfirst)].
  - assert (H1' : forall j, 0 <= j < n -> untouched_at j = true)
      by (intros j Hj; apply H1; lia).
    rewrite untouched_loop_ok by (auto; lia).
    destruct (first_failure (written_at value) lo (Z.to_nat (hi - lo)))
      as [H2|(j & Hj & Hbad & Hfirst)].
    + left. assert (H2' : forall j, lo <= j < hi -> written_at value j = true)
        by (intros j Hj; apply H2; lia).
      repeat split; auto.
      apply written_loop_ok; auto; unfold lo in *; lia.
    + right. right. exists j. repeat split; auto; try lia.
      apply written_loop_first; auto; unfold lo in *; lia.
  - right. left. exists j. repeat split; auto; try lia.
    apply untouched_loop_first; auto; lia.
Qed.

End Probes.

(** C6, as amended.  When the bounds, taken as indices of the buffer, are
    not below the offset of the mapping ([one.offset / 4 <= start_bound],
    [end_bound]), [probe_value_in_range] returns [true] exactly when every
    element of the mapped range whose buffer index is not a multiple of the
    stride holds [fill_value_b] and every element from [start_bound] to
    [end_bound] whose buffer index is a multiple of the stride holds [value];
    otherwise it returns [false], having printed the index and the value of
    the first element the first loop rejects or, if it rejects none, of the
    first element the second loop rejects. *)
Theorem probe_value_in_range_spec (w : world) (b base len : Z) (bf : buffer)
  (one : test_case) (start_bound end_bound value : Z) :
  let off4 := offset one / 4 in
  let data := Ptr b base len in
  let o := probe_value_in_range data one start_bound end_bound value w in
  buffers w !! b = Some bf ->
  stride one <> 0 ->
  0 <= off4 ->
  4 * (values_count - off4) <= len ->
  off4 <= start_bound <= values_count ->
  off4 <= end_bound <= values_count ->
  ((exists w', o = Ret true w') <->
   untouched_ok w data one /\ written_ok w data one start_bound end_bound value) /\
  (o = Ret true w \/
   exists i v,
     o = Ret false (set_trace (cons (mismatch_line "probe_value_in_range" i v)) w) /\
     element w data i = Some v /\
     ((0 <= i < values_count - off4 /\
       (i + off4) mod stride one <> 0 /\ v <> fill_value_b /\
       forall j, 0 <= j < i -> (j + off4) mod stride one <> 0 ->
                 element w data j = Some fill_value_b) \/
      (untouched_ok w data one /\
       start_bound - off4 <= i < end_bound - off4 /\
       (i + off4) mod stride one = 0 /\ v <> value /\
       forall j, start_bound - off4 <= j < i -> (j + off4) mod stride one = 0 ->
                 element w data j = Some value))).
Proof.
  intros off4 data o Hbuf Hstride Hoff Hlen Hs He.
  assert (Hoff' : 0 <= offset one / 4 <= values_count) by (fold off4; lia).
  pose proof (probe_value_in_range_cases w b base len bf Hbuf one Hstride Hoff' Hlen
                start_bound end_bound value Hs He) as Hcases.
  cbv zeta in Hcases. fold off4 in Hcases. fold data in Hcases. fold o in Hcases.
  pose proof (untouched_ok_iff w b base len bf Hbuf one Hlen) as Hu.
  pose proof (written_ok_iff w b base len bf Hbuf one Hlen
                start_bound end_bound value (proj1 Hs) He) as Hw.
  fold data in Hu, Hw. fold off4 in Hu, Hw.
  destruct Hcases as [(H1 & H2 & Ho)|[(j & Hj & Hbad & Hfirst & Ho)|(j & H1 & Hj & Hbad & Hfirst & Ho)]].
  - split; [|now left]. split; [|eauto].
    intros _. split; [apply (proj2 Hu H1) | apply (proj2 Hw H2)].
  - split.
    + split.
      * intros [w' Hw']. rewrite Ho in Hw'. discriminate.
      * intros [H _]. rewrite (proj1 Hu H j Hj) in Hbad. discriminate.
    + right. exists j, (load_int (bytes bf) (base + 4 * j)).
      split; [exact Ho|]. 
      split; [apply (element_run w b base len bf Hbuf); lia|].
      left. unfold untouched_at in Hbad. apply orb_false_iff in Hbad as [Hr Hv].
      apply Z.eqb_neq in Hr, Hv. repeat split; auto; try lia.
      intros j' Hj'. apply (untouched_at_true w b base len bf Hbuf one Hlen); [lia|].
      apply Hfirst. lia.
  - split.
    + split.
      * intros [w' Hw']. rewrite Ho in Hw'. discriminate.
      * intros [_ H]. rewrite (proj1 Hw H j Hj) in Hbad. discriminate.
    + right. exists j, (load_int (bytes bf) (base + 4 * j)).
      split; [exact Ho|].
      split; [apply (element_run w b base len bf Hbuf); lia|].
      right. unfold written_at in Hbad. apply orb_false_iff in Hbad as [Hr Hv].
      apply negb_false_iff, Z.eqb_eq in Hr. apply Z.eqb_neq in Hv.
      split; [apply (proj2 Hu H1)|]. repeat split; auto; try lia.
      intros j' Hj'. apply (written_at_true w b base len bf Hbuf one Hlen value); [lia|].
      apply Hfirst. lia.
Qed.

Lemma probe_value_in_range_spec_witness :
  let one := {| stride := 4096; offset := 4096 |} in
  let data := Ptr 1 4096 175904 in
  (exists w', probe_value_in_range data one 15000 30000 modifed_value b_filled_world
              = Ret true w') <->
  untouched_ok b_filled_world data one /\
  written_ok b_filled_world data one 15000 30000 modifed_value.
Proof.
  intros one data.
  apply (probe_value_in_range_spec b_filled_world 1 4096 175904
           {| size := values_count * 4; bytes := fun _ => uint8 fill_value_b |}
           one 15000 30000 modifed_value);
    try reflexivity; try (vm_compute; intuition discriminate).
Defined.

(** C6, as stated, fails when [start_bound] is below the offset: the start
    index of the second loop, a difference of [unsigned]s, wraps around and
    the loop checks nothing.  With offset 4096 (index 1024) and bounds 0 and
    15000 on a mapping full of [fill_value_b], the probe returns [true]
    although element 3072, at buffer index 4096, is not [value]. *)
Lemma probe_value_in_range_below_offset_fails :
  let one := {| stride := 4096; offset := 4096 |} in
  let data := Ptr 1 4096 175904 in
  ~ ((exists w', probe_value_in_range data one 0 15000 modifed_value b_filled_world
                 = Ret true w') <->
     untouched_ok b_filled_world data one /\
     written_ok b_filled_world data one 0 15000 modifed_value).
Proof.
  intros one data [Hclaim _].
  assert (Hrun : exists w', probe_value_in_range data one 0 15000 modifed_value b_filled_world
                            = Ret true w').
  { assert (H : match probe_value_in_range data one 0 15000 modifed_value b_filled_world with
                | Ret true _ => true
                | _ => false
                end = true) by (vm_compute; reflexivity).
    destruct (probe_value_in_range data one 0 15000 modifed_value b_filled_world)
      as [[] w'| | | |]; try discriminate H. now exists w'. }
  destruct (Hclaim Hrun) as [_ Hwritten].
  specialize (Hwritten 3072).
  assert (H : element b_filled_world data 3072 = Some modifed_value).
  { apply Hwritten; [vm_compute; intuition discriminate | reflexivity]. }
  vm_compute in H. discriminate H.
Qed.

(** *** The probes return *)

(** Linear arithmetic on the bounds of the loops. *)
Ltac bounds :=
  repeat match goal with H : context [printed] |- _ => clear H end;
  repeat match goal with x := ?body : Z |- _ =>
    lazymatch body with
    | context [Z.div] => fail
    | _ => unfold x in *; clear x
    end end;
  unfold loop_fuel, values_count, INT_MAX in *; lia.

Lemma printed_refl w : printed w w.
Proof. now left. Qed.

Lemma printed_line fn i v w : printed w (set_trace (cons (mismatch_line fn i v)) w).
Proof. right. now exists fn, i, v. Qed.

Section Returns.

Variables (w : world) (b base len : Z) (bf : buffer).
Hypothesis Hbuf : buffers w !! b = Some bf.
Variable one : test_case.

Let data := Ptr b base len.
Let off4 := offset one / 4.
Let n := values_count - off4.

Hypothesis Hstride : stride one <> 0.
Hypothesis Hoff : 0 <= off4 <= values_count.
Hypothesis Hlen : 4 * n <= len.

Lemma probe_inital_state_loop_returns : forall fuel i,
  0 <= i <= n -> (Z.to_nat (n - i) < fuel)%nat ->
  exists r w', probe_inital_state_loop data one fuel i w = Ret r w' /\ printed w w'.
Proof.
  induction fuel as [|fuel IH]; intros i Hi Hfuel; [lia|].
  cbn [probe_inital_state_loop]. fold off4. fold n.
  rewrite (uint32_small i) by bounds.
  rewrite (uint32_small n) by bounds.
  destruct (Z.ltb_spec i n) as [Hlt|Hge].
  - unfold bind at 1. rewrite (read_run w b base len bf Hbuf) by bounds.
    destruct (_ =? fill_value_b); cbn [negb].
    + rewrite next_run by bounds.
      apply IH; bounds.
    + eexists _, _. split; [reflexivity | apply printed_line].
  - eexists _, _. split; [reflexivity | apply printed_refl].
Qed.

Lemma probe_inital_state_returns :
  exists r w', probe_inital_state data one w = Ret r w' /\ printed w w'.
Proof.
  unfold probe_inital_state. fold off4. fold n.
  rewrite (uint32_small n) by bounds.
  apply probe_inital_state_loop_returns; bounds.
Qed.

Lemma untouched_loop_returns k :
  (exists r w', k w = Ret r w' /\ printed w w') ->
  forall fuel i,
  0 <= i <= n -> (Z.to_nat (n - i) < fuel)%nat ->
  exists r w', untouched_loop data one k fuel i w = Ret r w' /\ printed w w'.
Proof.
  intros Hk.
  induction fuel as [|fuel IH]; intros i Hi Hfuel; [lia|].
  cbn [untouched_loop]. fold off4. fold n.
  rewrite (uint32_small i) by bounds.
  rewrite (uint32_small n) by bounds.
  destruct (Z.ltb_spec i n) as [Hlt|Hge]; [|exact Hk].
  unfold bind at 1.
  rewrite (shifted_rem_run w one i Hstride) by (fold off4; bounds).
  assert (Hnext : exists r w',
             next i (untouched_loop data one k fuel) w = Ret r w' /\ printed w w').
  { rewrite next_run by bounds. apply IH; bounds. }
  destruct (_ =? 0); cbn [negb]; [exact Hnext|].
  unfold bind at 1. rewrite (read_run w b base len bf Hbuf) by bounds.
  destruct (_ =? fill_value_b); cbn [negb]; [exact Hnext|].
  eexists _, _. split; [reflexivity | apply printed_line].
Qed.

Lemma written_loop_returns end_bound value :
  off4 <= end_bound <= values_count ->
  forall fuel i,
  0 <= i <= values_count -> (Z.to_nat (end_bound - off4 - i) < fuel)%nat ->
  exists r w', written_loop data one end_bound value fuel i w = Ret r w' /\ printed w w'.
Proof.
  intros Hend. set (hi := end_bound - off4).
  induction fuel as [|fuel IH]; intros i Hi Hfuel; [lia|].
  cbn [written_loop]. fold off4. fold hi.
  rewrite (uint32_small i) by bounds.
  rewrite (uint32_small hi) by bounds.
  destruct (Z.ltb_spec i hi) as [Hlt|Hge].
  - unfold bind at 1.
    rewrite (shifted_rem_run w one i Hstride) by (fold off4; bounds).
    assert (Hnext : exists r w',
               next i (written_loop data one end_bound value fuel) w = Ret r w' /\ printed w w').
    { rewrite next_run by bounds.
      apply IH; bounds. }
    destruct (_ =? 0); [|exact Hnext].
    unfold bind at 1. rewrite (read_run w b base len bf Hbuf) by bounds.
    destruct (_ =? value); cbn [negb]; [exact Hnext|].
    eexists _, _. split; [reflexivity | apply printed_line].
  - eexists _, _. split; [reflexivity | apply printed_refl].
Qed.

Lemma probe_value_in_range_returns start_bound end_bound value :
  0 <= start_bound <= values_count ->
  off4 <= end_bound <= values_count ->
  exists r w',
    probe_value_in_range data one start_bound end_bound value w = Ret r w' /\ printed w w'.
Proof.
  intros Hs He. unfold probe_value_in_range. fold off4. fold n.
  rewrite (uint32_small n) by bounds.
  apply untouched_loop_returns; [|bounds|bounds].
  destruct (Z_lt_le_dec start_bound off4) as [Hlt|Hge].
  - exists true, w. split; [|apply printed_refl].
    apply (written_loop_wrapped w b base len one Hoff start_bound end_bound value He).
    bounds.
  - assert (Hi0 : int32 (uint32 (start_bound - off4)) = start_bound - off4).
    { rewrite int32_uint32. apply int32_small. bounds. }
    rewrite Hi0.
    rewrite (uint32_small (start_bound - off4)) by bounds.
    rewrite (uint32_small (end_bound - off4)) by bounds.
    apply written_loop_returns; bounds.
Qed.

End Returns.

(** *** The probe of the unmapped part *)

Lemma load_int_fill_value_a (mem : memory) a :
  mem a = uint8 fill_value_a -> mem (a + 1) = uint8 fill_value_a ->
  mem (a + 2) = uint8 fill_value_a -> mem (a + 3) = uint8 fill_value_a ->
  load_int mem a = fill_value_a.
Proof. intros H0 H1 H2 H3. unfold load_int. rewrite H0, H1, H2, H3. reflexivity. Qed.

Section Offseted.

Variables (w : world) (b : Z) (bf : buffer) (one : test_case).
Hypothesis Hbuf : buffers w !! b = Some bf.
Hypothesis Hoff : 0 <= offset one <= values_count * 4.

Let off4 := offset one / 4.
Let data := Ptr b 0 (offset one).

Lemma off4_bounds : 0 <= off4 /\ 4 * off4 <= offset one.
Proof.
  unfold off4. split.
  - apply Z.div_pos; lia.
  - apply Z.mul_div_le. lia.
Qed.

Lemma probe_offseted_loop_returns : forall fuel i,
  0 <= i <= off4 -> (Z.to_nat (off4 - i) < fuel)%nat ->
  exists r w', probe_offseted_loop data one fuel i w = Ret r w' /\ printed w w'.
Proof.
  pose proof off4_bounds as [Hb0 Hb1].
  induction fuel as [|fuel IH]; intros i Hi Hfuel; [lia|].
  cbn [probe_offseted_loop]. fold off4.
  rewrite (uint32_small i) by bounds.
  destruct (Z.ltb_spec i off4) as [Hlt|Hge].
  - unfold bind at 1. rewrite (read_run w b 0 (offset one) bf Hbuf) by bounds.
    destruct (_ =? fill_value_a); cbn [negb].
    + rewrite next_run by bounds. apply IH; bounds.
    + eexists _, _. split; [reflexivity | apply printed_line].
  - eexists _, _. split; [reflexivity | apply printed_refl].
Qed.

Lemma probe_offseted_loop_ok :
  prefix_untouched one bf ->
  forall fuel i,
  0 <= i <= off4 -> (Z.to_nat (off4 - i) < fuel)%nat ->
  probe_offseted_loop data one fuel i w = Ret true w.
Proof.
  intros Hpre. pose proof off4_bounds as [Hb0 Hb1].
  induction fuel as [|fuel IH]; intros i Hi Hfuel; [lia|].
  cbn [probe_offseted_loop]. fold off4.
  rewrite (uint32_small i) by bounds.
  destruct (Z.ltb_spec i off4) as [Hlt|Hge]; [|reflexivity].
  unfold bind at 1. rewrite (read_run w b 0 (offset one) bf Hbuf) by bounds.
  rewrite load_int_fill_value_a by (rewrite ?Z.add_0_l; apply Hpre; bounds).
  rewrite Z.eqb_refl. cbn [negb].
  rewrite next_run by bounds. apply IH; bounds.
Qed.

End Offseted.

Lemma probe_offseted_part_of_ssbo_run ssbo one w bf :
  buffers w !! ssbo = Some bf ->
  0 < offset one <= size bf ->
  probe_offseted_part_of_ssbo ssbo one w =
    probe_offseted_loop (Ptr ssbo 0 (offset one)) one (loop_fuel 0 (offset one / 4)) 0
      (remapped ssbo one w).
Proof.
  intros Hbuf Hoff. unfold probe_offseted_part_of_ssbo.
  destruct (Z.eqb_spec (offset one) 0); [lia|].
  unfold glMapBufferRange. exec. destruct w; simpl in *. rewrite Hbuf.
  destruct (Z.ltb_spec 0 (offset one)); [|lia].
  destruct (Z.leb_spec (0 + offset one) (size bf)); [|lia].
  reflexivity.
Qed.

(** The probe of the unmapped part returns; it maps the first [offset]
    bytes again unless the offset is 0. *)
Lemma probe_offseted_part_of_ssbo_returns ssbo one w bf :
  buffers w !! ssbo = Some bf ->
  0 <= offset one <= values_count * 4 -> size bf = values_count * 4 ->
  exists r w',
    probe_offseted_part_of_ssbo ssbo one w = Ret r w' /\
    (printed w w' \/ printed (remapped ssbo one w) w').
Proof.
  intros Hbuf Hoff Hsize.
  destruct (Z.eq_dec (offset one) 0) as [E|E].
  - unfold probe_offseted_part_of_ssbo. rewrite E. simpl.
    eexists _, _. split; [reflexivity | left; apply printed_refl].
  - rewrite (probe_offseted_part_of_ssbo_run ssbo one w bf Hbuf) by lia.
    destruct (probe_offseted_loop_returns (remapped ssbo one w) ssbo bf one)
      with (fuel := loop_fuel 0 (offset one / 4)) (i := 0) as (r & w' & Hrun & Hp);
      auto; try (pose proof (off4_bounds one Hoff); unfold loop_fuel; lia).
    exists r, w'. auto.
Qed.

(** When the first [offset] bytes still hold the byte of [fill_value_a],
    the probe of the unmapped part returns [true]. *)
Lemma probe_offseted_part_of_ssbo_ok ssbo one w bf :
  buffers w !! ssbo = Some bf ->
  0 <= offset one <= values_count * 4 -> size bf = values_count * 4 ->
  prefix_untouched one bf ->
  exists w',
    probe_offseted_part_of_ssbo ssbo one w = Ret true w' /\
    (w' = w \/ w' = remapped ssbo one w).
Proof.
  intros Hbuf Hoff Hsize Hpre.
  destruct (Z.eq_dec (offset one) 0) as [E|E].
  - unfold probe_offseted_part_of_ssbo. rewrite E. simpl.
    eexists. split; [reflexivity | now left].
  - rewrite (probe_offseted_part_of_ssbo_run ssbo one w bf Hbuf) by lia.
    exists (remapped ssbo one w). split; [|now right].
    apply (probe_offseted_loop_ok (remapped ssbo one w) ssbo bf one); auto;
      try (pose proof (off4_bounds one Hoff); unfold loop_fuel; lia).
Qed.

(** *** Allocation, fill and dispatch *)

Lemma init_ssbo_run EXIT_SKIP drv w :
  glGetError drv (errors_read w) = GL_NO_ERROR ->
  let id := generated w + 1 in
  exists w',
    init_ssbo EXIT_SKIP drv w = Ret id w' /\
    buffers w' =
      <[id := {| size := values_count * 4;
                 bytes := write_bytes (fresh_storage drv) 0 (values_count * 4)
                            (uint8 fill_value_a) |}]> (buffers w) /\
    trace w' = init_ssbo_events id ++ trace w /\
    generated w' = id /\ errors_read w' = S (errors_read w) /\
    test_cases w' = test_cases w.
Proof.
  intros Herr id. destruct w as [tr bufs gen bnd cur errs pr cases].
  simpl in Herr, id. unfold init_ssbo, check_error, glMapBufferRange, memset. exec.
  rewrite lookup_insert_eq. cbn [size].
  change ((0 <=? 0) && (0 <? values_count * 4) && (0 + values_count * 4 <=? values_count * 4))
    with true. exec.
  change (values_count * 4 <=? values_count * 4) with true. exec.
  rewrite Herr. change (GL_NO_ERROR =? GL_NO_ERROR) with true. exec.
  eexists. split; [reflexivity|].
  rewrite alter_insert_eq. repeat split.
Qed.

Lemma map_ssbo_run ssbo off w bf :
  buffers w !! ssbo = Some bf -> size bf = values_count * 4 ->
  0 <= off < values_count * 4 ->
  let len := values_count * 4 - off in
  exists w',
    map_ssbo ssbo off w = Ret (Ptr ssbo off len) w' /\
    buffers w' =
      <[ssbo := set_bytes (fun m => write_bytes m off len (uint8 fill_value_b)) bf]>
        (buffers w) /\
    trace w' = map_ssbo_events ssbo off ++ trace w /\
    generated w' = generated w /\ errors_read w' = errors_read w /\
    test_cases w' = test_cases w.
Proof.
  intros Hbuf Hsize Hoff len. destruct w as [tr bufs gen bnd cur errs pr cases].
  simpl in Hbuf. unfold map_ssbo, glMapBufferRange, memset. exec.
  rewrite (uint32_small (values_count * 4 - off)) by (unfold values_count in *; lia).
  fold len. rewrite Hbuf, Hsize.
  destruct (Z.leb_spec 0 off); [|lia].
  destruct (Z.ltb_spec 0 len); [|unfold len in *; lia].
  destruct (Z.leb_spec (off + len) (values_count * 4)); [|unfold len in *; lia].
  cbn [andb]. exec. rewrite Z.leb_refl. exec.
  eexists. split; [reflexivity|].
  repeat split.
  apply map_eq. intros i. rewrite lookup_alter, lookup_insert.
  destruct (decide (ssbo = i)) as [->|]; [now rewrite Hbuf | reflexivity].
Qed.

Lemma compute_exec_run drv ssbo one start_bound end_bound value w :
  exists w',
    compute_exec drv ssbo one start_bound end_bound value w = Ret tt w' /\
    buffers w' =
      alter (set_bytes (device drv (dispatch_uniforms one start_bound end_bound value)))
        ssbo (buffers w) /\
    current w' = dispatch_uniforms one start_bound end_bound value /\
    trace w' = compute_exec_events ssbo one start_bound end_bound value ++ trace w /\
    generated w' = generated w /\ errors_read w' = errors_read w /\
    test_cases w' = test_cases w.
Proof.
  destruct w as [tr bufs gen bnd cur errs pr cases].
  unfold compute_exec. exec.
  eexists. split; [reflexivity|]. repeat split.
Qed.

(** *** The stages of a test *)

Lemma runnable_bounds one :
  runnable one ->
  0 <= offset one / 4 <= 15000 /\ offset one = 4 * (offset one / 4).
Proof.
  intros (_ & H0 & H4 & H3). change (values_count / 3) with 15000 in H3.
  pose proof (Z.div_mod (offset one) 4 ltac:(lia)) as Hdm. rewrite H4 in Hdm.
  split; [|lia]. split; [apply Z.div_pos; lia | exact H3].
Qed.

Section Stages.

Variables (drv : driver) (Pb : buffer -> Prop) (one : test_case).
Variables (ids : list Z) (t0 : list event) (cases : list test_case) (errs : nat) (gen : Z).
Hypothesis Hrun : runnable one.
Hypothesis Hdev :
  forall u bf, offset one <= u_start_bound u -> Pb bf -> Pb (set_bytes (device drv u) bf).

Let Inv := stage_inv Pb one ids t0 cases errs gen.
Let len := values_count * 4 - offset one.

(** A step that leaves the three buffers as they are, up to [Pb], and adds
    stage events keeps the invariant. *)
Lemma stage_inv_step w w' evs :
  Inv w ->
  (forall id bf, In id ids -> buffers w !! id = Some bf ->
     exists bf', buffers w' !! id = Some bf' /\ size bf' = size bf /\ (Pb bf -> Pb bf')) ->
  trace w' = evs ++ trace w -> forallb (stage_event one) evs = true ->
  test_cases w' = test_cases w -> errors_read w' = errors_read w ->
  generated w' = generated w ->
  Inv w'.
Proof.
  intros (Hbufs & (new & Htr & Hnew) & Hc & He & Hg) Hstep Htr' Hevs Hc' He' Hg'.
  repeat split; try congruence.
  - intros id Hid. destruct (Hbufs id Hid) as (bf & Hbf & Hsz & Hp).
    destruct (Hstep id bf Hid Hbf) as (bf' & Hbf' & Hsz' & Hp').
    exists bf'. repeat split; auto. congruence.
  - exists (evs ++ new). split.
    + rewrite Htr', Htr. now rewrite app_assoc.
    + rewrite forallb_app. now rewrite Hevs, Hnew.
Qed.

Lemma stage_inv_same_buffers w w' evs :
  Inv w -> buffers w' = buffers w ->
  trace w' = evs ++ trace w -> forallb (stage_event one) evs = true ->
  test_cases w' = test_cases w -> errors_read w' = errors_read w ->
  generated w' = generated w ->
  Inv w'.
Proof.
  intros HI Hb. apply stage_inv_step; auto.
  intros id bf _ Hbf. exists bf. rewrite Hb. auto.
Qed.

Lemma stage_inv_printed w w' : Inv w -> printed w w' -> Inv w'.
Proof.
  intros HI [->|(fn & i & v & ->)]; [exact HI|].
  destruct w. eapply stage_inv_same_buffers with (evs := [mismatch_line fn i v]);
    eauto; reflexivity.
Qed.

Lemma stage_inv_remapped id w : Inv w -> Inv (remapped id one w).
Proof.
  intros HI. destruct w.
  eapply stage_inv_same_buffers with (evs := [_; _; _]); eauto; reflexivity.
Qed.

Lemma hoare_call fn args :
  stage_event one (Call fn args) = true ->
  hoare Inv (call fn args) (fun _ => Inv).
Proof.
  intros Hev w HI. exists tt, (set_trace (cons (Call fn args)) w).
  split; [reflexivity|]. destruct w.
  eapply stage_inv_same_buffers with (evs := [_]); eauto; try reflexivity.
  simpl. now rewrite Hev.
Qed.

Lemma hoare_fence : hoare Inv fence (fun _ => Inv).
Proof.
  intros w HI. eexists tt, _. split; [reflexivity|]. destruct w.
  eapply stage_inv_same_buffers with (evs := [_; _]); eauto; reflexivity.
Qed.

Lemma hoare_compute_exec id start_bound end_bound value :
  hoare Inv (compute_exec drv id one start_bound end_bound value) (fun _ => Inv).
Proof.
  intros w HI.
  destruct (compute_exec_run drv id one start_bound end_bound value w)
    as (w' & Hrun' & Hbufs & _ & Htr & Hg & He & Hc).
  exists tt, w'. split; [exact Hrun'|].
  eapply stage_inv_step; eauto.
  - intros id' bf Hid Hbf. rewrite Hbufs, lookup_alter.
    destruct (decide (id = id')) as [->|Hne].
    + rewrite Hbf. eexists. split; [reflexivity|]. split; [reflexivity|].
      apply Hdev. simpl. lia.
    + exists bf. auto.
  - unfold compute_exec_events. cbn [forallb]. unfold stage_event at 6.
    cbn [cpu_write_of start_bound_of String.eqb Ascii.eqb Bool.eqb andb].
    destruct (Z.leb_spec (offset one) (Z.max (offset one) start_bound)); [reflexivity | lia].
Qed.

Lemma hoare_and_probe pass (probe : M world bool) :
  hoare Inv probe (fun _ => Inv) -> hoare Inv (and_probe pass probe) (fun _ => Inv).
Proof.
  intros H. unfold and_probe. eapply hoare_bind; [exact H|].
  intros r. now apply hoare_ret.
Qed.

Lemma hoare_probe_inital_state id :
  In id ids -> hoare Inv (probe_inital_state (Ptr id (offset one) len) one) (fun _ => Inv).
Proof.
  intros Hid w HI. destruct (runnable_bounds one Hrun) as [Hb Hmul].
  destruct HI as (Hbufs & Hrest). destruct (Hbufs id Hid) as (bf & Hbf & Hsz & Hp).
  destruct (probe_inital_state_returns w id (offset one) len bf Hbf one)
    as (r & w' & Hrun' & Hpr).
  - unfold values_count. lia.
  - unfold len, values_count. lia.
  - exists r, w'. split; [exact Hrun'|].
    apply stage_inv_printed with (w := w); [split; assumption | exact Hpr].
Qed.

Lemma hoare_probe_value_in_range id start_bound end_bound value :
  In id ids ->
  0 <= start_bound <= values_count -> 15000 <= end_bound <= values_count ->
  hoare Inv
    (probe_value_in_range (Ptr id (offset one) len) one start_bound end_bound value)
    (fun _ => Inv).
Proof.
  intros Hid Hs He w HI. destruct (runnable_bounds one Hrun) as [Hb Hmul].
  destruct HI as (Hbufs & Hrest). destruct (Hbufs id Hid) as (bf & Hbf & Hsz & Hp).
  destruct (probe_value_in_range_returns w id (offset one) len bf Hbf one)
    with (start_bound := start_bound) (end_bound := end_bound) (value := value)
    as (r & w' & Hrun' & Hpr).
  - apply Hrun.
  - unfold values_count. lia.
  - unfold len, values_count. lia.
  - exact Hs.
  - lia.
  - exists r, w'. split; [exact Hrun'|].
    apply stage_inv_printed with (w := w); [split; assumption | exact Hpr].
Qed.

Lemma hoare_probe_offseted id :
  In id ids -> hoare Inv (probe_offseted_part_of_ssbo id one) (fun _ => Inv).
Proof.
  intros Hid w HI. destruct (runnable_bounds one Hrun) as [Hb Hmul].
  pose proof HI as (Hbufs & Hrest). destruct (Hbufs id Hid) as (bf & Hbf & Hsz & Hp).
  destruct (probe_offseted_part_of_ssbo_returns id one w bf Hbf)
    as (r & w' & Hrun' & [Hpr|Hpr]); auto.
  - unfold values_count. lia.
  - exists r, w'. split; [exact Hrun'|]. now apply stage_inv_printed with (w := w).
  - exists r, w'. split; [exact Hrun'|].
    apply stage_inv_printed with (w := remapped id one w); [|exact Hpr].
    now apply stage_inv_remapped.
Qed.

End Stages.

(** *** A whole test *)

Lemma filled_prefix_untouched drv one :
  0 <= offset one <= values_count * 4 ->
  prefix_untouched one
    (set_bytes
       (fun m => write_bytes m (offset one) (values_count * 4 - offset one)
                   (uint8 fill_value_b))
       {| size := values_count * 4;
          bytes := write_bytes (fresh_storage drv) 0 (values_count * 4)
                     (uint8 fill_value_a) |}).
Proof.
  intros Hoff a Ha. cbn [set_bytes bytes]. unfold write_bytes.
  destruct (Z.leb_spec (offset one) a); [lia|]. cbn [andb].
  destruct (Z.leb_spec 0 a); [|lia].
  destruct (Z.ltb_spec a (0 + values_count * 4)); [reflexivity | lia].
Qed.

Section Test.

Variables (EXIT_SKIP : Z) (drv : driver) (Pb : buffer -> Prop) (one : test_case).
Hypothesis Hrun : runnable one.
Hypothesis Hdev :
  forall u bf, offset one <= u_start_bound u -> Pb bf -> Pb (set_bytes (device drv u) bf).
Hypothesis Hinit :
  forall bf, size bf = values_count * 4 -> prefix_untouched one bf -> Pb bf.

Lemma test_script_run w :
  glGetError drv (errors_read w) = GL_NO_ERROR ->
  glGetError drv (S (errors_read w)) = GL_NO_ERROR ->
  glGetError drv (S (S (errors_read w))) = GL_NO_ERROR ->
  let g := generated w in
  exists pass w',
    test_script EXIT_SKIP drv one w = Ret pass w' /\
    stage_inv Pb one [g + 1; g + 2; g + 3] (allocation_events one g ++ trace w)
      (test_cases w) (S (S (S (errors_read w)))) (g + 3) w'.
Proof.
  intros He0 He1 He2 g.
  destruct (runnable_bounds one Hrun) as [Hb Hmul].
  assert (Hoff : 0 <= offset one < values_count * 4) by (unfold values_count; lia).
  unfold test_script. cbv zeta.
  (* the first buffer *)
  destruct (init_ssbo_run EXIT_SKIP drv w He0) as (w1 & R1 & B1 & T1 & G1 & E1 & C1).
  fold g in R1, B1, T1, G1. rewrite (bind_Ret _ _ _ _ _ R1).
  destruct (map_ssbo_run (g + 1) (offset one) w1 _
              ltac:(rewrite B1; apply lookup_insert_eq) eq_refl Hoff)
    as (w2 & R2 & B2 & T2 & G2 & E2 & C2).
  rewrite (bind_Ret _ _ _ _ _ R2).
  (* the second buffer *)
  destruct (init_ssbo_run EXIT_SKIP drv w2) as (w3 & R3 & B3 & T3 & G3 & E3 & C3);
    [congruence|].
  rewrite G2, G1 in R3, B3, T3, G3. replace (g + 1 + 1) with (g + 2) in * by lia.
  rewrite (bind_Ret _ _ _ _ _ R3).
  destruct (map_ssbo_run (g + 2) (offset one) w3 _
              ltac:(rewrite B3; apply lookup_insert_eq) eq_refl Hoff)
    as (w4 & R4 & B4 & T4 & G4 & E4 & C4).
  rewrite (bind_Ret _ _ _ _ _ R4).
  (* the third buffer *)
  destruct (init_ssbo_run EXIT_SKIP drv w4) as (w5 & R5 & B5 & T5 & G5 & E5 & C5);
    [congruence|].
  rewrite G4, G3 in R5, B5, T5, G5. replace (g + 2 + 1) with (g + 3) in * by lia.
  rewrite (bind_Ret _ _ _ _ _ R5).
  destruct (map_ssbo_run (g + 3) (offset one) w5 _
              ltac:(rewrite B5; apply lookup_insert_eq) eq_refl Hoff)
    as (w6 & R6 & B6 & T6 & G6 & E6 & C6).
  rewrite (bind_Ret _ _ _ _ _ R6).
  cbn [ssbo_id data].
  change (uint32 (values_count / 3)) with 15000.
  change (uint32 (2 * 15000)) with 30000.
  change (uint32 values_count) with 45000.
  (* the invariant holds once the buffers are filled *)
  set (Inv := stage_inv Pb one [g + 1; g + 2; g + 3] (allocation_events one g ++ trace w)
                (test_cases w) (S (S (S (errors_read w)))) (g + 3)).
  assert (HI : Inv w6).
  { split; [|split; [|repeat split; congruence]].
    - intros id Hid.
      assert (Hpre := filled_prefix_untouched drv one ltac:(lia)).
      rewrite B6, B5, B4, B3, B2, B1.
      destruct Hid as [<-|[<-|[<-|[]]]].
      + rewrite !(lookup_insert_ne _ (g + 3)), !(lookup_insert_ne _ (g + 2)) by lia.
        rewrite lookup_insert_eq. eexists. split; [reflexivity|]. auto.
      + rewrite !(lookup_insert_ne _ (g + 3)) by lia.
        rewrite lookup_insert_eq. eexists. split; [reflexivity|]. auto.
      + rewrite lookup_insert_eq. eexists. split; [reflexivity|]. auto.
    - exists []. split; [|reflexivity].
      rewrite T6, T5, T4, T3, T2, T1. unfold allocation_events.
      now rewrite <- !app_assoc. }
  revert HI. generalize w6.
  match goal with
  | |- forall w0, Inv w0 -> exists p w', ?m w0 = Ret p w' /\ Inv w' =>
      change (hoare Inv m (fun _ => Inv))
  end.
  unfold Inv.
  repeat (eapply hoare_bind;
          [ first [ apply hoare_and_probe;
                    first [ apply hoare_probe_inital_state
                          | apply hoare_probe_value_in_range
                          | apply hoare_probe_offseted ]
                  | apply hoare_call
                  | apply (hoare_compute_exec drv)
                  | apply hoare_fence ];
            first [ exact Hrun | exact Hdev | reflexivity
                  | simpl; tauto | unfold values_count; lia ]
          | intros ? ]).
  apply hoare_ret. auto.
Qed.

End Test.

(** *** The CPU writes of a test *)

Lemma stage_events_no_cpu_write one (l : list event) :
  forallb (stage_event one) l = true -> cpu_writes l = [].
Proof.
  unfold cpu_writes. induction l as [|e l IH]; [reflexivity|].
  cbn [forallb]. intros [He Hl]%andb_true_iff.
  cbn [rev]. rewrite omap_app, (IH Hl).
  unfold stage_event in He. destruct (cpu_write_of e) eqn:E; [discriminate|].
  simpl. now rewrite E.
Qed.

Lemma cpu_writes_app (l1 l2 : list event) : cpu_writes (l1 ++ l2) = cpu_writes l2 ++ cpu_writes l1.
Proof. unfold cpu_writes. now rewrite rev_app_distr, omap_app. Qed.

Lemma stage_events_start_bound one (l : list event) :
  forallb (stage_event one) l = true ->
  forall e v, In e l -> start_bound_of e = Some v -> offset one <= v.
Proof.
  rewrite forallb_forall. intros H e v He Hv. specialize (H e He).
  unfold stage_event in H. destruct (cpu_write_of e); [discriminate|].
  rewrite Hv in H. now apply Z.leb_le.
Qed.

Lemma allocation_events_start_bound one g e :
  In e (allocation_events one g) -> start_bound_of e = None.
Proof.
  unfold allocation_events, map_ssbo_events, init_ssbo_events. cbn [app In].
  intros H. repeat (destruct H as [<-|H]; [reflexivity|]). destruct H.
Qed.

(** What [init_ssbo] and [map_ssbo] leave in the storage. *)
Lemma init_ssbo_fills EXIT_SKIP drv w :
  glGetError drv (errors_read w) = GL_NO_ERROR ->
  exists w' bf,
    init_ssbo EXIT_SKIP drv w = Ret (generated w + 1) w' /\
    buffers w' !! (generated w + 1) = Some bf /\ size bf = values_count * 4 /\
    forall a, 0 <= a < values_count * 4 -> bytes bf a = uint8 fill_value_a.
Proof.
  intros Herr. destruct (init_ssbo_run EXIT_SKIP drv w Herr) as (w' & Hrun & Hb & _).
  eexists w', _. split; [exact Hrun|]. rewrite Hb, lookup_insert_eq.
  split; [reflexivity|]. split; [reflexivity|].
  intros a Ha. cbn [bytes]. unfold write_bytes.
  destruct (Z.leb_spec 0 a); [|lia].
  destruct (Z.ltb_spec a (0 + values_count * 4)); [reflexivity | lia].
Qed.

Lemma map_ssbo_fills ssbo off w bf :
  buffers w !! ssbo = Some bf -> size bf = values_count * 4 ->
  0 <= off < values_count * 4 ->
  exists w' bf',
    map_ssbo ssbo off w = Ret (Ptr ssbo off (values_count * 4 - off)) w' /\
    buffers w' !! ssbo = Some bf' /\ size bf' = values_count * 4 /\
    (forall a, off <= a < values_count * 4 -> bytes bf' a = uint8 fill_value_b) /\
    (forall a, a < off -> bytes bf' a = bytes bf a).
Proof.
  intros Hbuf Hsize Hoff.
  destruct (map_ssbo_run ssbo off w bf Hbuf Hsize Hoff) as (w' & Hrun & Hb & _).
  eexists w', _. split; [exact Hrun|]. rewrite Hb, lookup_insert_eq.
  split; [reflexivity|]. split; [exact Hsize|].
  split; intros a Ha; cbn [set_bytes bytes]; unfold write_bytes.
  - destruct (Z.leb_spec off a); [|lia].
    destruct (Z.ltb_spec a (off + (values_count * 4 - off))); [reflexivity | lia].
  - destruct (Z.leb_spec off a); [lia | reflexivity].
Qed.

(** *** What a test adds to the trace, however it ends *)

Section Appends.

Variable P : event -> bool.

Lemma appends_same {A} (m : M world A) :
  (forall w, trace (final_world (m w)) = trace w) -> appends P m.
Proof. intros H w. exists []. split; [apply H | reflexivity]. Qed.

Lemma appends_ret {A} (a : A) : appends P (ret a).
Proof. now apply appends_same. Qed.

Lemma appends_undef {A} : appends P (@undef world A).
Proof. now apply appends_same. Qed.

Lemma appends_out_of_fuel {A} : appends P (@out_of_fuel world A).
Proof. now apply appends_same. Qed.

Lemma appends_gets {A} (f : world -> A) : appends P (gets f).
Proof. now apply appends_same. Qed.

Lemma appends_modify (f : world -> world) :
  (forall w, trace (f w) = trace w) -> appends P (modify f).
Proof. intros H. apply appends_same. exact H. Qed.

Lemma appends_call fn args : P (Call fn args) = true -> appends P (call fn args).
Proof.
  intros H w. exists [Call fn args]. split; [now destruct w|].
  cbn [forallb]. now rewrite H.
Qed.

Lemma appends_printf fmt args :
  P (Printf stdout fmt args) = true -> appends P (printf fmt args).
Proof.
  intros H w. exists [Printf stdout fmt args]. split; [now destruct w|].
  cbn [forallb]. now rewrite H.
Qed.

Lemma appends_bind {A B} (m : M world A) (k : A -> M world B) :
  appends P m -> (forall a, appends P (k a)) -> appends P (bind m k).
Proof.
  intros Hm Hk w. destruct (Hm w) as (new & Htr & Hnew). unfold bind.
  destruct (m w) as [a w1|c w1|w1|w1|w1]; cbn [final_world] in *; eauto.
  destruct (Hk a w1) as (new' & Htr' & Hnew'). exists (new' ++ new). split.
  - rewrite Htr', Htr. apply app_assoc.
  - rewrite forallb_app. now rewrite Hnew', Hnew.
Qed.

Lemma appends_read p i : appends P (read p i).
Proof.
  apply appends_same. intros w. unfold read. destruct p; [reflexivity|].
  destruct ((0 <=? 4 * i) && (4 * i + 4 <=? len)); [|reflexivity].
  now destruct (buffers w !! buf).
Qed.

Lemma appends_shifted_rem i one : appends P (shifted_rem i one).
Proof.
  unfold shifted_rem. cbv zeta.
  destruct (stride one =? 0); [apply appends_undef | apply appends_ret].
Qed.

Lemma appends_next {A} i (loop : Z -> M world A) :
  (forall j, appends P (loop j)) -> appends P (next i loop).
Proof. intros H. unfold next. destruct (i =? INT_MAX); [apply appends_undef | apply H]. Qed.

Hypothesis Hprint : forall to fmt args, P (Printf to fmt args) = true.

Lemma appends_mismatch fn i v : appends P (mismatch fn i v).
Proof using Hprint. apply appends_printf, Hprint. Qed.

Ltac probe_step :=
  repeat first
    [ apply appends_read | apply appends_shifted_rem | apply appends_mismatch
    | apply appends_ret | apply appends_out_of_fuel
    | apply appends_bind; [|intros ?]
    | apply appends_next; assumption
    | match goal with
      | |- appends _ (if ?b then _ else _) => destruct b
      end ].

Lemma appends_written_loop data one e v : forall fuel i,
  appends P (written_loop data one e v fuel i).
Proof using Hprint.
  induction fuel as [|fuel IH]; intros i; cbn [written_loop]; probe_step.
Qed.

Lemma appends_untouched_loop data one (k : M world bool) :
  appends P k -> forall fuel i, appends P (untouched_loop data one k fuel i).
Proof using Hprint.
  intros Hk. induction fuel as [|fuel IH]; intros i; cbn [untouched_loop]; probe_step;
    assumption.
Qed.

Lemma appends_probe_value_in_range data one s e v :
  appends P (probe_value_in_range data one s e v).
Proof using Hprint.
  unfold probe_value_in_range. cbv zeta.
  apply appends_untouched_loop, appends_written_loop.
Qed.

Lemma appends_probe_inital_state_loop data one : forall fuel i,
  appends P (probe_inital_state_loop data one fuel i).
Proof using Hprint.
  induction fuel as [|fuel IH]; intros i; cbn [probe_inital_state_loop]; probe_step.
Qed.

Lemma appends_probe_inital_state data one : appends P (probe_inital_state data one).
Proof using Hprint. apply appends_probe_inital_state_loop. Qed.

Lemma appends_probe_offseted_loop data one : forall fuel i,
  appends P (probe_offseted_loop data one fuel i).
Proof using Hprint.
  induction fuel as [|fuel IH]; intros i; cbn [probe_offseted_loop]; probe_step.
Qed.

End Appends.

(** The stages of a test add no CPU write and no [start_bound] below the
    offset, however they end. *)
Section StageAppends.

Variables (drv : driver) (one : test_case).

Let P := stage_event one.

Lemma stage_event_printf to fmt args : P (Printf to fmt args) = true.
Proof. reflexivity. Qed.

Ltac stage_step :=
  repeat first
    [ apply appends_ret | apply appends_gets
    | apply appends_call; reflexivity
    | apply appends_modify; intros []; reflexivity
    | apply appends_bind; [|intros ?]
    | match goal with
      | |- appends _ (if ?b then _ else _) => destruct b
      | |- appends _ (match ?x with _ => _ end) => destruct x
      end ].

Lemma appends_glMapBufferRange off len : appends P (glMapBufferRange off len).
Proof. unfold glMapBufferRange. stage_step. Qed.

Lemma appends_probe_offseted_part_of_ssbo ssbo :
  appends P (probe_offseted_part_of_ssbo ssbo one).
Proof.
  unfold probe_offseted_part_of_ssbo, glBindBufferBase, glUnmapBuffer.
  destruct (offset one =? 0); [apply appends_ret|].
  apply appends_bind; [stage_step | intros _].
  apply appends_bind; [stage_step | intros _].
  apply appends_bind; [apply appends_glMapBufferRange | intros p].
  apply appends_probe_offseted_loop, stage_event_printf.
Qed.

Lemma appends_compute_exec ssbo start_bound end_bound value :
  appends P (compute_exec drv ssbo one start_bound end_bound value).
Proof.
  intros w.
  destruct (compute_exec_run drv ssbo one start_bound end_bound value w)
    as (w' & -> & _ & _ & Htr & _).
  eexists. split; [exact Htr|].
  unfold compute_exec_events. cbn [forallb]. unfold P, stage_event at 6.
  cbn [cpu_write_of start_bound_of String.eqb Ascii.eqb Bool.eqb andb].
  destruct (Z.leb_spec (offset one) (Z.max (offset one) start_bound)); [reflexivity | lia].
Qed.

Lemma appends_fence : appends P fence.
Proof. unfold fence. stage_step. Qed.

Lemma appends_and_probe pass (probe : M world bool) :
  appends P probe -> appends P (and_probe pass probe).
Proof. intros H. unfold and_probe. apply appends_bind; [exact H | intros r; apply appends_ret]. Qed.

End StageAppends.

(** [test_script] allocates and fills its three buffers whenever the offset
    lies inside the storage, and whatever follows adds stage events only. *)
Lemma test_script_allocates EXIT_SKIP drv one w :
  0 <= offset one < values_count * 4 ->
  glGetError drv (errors_read w) = GL_NO_ERROR ->
  glGetError drv (S (errors_read w)) = GL_NO_ERROR ->
  glGetError drv (S (S (errors_read w))) = GL_NO_ERROR ->
  exists new,
    trace (final_world (test_script EXIT_SKIP drv one w)) =
      new ++ allocation_events one (generated w) ++ trace w /\
    forallb (stage_event one) new = true.
Proof.
  intros Hoff He0 He1 He2. set (g := generated w).
  unfold test_script. cbv zeta.
  destruct (init_ssbo_run EXIT_SKIP drv w He0) as (w1 & R1 & B1 & T1 & G1 & E1 & C1).
  fold g in R1, B1, T1, G1. rewrite (bind_Ret _ _ _ _ _ R1).
  destruct (map_ssbo_run (g + 1) (offset one) w1 _
              ltac:(rewrite B1; apply lookup_insert_eq) eq_refl Hoff)
    as (w2 & R2 & B2 & T2 & G2 & E2 & C2).
  rewrite (bind_Ret _ _ _ _ _ R2).
  destruct (init_ssbo_run EXIT_SKIP drv w2) as (w3 & R3 & B3 & T3 & G3 & E3 & C3);
    [congruence|].
  rewrite G2, G1 in R3, B3, T3, G3. replace (g + 1 + 1) with (g + 2) in * by lia.
  rewrite (bind_Ret _ _ _ _ _ R3).
  destruct (map_ssbo_run (g + 2) (offset one) w3 _
              ltac:(rewrite B3; apply lookup_insert_eq) eq_refl Hoff)
    as (w4 & R4 & B4 & T4 & G4 & E4 & C4).
  rewrite (bind_Ret _ _ _ _ _ R4).
  destruct (init_ssbo_run EXIT_SKIP drv w4) as (w5 & R5 & B5 & T5 & G5 & E5 & C5);
    [congruence|].
  rewrite G4, G3 in R5, B5, T5, G5. replace (g + 2 + 1) with (g + 3) in * by lia.
  rewrite (bind_Ret _ _ _ _ _ R5).
  destruct (map_ssbo_run (g + 3) (offset one) w5 _
              ltac:(rewrite B5; apply lookup_insert_eq) eq_refl Hoff)
    as (w6 & R6 & B6 & T6 & G6 & E6 & C6).
  rewrite (bind_Ret _ _ _ _ _ R6).
  cbn [ssbo_id data].
  assert (Htr : trace w6 = allocation_events one g ++ trace w).
  { rewrite T6, T5, T4, T3, T2, T1. unfold allocation_events.
    now rewrite <- !app_assoc. }
  rewrite <- Htr. generalize w6.
  match goal with
  | |- forall w0, exists new, trace (final_world (?m w0)) = _ /\ _ =>
      change (appends (stage_event one) m)
  end.
  repeat (apply appends_bind;
          [ first [ apply appends_and_probe;
                    first [ apply appends_probe_inital_state
                          | apply appends_probe_value_in_range
                          | apply appends_probe_offseted_part_of_ssbo ];
                    try apply stage_event_printf
                  | apply appends_call; reflexivity
                  | apply appends_compute_exec
                  | apply appends_fence ]
          | intros ? ]).
  apply appends_ret.
Qed.

(** C5.  For every test case whose offset lies inside the storage, the
    three error checks of the allocations passing, the CPU writes of
    [test_script], however the test ends, are three times over: the
    allocation of a storage of [values_count * 4] bytes, a [memset] of all
    its bytes to the byte of [fill_value_a] through the mapped pointer, and a
    [memset] of the [values_count * 4 - offset] bytes from the offset of the
    test case to the byte of [fill_value_b]; [init_ssbo] and [map_ssbo] leave
    the storage so; and on a runnable test case [test_script] returns. *)
Theorem test_script_fills_three_buffers EXIT_SKIP drv one w :
  0 <= offset one < values_count * 4 ->
  glGetError drv (errors_read w) = GL_NO_ERROR ->
  glGetError drv (S (errors_read w)) = GL_NO_ERROR ->
  glGetError drv (S (S (errors_read w))) = GL_NO_ERROR ->
  (exists new,
     trace (final_world (test_script EXIT_SKIP drv one w)) = new ++ trace w /\
     cpu_writes new = three_filled_buffers one (generated w)) /\
  (runnable one -> exists pass w', test_script EXIT_SKIP drv one w = Ret pass w') /\
  (forall w1, glGetError drv (errors_read w1) = GL_NO_ERROR ->
     exists w' bf,
       init_ssbo EXIT_SKIP drv w1 = Ret (generated w1 + 1) w' /\
       buffers w' !! (generated w1 + 1) = Some bf /\ size bf = values_count * 4 /\
       forall a, 0 <= a < values_count * 4 -> bytes bf a = uint8 fill_value_a) /\
  (forall w1 ssbo bf,
     buffers w1 !! ssbo = Some bf -> size bf = values_count * 4 ->
     exists w' bf',
       map_ssbo ssbo (offset one) w1
         = Ret (Ptr ssbo (offset one) (values_count * 4 - offset one)) w' /\
       buffers w' !! ssbo = Some bf' /\ size bf' = values_count * 4 /\
       (forall a, offset one <= a < values_count * 4 -> bytes bf' a = uint8 fill_value_b) /\
       (forall a, a < offset one -> bytes bf' a = bytes bf a)).
Proof.
  intros Hoff He0 He1 He2. split; [|split; [|split]].
  - destruct (test_script_allocates EXIT_SKIP drv one w Hoff He0 He1 He2)
      as (new & Htr & Hnew).
    exists (new ++ allocation_events one (generated w)).
    split; [now rewrite <- app_assoc|].
    rewrite cpu_writes_app, (stage_events_no_cpu_write one new Hnew), app_nil_r.
    reflexivity.
  - intros Hrun.
    destruct (test_script_run EXIT_SKIP drv (fun _ => True) one Hrun)
      with (w := w) as (pass & w' & Hret & _); auto.
    now exists pass, w'.
  - intros w1. apply init_ssbo_fills.
  - intros w1 ssbo bf Hbuf Hsize. now apply map_ssbo_fills.
Qed.

Lemma test_script_fills_three_buffers_witness :
  let one := {| stride := 65536; offset := 65536 |} in
  exists new,
    trace (final_world (test_script 125 lossy_platform one initial_world))
      = new ++ trace initial_world /\
    cpu_writes new = three_filled_buffers one 0.
Proof.
  intros one.
  apply (test_script_fills_three_buffers 125 lossy_platform one initial_world);
    try reflexivity.
  vm_compute. split; [discriminate | reflexivity].
Defined.

(** *** The dispatches and the unmapped part *)

Lemma compute_shader_main_frame u gid mem a :
  a < 4 * u_start_bound u -> compute_shader_main u gid mem a = mem a.
Proof.
  intros Ha. unfold compute_shader_main.
  destruct (Z.leb_spec (u_start_bound u) gid); [|reflexivity].
  destruct (gid <? u_end_bound u); [|reflexivity]. cbn [andb].
  destruct (glsl_mod_is_0 _ _); [|reflexivity].
  unfold store_int. destruct (Z.leb_spec (4 * gid) a); [lia | reflexivity].
Qed.

(** The shader writes no byte below the element [start_bound]. *)
Lemma run_shader_frame u mem a :
  a < 4 * u_start_bound u -> run_shader u mem a = mem a.
Proof.
  intros Ha. unfold run_shader. generalize invocations. intros l. revert mem.
  induction l as [|gid l IH]; intros mem; [reflexivity|].
  cbn [fold_left]. rewrite IH. now apply compute_shader_main_frame.
Qed.

Lemma frames_keep_prefix drv one :
  0 <= offset one -> frames_below_start drv ->
  forall u bf, offset one <= u_start_bound u ->
    prefix_untouched one bf -> prefix_untouched one (set_bytes (device drv u) bf).
Proof.
  intros H0 Hframe u bf Hu Hpre a Ha. cbn [set_bytes bytes].
  rewrite Hframe by lia. now apply Hpre.
Qed.

(** *** What [probe_offseted_part_of_ssbo] answers *)

Section OffsetedResults.

Variables (w : world) (b : Z) (bf : buffer) (one : test_case).
Hypothesis Hbuf : buffers w !! b = Some bf.
Hypothesis Hoff : 0 <= offset one <= values_count * 4.

Let off4 := offset one / 4.
Let data := Ptr b 0 (offset one).
Let val (i : Z) := load_int (bytes bf) (4 * i).

Lemma probe_offseted_loop_true : forall fuel i,
  0 <= i <= off4 -> (Z.to_nat (off4 - i) < fuel)%nat ->
  (forall j, i <= j < off4 -> val j = fill_value_a) ->
  probe_offseted_loop data one fuel i w = Ret true w.
Proof.
  pose proof (off4_bounds one Hoff) as [Hb0 Hb1]. fold off4 in Hb0, Hb1.
  induction fuel as [|fuel IH]; intros i Hi Hfuel Hok; [lia|].
  cbn [probe_offseted_loop]. fold off4.
  rewrite (uint32_small i) by bounds.
  destruct (Z.ltb_spec i off4) as [Hlt|Hge]; [|reflexivity].
  unfold bind at 1. rewrite (read_run w b 0 (offset one) bf Hbuf) by bounds.
  rewrite Z.add_0_l. fold (val i). rewrite (Hok i) by lia.
  rewrite Z.eqb_refl. cbn [negb].
  rewrite next_run by bounds. apply IH; [bounds | bounds |].
  intros j Hj. apply Hok. lia.
Qed.

Lemma probe_offseted_loop_first j : forall fuel i,
  0 <= i <= j -> j < off4 -> (Z.to_nat (off4 - i) < fuel)%nat ->
  val j <> fill_value_a ->
  (forall j', i <= j' < j -> val j' = fill_value_a) ->
  probe_offseted_loop data one fuel i w =
    Ret false (set_trace (cons (mismatch_line "probe_offseted_part_of_ssbo" j (val j))) w).
Proof.
  pose proof (off4_bounds one Hoff) as [Hb0 Hb1]. fold off4 in Hb0, Hb1.
  induction fuel as [|fuel IH]; intros i Hi Hj Hfuel Hbad Hok; [lia|].
  cbn [probe_offseted_loop]. fold off4.
  rewrite (uint32_small i) by bounds.
  destruct (Z.ltb_spec i off4) as [Hlt|Hge]; [|lia].
  unfold bind at 1. rewrite (read_run w b 0 (offset one) bf Hbuf) by bounds.
  rewrite Z.add_0_l. fold (val i).
  destruct (Z.eq_dec i j) as [->|Hne].
  - destruct (Z.eqb_spec (val j) fill_value_a); [contradiction|]. reflexivity.
  - rewrite (Hok i) by lia. rewrite Z.eqb_refl. cbn [negb].
    rewrite next_run by bounds. apply IH; try bounds; auto.
    intros j' Hj'. apply Hok. lia.
Qed.

End OffsetedResults.

(** The ways [probe_offseted_part_of_ssbo] ends. *)
Lemma probe_offseted_part_of_ssbo_cases ssbo one w bf :
  buffers w !! ssbo = Some bf ->
  0 <= offset one <= values_count * 4 -> size bf = values_count * 4 ->
  let val i := load_int (bytes bf) (4 * i) in
  let o := probe_offseted_part_of_ssbo ssbo one w in
  (offset one = 0 /\ o = Ret true w) \/
  (offset one <> 0 /\ (forall j, 0 <= j < offset one / 4 -> val j = fill_value_a) /\
   o = Ret true (remapped ssbo one w)) \/
  (exists j, offset one <> 0 /\ 0 <= j < offset one / 4 /\ val j <> fill_value_a /\
     (forall j', 0 <= j' < j -> val j' = fill_value_a) /\
     o = Ret false (set_trace (cons (mismatch_line "probe_offseted_part_of_ssbo" j (val j)))
                      (remapped ssbo one w))).
Proof.
  intros Hbuf Hoff Hsize val o.
  destruct (Z.eq_dec (offset one) 0) as [E|E].
  - left. split; [exact E|]. unfold o, probe_offseted_part_of_ssbo. rewrite E. reflexivity.
  - right. unfold o.
    rewrite (probe_offseted_part_of_ssbo_run ssbo one w bf Hbuf) by lia.
    pose proof (off4_bounds one Hoff) as [Hb0 Hb1].
    destruct (first_failure (fun j => val j =? fill_value_a) 0 (Z.to_nat (offset one / 4)))
      as [H|(j & Hj & Hbad & Hfirst)].
    + left. assert (H' : forall j, 0 <= j < offset one / 4 -> val j = fill_value_a).
      { intros j Hj. apply Z.eqb_eq, H. lia. }
      repeat split; auto.
      apply (probe_offseted_loop_true (remapped ssbo one w) ssbo bf one); auto;
        unfold loop_fuel; lia.
    + right. exists j. apply Z.eqb_neq in Hbad.
      assert (H' : forall j', 0 <= j' < j -> val j' = fill_value_a).
      { intros j' Hj'. apply Z.eqb_eq, Hfirst. lia. }
      repeat split; try lia; auto.
      apply (probe_offseted_loop_first (remapped ssbo one w) ssbo bf one); auto;
        unfold loop_fuel; lia.
Qed.

(** C9.  [compute_exec] passes [max (one.offset, start_bound)] as the
    uniform [start_bound], which is not below the offset; the shader writes
    no byte below element [start_bound]; so on a device that writes none
    either, a test on a runnable case returns with every [start_bound] it
    has set at or above the offset and the first [offset] bytes of its three
    buffers still holding the byte of [fill_value_a]; and
    [probe_offseted_part_of_ssbo] checks this: it maps exactly the range
    from 0 to [offset] again unless the offset is 0, and returns [true] if
    and only if every [int] of that range holds [fill_value_a], which is so
    on a buffer whose first [offset] bytes are untouched. *)
Theorem dispatch_keeps_unmapped_prefix EXIT_SKIP drv one :
  (forall ssbo start_bound end_bound value w,
     exists w',
       compute_exec drv ssbo one start_bound end_bound value w = Ret tt w' /\
       u_start_bound (current w') = Z.max (offset one) start_bound /\
       offset one <= u_start_bound (current w') /\
       In (Call "glUniform1ui" [T "start_bound"; I (Z.max (offset one) start_bound)])
          (trace w')) /\
  (forall u mem a, a < 4 * u_start_bound u -> run_shader u mem a = mem a) /\
  (runnable one -> frames_below_start drv ->
   forall w,
     glGetError drv (errors_read w) = GL_NO_ERROR ->
     glGetError drv (S (errors_read w)) = GL_NO_ERROR ->
     glGetError drv (S (S (errors_read w))) = GL_NO_ERROR ->
     exists pass w' new,
       test_script EXIT_SKIP drv one w = Ret pass w' /\
       trace w' = new ++ trace w /\
       (forall e v, In e new -> start_bound_of e = Some v -> offset one <= v) /\
       forall id, In id [generated w + 1; generated w + 2; generated w + 3] ->
         exists bf, buffers w' !! id = Some bf /\ size bf = values_count * 4 /\
                    prefix_untouched one bf) /\
  (forall ssbo w bf,
     buffers w !! ssbo = Some bf -> size bf = values_count * 4 ->
     0 <= offset one <= values_count * 4 ->
     exists r w',
       probe_offseted_part_of_ssbo ssbo one w = Ret r w' /\
       (r = true <->
        forall i, 0 <= i < offset one / 4 -> load_int (bytes bf) (4 * i) = fill_value_a) /\
       (offset one = 0 /\ w' = w \/
        offset one <> 0 /\ r = true /\ w' = remapped ssbo one w \/
        offset one <> 0 /\ r = false /\
          exists i, 0 <= i < offset one / 4 /\
            load_int (bytes bf) (4 * i) <> fill_value_a /\
            w' = set_trace
                   (cons (mismatch_line "probe_offseted_part_of_ssbo" i
                            (load_int (bytes bf) (4 * i))))
                   (remapped ssbo one w)) /\
       (prefix_untouched one bf -> r = true)).
Proof.
  split; [|split; [|split]].
  - intros ssbo sb eb v w.
    destruct (compute_exec_run drv ssbo one sb eb v w) as (w' & Hrun & _ & Hcur & Htr & _).
    exists w'. split; [exact Hrun|]. rewrite Hcur, Htr. cbn [dispatch_uniforms u_start_bound].
    split; [reflexivity|]. split; [lia|].
    apply in_or_app. left. unfold compute_exec_events. cbn [In]. tauto.
  - apply run_shader_frame.
  - intros Hrun Hframe w He0 He1 He2.
    destruct (runnable_bounds one Hrun) as [Hb Hmul].
    destruct (test_script_run EXIT_SKIP drv (prefix_untouched one) one Hrun)
      with (w := w) as (pass & w' & Hret & Hbufs & (new & Htr & Hnew) & _); auto.
    { apply frames_keep_prefix; [lia | exact Hframe]. }
    exists pass, w', (new ++ allocation_events one (generated w)).
    split; [exact Hret|]. split; [now rewrite <- app_assoc|]. split.
    + intros e v [He|He]%in_app_or Hv.
      * exact (stage_events_start_bound one new Hnew e v He Hv).
      * rewrite (allocation_events_start_bound one _ e He) in Hv. discriminate.
    + exact Hbufs.
  - intros ssbo w bf Hbuf Hsize Hoff.
    assert (Hpre : prefix_untouched one bf ->
                   forall i, 0 <= i < offset one / 4 ->
                     load_int (bytes bf) (4 * i) = fill_value_a).
    { intros Hp i Hi. pose proof (off4_bounds one Hoff) as [_ Hb].
      apply load_int_fill_value_a; apply Hp; lia. }
    destruct (probe_offseted_part_of_ssbo_cases ssbo one w bf Hbuf Hoff Hsize)
      as [(E & Hret)|[(E & Hok & Hret)|(j & E & Hj & Hbad & Hfirst & Hret)]];
      cbv zeta in *; rewrite Hret.
    + exists true, w. split; [reflexivity|]. split; [|split; [now left | reflexivity]].
      split; [|reflexivity].
      intros _ i Hi. rewrite E in Hi. change (0 / 4) with 0 in Hi. lia.
    + eexists true, _. split; [reflexivity|].
      split; [split; [intros _; exact Hok | reflexivity]|].
      split; [right; left; auto | reflexivity].
    + eexists false, _. split; [reflexivity|]. split; [|split].
      * split; [discriminate|]. intros Hok. exfalso. apply Hbad, Hok, Hj.
      * right. right. split; [exact E|]. split; [reflexivity|].
        exists j. repeat split; try lia; auto.
      * intros Hp. exfalso. apply Hbad, (Hpre Hp), Hj.
Qed.

Lemma dispatch_keeps_unmapped_prefix_witness :
  let one := {| stride := 4096; offset := 4096 |} in
  (exists pass w' new,
     test_script 125 shader_platform one initial_world = Ret pass w' /\
     trace w' = new ++ trace initial_world /\
     (forall e v, In e new -> start_bound_of e = Some v -> offset one <= v) /\
     forall id, In id [1; 2; 3] ->
       exists bf, buffers w' !! id = Some bf /\ size bf = values_count * 4 /\
                  prefix_untouched one bf) /\
  (exists w', probe_offseted_part_of_ssbo 1 one b_filled_world = Ret false w').
Proof.
  intros one. split.
  - apply (proj1 (proj2 (proj2 (dispatch_keeps_unmapped_prefix 125 shader_platform one))));
      try reflexivity.
    + repeat split; try discriminate; vm_compute; discriminate.
    + intros u mem a Ha. apply run_shader_frame. exact Ha.
  - destruct (proj2 (proj2 (proj2 (dispatch_keeps_unmapped_prefix 125 shader_platform one)))
                1 b_filled_world
                {| size := values_count * 4; bytes := fun _ => uint8 fill_value_b |})
      as (r & w' & Hret & Hr & _).
    + reflexivity.
    + reflexivity.
    + vm_compute. split; discriminate.
    + exists w'. destruct r; [|exact Hret].
      exfalso. pose proof (proj1 Hr eq_refl 0 ltac:(vm_compute; split; [discriminate | reflexivity])) as H.
      vm_compute in H. discriminate H.
Defined.


(** *** The exit status of [main] *)

Lemma runnable_multiple s q :
  s <> 0 -> 0 <= q <= 15000 -> runnable {| stride := s; offset := 4 * q |}.
Proof.
  intros Hs Hq. unfold runnable. cbn [stride offset].
  rewrite (Z.mul_comm 4 q), Z_mod_mult, Z_div_mult by lia.
  change (values_count / 3) with 15000. repeat split; auto; lia.
Qed.

(** On pages of [4 k] bytes, [2 <= k <= 7499], the seven test cases are
    runnable. *)
Lemma page_cases_runnable k one :
  2 <= k <= 7499 -> In one (page_straddling_cases (4 * k)) -> runnable one.
Proof.
  intros Hk. unfold page_straddling_cases. cbn [In].
  intros [<-|[<-|[<-|[<-|[<-|[<-|[<-|[]]]]]]]].
  - apply (runnable_multiple 2 0); lia.
  - apply (runnable_multiple (4 * k) k); lia.
  - replace (4 * k - 4) with (4 * (k - 1)) by lia. apply runnable_multiple; lia.
  - replace (4 * k + 4) with (4 * (k + 1)) by lia. apply runnable_multiple; lia.
  - replace (2 * (4 * k)) with (4 * (2 * k)) by lia. apply runnable_multiple; lia.
  - replace (2 * (4 * k) + 4) with (4 * (2 * k + 1)) by lia. apply runnable_multiple; lia.
  - replace (2 * (4 * k) - 4) with (4 * (2 * k - 1)) by lia. apply runnable_multiple; lia.
Qed.

Section Main.

Variables (EXIT_SKIP : Z) (drv : driver) (k : Z) (t0 : list event).
Hypothesis Herr : forall n, glGetError drv n = GL_NO_ERROR.
Hypothesis Hk : 2 <= k <= 7499.

Lemma hoare_main_loop_body i pass :
  In i (seqZ 0 7) ->
  hoare (main_inv (4 * k) t0) (main_loop_body EXIT_SKIP drv i pass)
    (fun _ => main_inv (4 * k) t0).
Proof.
  intros Hi w (Hcases & new & Htr).
  assert (Hone : exists one, test_cases w !! Z.to_nat i = Some one /\
                             In one (page_straddling_cases (4 * k))).
  { rewrite Hcases. change (seqZ 0 7) with [0; 1; 2; 3; 4; 5; 6] in Hi.
    cbn [In] in Hi.
    destruct Hi as [<-|[<-|[<-|[<-|[<-|[<-|[<-|[]]]]]]]];
      (eexists; split; [reflexivity|]); unfold page_straddling_cases; cbn [In]; tauto. }
  destruct Hone as (one & Hlook & Hin).
  pose proof (page_cases_runnable k one Hk Hin) as Hrun.
  unfold main_loop_body, test_case_at. unfold bind at 1. unfold bind at 1.
  unfold gets. rewrite Hlook. cbn [ret].
  destruct (test_script_run EXIT_SKIP drv (fun _ => True) one Hrun)
    with (w := w) as (r & w' & Hret & _ & (new' & Htr' & _) & Hc' & _); auto.
  unfold bind at 1. rewrite Hret.
  assert (Happ : forall e : list event,
             e ++ new' ++ allocation_events one (generated w) ++ new ++ t0 =
             (e ++ new' ++ allocation_events one (generated w) ++ new) ++ t0).
  { intros e. now rewrite <- !app_assoc. }
  destruct (negb (r && pass)).
  - eexists _, _. split; [reflexivity|]. unfold printf, modify. split.
    + cbn [set_trace test_cases]. congruence.
    + cbn [set_trace trace]. rewrite Htr', Htr.
      eexists. apply (Happ [_]).
  - eexists _, _. split; [reflexivity|]. split; [congruence|].
    rewrite Htr', Htr. eexists. apply (Happ []).
Qed.

End Main.

(** The loop of [main] returns, and keeps its invariant. *)
Lemma main_loop_returns EXIT_SKIP drv k t0 l pass w :
  (forall n, glGetError drv n = GL_NO_ERROR) -> 2 <= k <= 7499 ->
  (forall i, In i l -> In i (seqZ 0 7)) ->
  main_inv (4 * k) t0 w ->
  exists pass' w',
    for_each l (main_loop_body EXIT_SKIP drv) pass w = Ret pass' w' /\
    main_inv (4 * k) t0 w'.
Proof.
  intros Herr Hk Hl HI.
  apply (hoare_for_each (main_inv (4 * k) t0) (main_loop_body EXIT_SKIP drv) l); auto.
  intros i a Hi. apply hoare_main_loop_body; auto.
Qed.

(** If the first test fails, the loop of [main] says so and goes on to
    return. *)
Lemma main_loop_reports_failure EXIT_SKIP drv k w w1 :
  (forall n, glGetError drv n = GL_NO_ERROR) -> 2 <= k <= 7499 ->
  test_cases w = page_straddling_cases (4 * k) ->
  test_script EXIT_SKIP drv {| stride := 2; offset := 0 |} w = Ret false w1 ->
  test_cases w1 = test_cases w ->
  exists pass' w',
    for_each (seqZ 0 7) (main_loop_body EXIT_SKIP drv) true w = Ret pass' w' /\
    In (test_failed_line {| stride := 2; offset := 0 |}) (trace w').
Proof.
  intros Herr Hk Hcases Hfail Hcases1.
  change (seqZ 0 7) with (0 :: [1; 2; 3; 4; 5; 6]). cbn [for_each].
  assert (Hbody : main_loop_body EXIT_SKIP drv 0 true w =
                  Ret false (set_trace (cons (test_failed_line {| stride := 2; offset := 0 |})) w1)).
  { unfold main_loop_body, test_case_at, gets. unfold bind at 1. unfold bind at 1.
    rewrite Hcases.
    assert (Hl : page_straddling_cases (4 * k) !! Z.to_nat 0 =
                 Some {| stride := 2; offset := 0 |}) by reflexivity.
    rewrite Hl. cbn [ret]. unfold bind at 1. rewrite Hfail. reflexivity. }
  rewrite (bind_Ret _ _ _ _ _ Hbody).
  destruct (main_loop_returns EXIT_SKIP drv k
              (test_failed_line {| stride := 2; offset := 0 |} :: trace w1)
              [1; 2; 3; 4; 5; 6] false
              (set_trace (cons (test_failed_line {| stride := 2; offset := 0 |})) w1))
    as (pass' & w' & Hret & _ & new & Htr); auto.
  - intros i Hi. change (seqZ 0 7) with [0; 1; 2; 3; 4; 5; 6]. cbn [In] in *. tauto.
  - split; [cbn [set_trace test_cases]; congruence|]. now exists [].
  - exists pass', w'. split; [exact Hret|]. rewrite Htr. apply in_or_app. right. now left.
Qed.

(** On [lossy_platform] the first test, on test case [{2, 0}], fails. *)
Lemma lossy_first_test_fails :
  exists w1,
    test_script 125 lossy_platform {| stride := 2; offset := 0 |} world_of_first_test
      = Ret false w1 /\
    test_cases w1 = test_cases world_of_first_test.
Proof.
  assert (Hfalse : match test_script 125 lossy_platform {| stride := 2; offset := 0 |}
                           world_of_first_test with
                   | Ret false _ => true
                   | _ => false
                   end = true) by (vm_compute; reflexivity).
  destruct (test_script_run 125 lossy_platform (fun _ => True)
              {| stride := 2; offset := 0 |})
    with (w := world_of_first_test) as (pass & w1 & Hret & _ & _ & Hc & _); auto.
  { apply (runnable_multiple 2 0); lia. }
  rewrite Hret in Hfalse. cbv beta iota in Hfalse.
  destruct pass; [discriminate Hfalse|].
  exists w1. split; [exact Hret | exact Hc].
Qed.

(** One step of a run: the first computation of a sequence returns. *)
Ltac step := erewrite bind_Ret by reflexivity; cbv beta.

(** Up to its loop, the run of [main] on [lossy_platform] leads to
    [world_of_first_test]. *)
Lemma lossy_run_reaches_loop argc argv :
  run 125 lossy_platform argc argv =
  bind (for_each (seqZ 0 7) (main_loop_body 125 lossy_platform) true)
    (fun _ => bind (call "glfwDestroyWindow" [T "window"])
                (fun _ => bind (call "glfwTerminate" []) (fun _ => ret 0)))
    world_of_first_test.
Proof.
  unfold run, main. cbv zeta.
  generalize (for_each (seqZ 0 7) (main_loop_body 125 lossy_platform) true).
  intros loop. vm_compute. reflexivity.
Qed.

(** C1, at a failing input.  On [lossy_platform], where the writes of the
    dispatches are lost, the first test script returns [false]; [main]
    prints that the test failed, runs the other tests, and returns 0. *)
Theorem main_returns_0_after_failed_test argc argv :
  (exists w1,
     test_script 125 lossy_platform {| stride := 2; offset := 0 |} world_of_first_test
       = Ret false w1) /\
  exists w',
    run 125 lossy_platform argc argv = Ret 0 w' /\
    In (test_failed_line {| stride := 2; offset := 0 |}) (trace w').
Proof.
  destruct lossy_first_test_fails as (w1 & Hfail & Hcases).
  split; [now exists w1|].
  destruct (main_loop_reports_failure 125 lossy_platform 1024 world_of_first_test w1)
    as (pass & w2 & Hloop & Hin); auto; try lia.
  rewrite lossy_run_reaches_loop, (bind_Ret _ _ _ _ _ Hloop).
  eexists. split; [reflexivity|].
  cbn [call modify set_trace trace]. right. right. exact Hin.
Qed.

Lemma fill_build_programm_returns drv w :
  glCreateProgram drv <> 0 ->
  exists w', build_programm drv w = Ret tt w' /\ test_cases w' = test_cases w.
Proof.
  intros Hp. unfold build_programm. destruct w.
  destruct (GL_COMPILE_STATUS drv =? 0), (GL_LINK_STATUS drv =? 0); exec;
  (destruct (Z.eqb_spec (glCreateProgram drv) 0); [contradiction|]);
  eexists; split; reflexivity.
Qed.

Lemma require_extension_returns EXIT_SKIP drv ext w :
  GLAD_GL_VERSION_4_4 drv <> 0 \/ glfwExtensionSupported drv "extension" = true ->
  exists w', require_extension EXIT_SKIP drv ext (GLAD_GL_VERSION_4_4 drv) w = Ret tt w' /\
             test_cases w' = test_cases w.
Proof.
  intros H. unfold require_extension. destruct w.
  destruct (Z.eqb_spec (GLAD_GL_VERSION_4_4 drv) 0) as [E|E].
  - destruct H as [H|H]; [contradiction|]. exec. rewrite H. cbn [negb].
    eexists; split; reflexivity.
  - exec. eexists; split; reflexivity.
Qed.

(** Whatever the device does in the tests, [main] returns 0 once the window
    and GL are there, the extension check passes and no GL error is read (on
    pages of [4 k] bytes, [2 <= k <= 7499]). *)
Lemma main_returns_0_whatever_the_tests EXIT_SKIP drv k argc argv :
  glfwCreateWindow_ok drv = true ->
  gladLoadGLLoader_ok drv = true ->
  GLAD_GL_VERSION_4_4 drv <> 0 \/ glfwExtensionSupported drv "extension" = true ->
  glCreateProgram drv <> 0 ->
  (forall n, glGetError drv n = GL_NO_ERROR) ->
  sysconf_SC_PAGESIZE drv = 4 * k -> 2 <= k <= 7499 ->
  exists w', run EXIT_SKIP drv argc argv = Ret 0 w'.
Proof.
  intros Hwin Hglad Hext Hprog Herr Hpage Hk.
  unfold run, main. cbv zeta. do 3 step. rewrite Hwin. cbn [negb]. do 2 step.
  rewrite Hglad. cbn [negb].
  repeat match goal with
  | |- context [bind (require_extension EXIT_SKIP drv ?e ?v) ?c ?W] =>
      let H := fresh in
      destruct (require_extension_returns EXIT_SKIP drv e W Hext) as (? & H & ?);
      rewrite (bind_Ret _ _ _ _ _ H); clear H
  end.
  match goal with
  | |- context [bind (build_programm drv) ?c ?W] =>
      destruct (fill_build_programm_returns drv W Hprog) as (wb & Hb & Hcb);
      rewrite (bind_Ret _ _ _ _ _ Hb)
  end.
  destruct (init_test_cases_run drv wb) as (wi & Hi & Hci & _).
  { rewrite Hcb. repeat match goal with H : test_cases _ = test_cases _ |- _ =>
      rewrite H; clear H end. reflexivity. }
  rewrite (bind_Ret _ _ _ _ _ Hi).
  cbv zeta in Hci. rewrite Hpage in Hci.
  rewrite (uint32_small (4 * k)) in Hci by lia.
  rewrite (uint32_small (4 * k * 2)) in Hci by lia.
  rewrite !uint32_small in Hci by lia.
  replace (4 * k * 2) with (2 * (4 * k)) in Hci by lia.
  destruct (main_loop_returns EXIT_SKIP drv k (trace wi) (seqZ 0 7) true wi)
    as (pass & wl & Hl & _); auto.
  { split; [exact Hci | now exists []]. }
  rewrite (bind_Ret _ _ _ _ _ Hl). eexists. reflexivity.
Qed.

(** *** The dispatch in closed form *)

Lemma compute_shader_main_at u gid mem a :
  compute_shader_main u gid mem a =
    if writes u gid && (gid =? a / 4) then byte_of_int (u_value u) (a - 4 * gid) else mem a.
Proof.
  unfold compute_shader_main, writes.
  destruct ((u_start_bound u <=? gid) && (gid <? u_end_bound u)); [|reflexivity].
  cbn [andb]. destruct (glsl_mod_is_0 gid (u_stride u)); [|reflexivity]. cbn [andb].
  unfold store_int.
  destruct (Z.eqb_spec gid (a / 4)) as [->|Hne].
  - pose proof (Z.div_mod a 4 ltac:(lia)). pose proof (Z.mod_pos_bound a 4 ltac:(lia)).
    destruct (Z.leb_spec (4 * (a / 4)) a); [|lia].
    destruct (Z.ltb_spec a (4 * (a / 4) + 4)); [reflexivity | lia].
  - destruct (Z.leb_spec (4 * gid) a); [|reflexivity].
    destruct (Z.ltb_spec a (4 * gid + 4)); [|reflexivity].
    exfalso. apply Hne. apply Z.div_unique with (r := a - 4 * gid); lia.
Qed.

Lemma fold_shader_at u a : forall l mem,
  fold_left (fun m gid => compute_shader_main u gid m) l mem a =
    if writes u (a / 4) && existsb (Z.eqb (a / 4)) l
    then byte_of_int (u_value u) (a - 4 * (a / 4))
    else mem a.
Proof.
  induction l as [|gid l IH]; intros mem; cbn [fold_left existsb].
  - now rewrite andb_false_r.
  - rewrite IH, compute_shader_main_at.
    destruct (Z.eqb_spec (a / 4) gid) as [<-|Hne].
    + rewrite Z.eqb_refl, andb_true_r. cbn [orb]. rewrite andb_true_r.
      destruct (writes u (a / 4)); [|reflexivity].
      cbn [andb]. now destruct (existsb _ l).
    + destruct (Z.eqb_spec gid (a / 4)); [congruence|].
      rewrite andb_false_r. cbn [orb]. reflexivity.
Qed.

(** The dispatch of the shader, byte by byte. *)
Lemma run_shader_effect u mem a : run_shader u mem a = shader_effect u mem a.
Proof.
  unfold run_shader, shader_effect. rewrite fold_shader_at. cbv zeta.
  assert (Hin : existsb (Z.eqb (a / 4)) invocations = (0 <=? a / 4) && (a / 4 <? 45 * 1000)).
  { apply eq_true_iff_eq. rewrite existsb_exists, andb_true_iff, Z.leb_le, Z.ltb_lt.
    unfold invocations. split.
    - intros (x & Hx & ->%Z.eqb_eq). apply list_elem_of_In, elem_of_seqZ in Hx. lia.
    - intros H. exists (a / 4). split; [|apply Z.eqb_refl].
      apply list_elem_of_In, elem_of_seqZ. lia. }
  rewrite Hin. unfold writes.
  destruct (0 <=? a / 4), (a / 4 <? 45 * 1000), (u_start_bound u <=? a / 4),
    (a / 4 <? u_end_bound u), (glsl_mod_is_0 (a / 4) (u_stride u)); reflexivity.
Qed.

End FillSsboFacts.

(** ** map_and_draw_coherent *)

Module MapDrawFacts.
Import MapDraw.

Lemma written_range_spec {V} (ok : V -> bool) n (m : gmap Z V) :
  written_range ok n m = true ->
  (forall i, is_Some (m !! i) <-> 0 <= i < n) /\
  (forall i v, m !! i = Some v -> ok v = true).
Proof.
  unfold written_range. rewrite andb_true_iff, !forallb_forall.
  intros [Hin Hout].
  assert (Hrange : forall i v, m !! i = Some v -> 0 <= i < n).
  { intros i v Hiv.
    specialize (Hout (i, v)). simpl in Hout.
    rewrite andb_true_iff, Z.leb_le, Z.ltb_lt in Hout.
    apply Hout. apply list_elem_of_In. now apply elem_of_map_to_list. }
  assert (Hall : forall i, 0 <= i < n -> exists v, m !! i = Some v /\ ok v = true).
  { intros i Hi. specialize (Hin i).
    destruct (m !! i) as [v|] eqn:E.
    - exists v. split; [reflexivity|]. apply Hin.
      apply list_elem_of_In, elem_of_seqZ. lia.
    - discriminate Hin. apply list_elem_of_In, elem_of_seqZ. lia. }
  split.
  - intros i. split.
    + intros [v Hv]. eauto.
    + intros Hi. destruct (Hall i Hi) as (v & Hv & _). now exists v.
  - intros i v Hv. destruct (Hall i (Hrange i v Hv)) as (v' & Hv' & Hok). congruence.
Qed.

Lemma generateVerticles_report (w : world) :
  mapped w = mapped_by_setup -> vertices w = ∅ -> indexes w = ∅ -> color w = ∅ ->
  vertices_report (generateVerticles 256 256 8 w) =
    Some ((Printf stdout "Indexes count %d \n" [I 2176]
             :: Printf stdout "Vertexes count %d \n" [I 1089] :: trace w,
           mapped w, errors_read w, close_polls w, prog w, ssbo w),
          2176, true, true, true).
Proof.
  destruct w; simpl. intros -> -> -> ->. vm_compute. reflexivity.
Qed.

(** C10.  Called as in [main], on arrays mapped by [setup_buffers] and not
    written yet, [generateVerticles (256, 256, 8)] returns having written
    exactly the floats of [(height / step + 1) * (width / step + 1) = 1089]
    vertices and exactly [(height / step) * (2 * (width / step + 1) + 2) = 2176]
    indexes, with [indexes_count = 2176], every index written being a vertex
    number below 1089. *)
Theorem generateVerticles_counts (w : world) :
  mapped w = mapped_by_setup -> vertices w = ∅ -> indexes w = ∅ -> color w = ∅ ->
  exists w',
    generateVerticles 256 256 8 w = Ret tt w' /\
    (idiv 256 8 + 1) * (idiv 256 8 + 1) = 1089 /\
    idiv 256 8 * (2 * (idiv 256 8 + 1) + 2) = 2176 /\
    (forall i, is_Some (vertices w' !! i) <-> 0 <= i < 3 * 1089) /\
    indexes_count w' = 2176 /\
    (forall i, is_Some (indexes w' !! i) <-> 0 <= i < indexes_count w') /\
    (forall i v, indexes w' !! i = Some v -> 0 <= v < 1089) /\
    trace w' = Printf stdout "Indexes count %d \n" [I 2176]
                 :: Printf stdout "Vertexes count %d \n" [I 1089] :: trace w.
Proof.
  intros Hm Hv Hi Hc.
  pose proof (generateVerticles_report w Hm Hv Hi Hc) as Hrep.
  destruct (generateVerticles 256 256 8 w) as [[] w'| | | |]; try discriminate.
  simpl in Hrep. injection Hrep as Htr _ _ _ _ _ Hcount Hvert Hind _.
  apply written_range_spec in Hvert as [Hvert _].
  apply written_range_spec in Hind as [Hind Hbelow].
  exists w'. rewrite Hcount.
  split; [reflexivity|]. split; [reflexivity|]. split; [reflexivity|].
  split; [exact Hvert|]. split; [reflexivity|]. split; [exact Hind|].
  split; [|exact Htr].
  intros i v Hiv. apply Hbelow in Hiv.
  rewrite andb_true_iff, Z.leb_le, Z.ltb_lt in Hiv. exact Hiv.
Qed.

Lemma generateVerticles_counts_witness :
  exists w',
    generateVerticles 256 256 8 (set_mapped (fun _ => mapped_by_setup) initial_world)
      = Ret tt w' /\
    indexes_count w' = 2176 /\
    (forall i v, indexes w' !! i = Some v -> 0 <= v < 1089).
Proof.
  destruct (generateVerticles_counts
              (set_mapped (fun _ => mapped_by_setup) initial_world)
              eq_refl eq_refl eq_refl eq_refl)
    as (w' & Hrun & _ & _ & _ & Hcount & _ & Hbelow & _).
  exists w'. auto.
Defined.


(** *** The exit status of [main] *)

Ltac exec :=
  cbv [bind call printf fprintf modify gets ret abort exit
       MapDraw.glMapBufferRange MapDraw.glBufferStorage getSystemPageSize glfwWindowHints
       check_error draw_frame
       set_trace set_mapped set_color set_vertices set_indexes set_indexes_count
       set_errors_read set_close_polls set_prog set_ssbo
       trace mapped color vertices indexes indexes_count errors_read close_polls prog ssbo].

Lemma draw_build_programm_returns drv w :
  glCreateProgram drv <> 0 ->
  exists w', build_programm drv w = Ret tt w' /\
    (mapped w', color w', vertices w', indexes w') =
    (mapped w, color w, vertices w, indexes w) /\
    errors_read w' = errors_read w /\ close_polls w' = close_polls w.
Proof.
  intros Hp. unfold build_programm. destruct w.
  destruct (GL_COMPILE_STATUS_vertex drv =? 0), (GL_COMPILE_STATUS_fragment drv =? 0),
    (GL_LINK_STATUS drv =? 0); exec;
  (destruct (Z.eqb_spec (glCreateProgram drv) 0); [contradiction|]);
  eexists; repeat split; reflexivity.
Qed.

Lemma setup_buffers_returns EXIT_SKIP drv w :
  GLAD_GL_VERSION_4_4 drv <> 0 \/ glfwExtensionSupported drv "extension" = true ->
  glGenBuffers_ssbo drv <> 0 ->
  glGetError drv (errors_read w) = GL_NO_ERROR ->
  glGetError drv (S (errors_read w)) = GL_NO_ERROR ->
  glCheckFramebufferStatus_complete drv = true ->
  mapped w = ∅ ->
  exists w', setup_buffers EXIT_SKIP drv 256 256 w = Ret true w' /\
    mapped w' = mapped_by_setup /\
    (color w', vertices w', indexes w', close_polls w')
    = (color w, vertices w, indexes w, close_polls w).
Proof.
  intros Hext Hssbo He0 He1 Hfb Hm. unfold setup_buffers, reqire_extension.
  destruct w; simpl in *. subst.
  destruct (Z.eqb_spec (GLAD_GL_VERSION_4_4 drv) 0) as [E|E].
  - destruct Hext as [H|H]; [contradiction|]. exec. rewrite H. simpl.
    destruct (Z.eqb_spec (glGenBuffers_ssbo drv) 0); [contradiction|].
    rewrite He0. simpl. rewrite Hfb. simpl. rewrite He1. simpl.
    eexists; repeat split; reflexivity.
  - exec.
    destruct (Z.eqb_spec (glGenBuffers_ssbo drv) 0); [contradiction|].
    rewrite He0. simpl. rewrite Hfb. simpl. rewrite He1. simpl.
    eexists; repeat split; reflexivity.
Qed.

Lemma generateVerticles_returns (w : world) :
  mapped w = mapped_by_setup -> vertices w = ∅ -> indexes w = ∅ -> color w = ∅ ->
  exists w', generateVerticles 256 256 8 w = Ret tt w' /\
    mapped w' = mapped w /\ color w' = ∅ /\ close_polls w' = close_polls w.
Proof.
  intros Hm Hv Hi Hc.
  pose proof (generateVerticles_report w Hm Hv Hi Hc) as Hrep.
  destruct (generateVerticles 256 256 8 w) as [[] w'| | | |]; try discriminate.
  simpl in Hrep. injection Hrep as _ Hmap _ Hpolls _ _ _ _ _ Hcol.
  exists w'. repeat split; auto.
  now apply bool_decide_eq_true in Hcol.
Qed.

Lemma generate_colors_report (w : world) :
  mapped w = mapped_by_setup -> color w = ∅ ->
  colors_report (generate_colors 256 256 8 w) =
    Some ((Printf stdout "Colors count %d \n" [I 65536] :: trace w,
           mapped w, errors_read w, close_polls w, prog w, ssbo w),
          indexes_count w).
Proof.
  destruct w; simpl. intros -> ->. vm_compute. reflexivity.
Qed.

Lemma generate_colors_returns (w : world) :
  mapped w = mapped_by_setup -> color w = ∅ ->
  exists w', generate_colors 256 256 8 w = Ret tt w' /\ close_polls w' = close_polls w.
Proof.
  intros Hm Hc.
  pose proof (generate_colors_report w Hm Hc) as Hrep.
  destruct (generate_colors 256 256 8 w) as [[] w'| | | |]; try discriminate.
  simpl in Hrep. injection Hrep as _ _ _ Hpolls _ _ _.
  exists w'. auto.
Qed.

(** The loop of [draw] ends at the first poll that reports the window
    closed, if the fuel reaches it. *)
Lemma draw_loop_returns drv width height : forall k fuel w,
  glfwWindowShouldClose drv (close_polls w + k)%nat = true ->
  (k < fuel)%nat ->
  exists w', draw_loop drv width height fuel w = Ret tt w'.
Proof.
  induction k as [|k IH]; intros fuel w Hclose Hfuel.
  - destruct fuel as [|fuel]; [lia|]. destruct w; simpl in *.
    exec. rewrite Nat.add_0_r in Hclose. rewrite Hclose. eauto.
  - destruct fuel as [|fuel]; [lia|]. destruct w; simpl in *.
    exec. fold (draw_loop drv width height).
    destruct (glfwWindowShouldClose drv close_polls0); [eauto|].
    apply IH; [|lia]. simpl.
    replace (S (close_polls0 + k))%nat with (close_polls0 + S k)%nat by lia.
    exact Hclose.
Qed.

Lemma main_returns_0 EXIT_SKIP drv fuel argc argv :
  glfwCreateWindow_ok drv = true ->
  gladLoadGLLoader_ok drv = true ->
  glCreateProgram drv <> 0 ->
  GLAD_GL_VERSION_4_4 drv <> 0 \/ glfwExtensionSupported drv "extension" = true ->
  glGenBuffers_ssbo drv <> 0 ->
  glGetError drv 0 = GL_NO_ERROR ->
  glGetError drv 1 = GL_NO_ERROR ->
  glCheckFramebufferStatus_complete drv = true ->
  (exists k, (k < fuel)%nat /\ glfwWindowShouldClose drv k = true) ->
  exists w', run EXIT_SKIP drv fuel argc argv = Ret 0 w'.
Proof.
  intros Hwin Hglad Hprog Hext Hssbo He0 He1 Hfb (k & Hk & Hclose).
  unfold run, main, initial_world. exec. rewrite Hwin, Hglad. simpl.
  match goal with |- context [build_programm drv ?W] =>
    destruct (draw_build_programm_returns drv W Hprog) as (w1 & -> & Ha1 & He & Hc1) end.
  simpl in Ha1, He, Hc1. injection Ha1 as Hm1 Hcol1 Hv1 Hi1.
  destruct (setup_buffers_returns EXIT_SKIP drv w1) as (w2 & -> & Hm2 & Ha2); auto;
    try (rewrite He; assumption).
  injection Ha2 as Hcol2 Hv2 Hi2 Hc2. simpl.
  destruct (generateVerticles_returns w2) as (w3 & -> & Hm3 & Hcol3 & Hc3); try congruence.
  destruct (generate_colors_returns w3) as (w4 & -> & Hc4); try congruence.
  assert (Hc : close_polls w4 = 0%nat) by congruence.
  destruct w4; simpl in Hc; subst. unfold draw. exec.
  match goal with |- context [draw_loop drv 256 256 fuel ?W] =>
    destruct (draw_loop_returns drv 256 256 k fuel W) as (w5 & ->) end.
  - exact Hclose.
  - exact Hk.
  - eauto.
Qed.

Lemma main_same_but_pixels EXIT_SKIP d1 d2 fuel argc argv :
  same_but_pixels d1 d2 ->
  main EXIT_SKIP d1 fuel argc argv = main EXIT_SKIP d2 fuel argc argv.
Proof.
  destruct d1, d2. unfold same_but_pixels. simpl.
  intros (-> & -> & -> & -> & -> & -> & -> & -> & -> & -> & -> & -> & ->).
  reflexivity.
Qed.

(** C7.  [main] makes no assertion on pixels.  Whenever the window and GL
    are there, [setup_buffers] succeeds (the program object and [ssbo] have
    names, the extension check passes, no GL error is read, the framebuffer
    is complete) and the [draw] loop completes (the window is reported closed
    at a poll the fuel reaches), the run returns 0: [pass] is still [true].
    And two platforms that differ only in the pixels a read-back would give
    have the same run, trace and exit status included. *)
Theorem main_exit_status_ignores_pixels EXIT_SKIP drv fuel argc argv :
  (glfwCreateWindow_ok drv = true ->
   gladLoadGLLoader_ok drv = true ->
   glCreateProgram drv <> 0 ->
   GLAD_GL_VERSION_4_4 drv <> 0 \/ glfwExtensionSupported drv "extension" = true ->
   glGenBuffers_ssbo drv <> 0 ->
   glGetError drv 0 = GL_NO_ERROR ->
   glGetError drv 1 = GL_NO_ERROR ->
   glCheckFramebufferStatus_complete drv = true ->
   (exists k, (k < fuel)%nat /\ glfwWindowShouldClose drv k = true) ->
   exists w', run EXIT_SKIP drv fuel argc argv = Ret 0 w') /\
  (forall drv', same_but_pixels drv drv' ->
     run EXIT_SKIP drv fuel argc argv = run EXIT_SKIP drv' fuel argc argv).
Proof.
  split.
  - apply main_returns_0.
  - intros drv' Hsame. unfold run.
    now rewrite (main_same_but_pixels EXIT_SKIP drv drv' fuel argc argv Hsame).
Qed.

Lemma main_exit_status_ignores_pixels_witness :
  exists w', run 125 (platform supports_literal 3 (fun _ _ => [])) 5 1 ["map_and_draw_coherent"%string]
             = Ret 0 w'.
Proof.
  apply (proj1 (main_exit_status_ignores_pixels 125
                  (platform supports_literal 3 (fun _ _ => [])) 5 1
                  ["map_and_draw_coherent"%string]));
    try reflexivity; try (simpl; lia).
  - right. reflexivity.
  - exists 3%nat. split; [lia | reflexivity].
Defined.

End MapDrawFacts.

(** ** Properties of both programs *)

Lemma fill_check_error_run EXIT_SKIP (drv : FillSsbo.driver) (w : FillSsbo.world) :
  let error := FillSsbo.glGetError drv (FillSsbo.errors_read w) in
  let w' := FillSsbo.set_trace (cons (Call "glGetError" []))
              (FillSsbo.set_errors_read (S (FillSsbo.errors_read w)) w) in
  FillSsbo.check_error EXIT_SKIP drv w =
    if error =? GL_NO_ERROR then Ret tt w'
    else if error =? GL_OUT_OF_MEMORY then Exit EXIT_SKIP w'
    else Exit EXIT_FAILURE w'.
Proof.
  unfold FillSsbo.check_error, bind, gets, modify, FillSsbo.call; simpl.
  destruct (_ =? GL_NO_ERROR); [reflexivity|].
  destruct (_ =? GL_OUT_OF_MEMORY); reflexivity.
Qed.

Lemma draw_check_error_run EXIT_SKIP (drv : MapDraw.driver) (w : MapDraw.world) :
  let error := MapDraw.glGetError drv (MapDraw.errors_read w) in
  let w' := MapDraw.set_trace (cons (Call "glGetError" []))
              (MapDraw.set_errors_read (S (MapDraw.errors_read w)) w) in
  MapDraw.check_error EXIT_SKIP drv w =
    if error =? GL_NO_ERROR then Ret tt w'
    else if error =? GL_OUT_OF_MEMORY then Exit EXIT_SKIP w'
    else Exit EXIT_FAILURE w'.
Proof.
  unfold MapDraw.check_error, bind, gets, modify, MapDraw.call; simpl.
  destruct (_ =? GL_NO_ERROR); [reflexivity|].
  destruct (_ =? GL_OUT_OF_MEMORY); reflexivity.
Qed.

(** The three-way switch on the error code meets the contract, whatever the
    worlds [w'] are, as soon as the skip status is not [EXIT_FAILURE]. *)
Lemma error_switch_contract {W} EXIT_SKIP error (w' : W) :
  EXIT_SKIP <> EXIT_FAILURE ->
  error_check_contract EXIT_SKIP error
    (if error =? GL_NO_ERROR then Ret tt w'
     else if error =? GL_OUT_OF_MEMORY then Exit EXIT_SKIP w'
     else Exit EXIT_FAILURE w').
Proof.
  intros Hskip. unfold error_check_contract.
  destruct (Z.eqb_spec error GL_NO_ERROR) as [E0|N0].
  - subst error. repeat split.
    + eauto.
    + intros [w'' H]. discriminate.
    + discriminate.
    + intros H. now elim H.
  - destruct (Z.eqb_spec error GL_OUT_OF_MEMORY) as [E1|N1].
    + repeat split; try (intros [w'' H]; discriminate); try tauto; eauto.
    + repeat split; try (intros [w'' H]; try discriminate); try tauto; eauto.
      injection H as H1 H2. congruence.
Qed.

(** C2.  In both programs [check_error] returns exactly when the error code
    read is [GL_NO_ERROR], terminates the process with [EXIT_SKIP] exactly
    when it is [GL_OUT_OF_MEMORY], and terminates it with [EXIT_FAILURE] on
    every other code ([EXIT_SKIP] being a status other than [EXIT_FAILURE]). *)
Theorem check_error_contract (EXIT_SKIP : Z) :
  EXIT_SKIP <> EXIT_FAILURE ->
  (forall (drv : FillSsbo.driver) (w : FillSsbo.world),
      error_check_contract EXIT_SKIP
        (FillSsbo.glGetError drv (FillSsbo.errors_read w))
        (FillSsbo.check_error EXIT_SKIP drv w)) /\
  (forall (drv : MapDraw.driver) (w : MapDraw.world),
      error_check_contract EXIT_SKIP
        (MapDraw.glGetError drv (MapDraw.errors_read w))
        (MapDraw.check_error EXIT_SKIP drv w)).
Proof.
  intros Hskip. split; intros drv w.
  - rewrite fill_check_error_run. now apply error_switch_contract.
  - rewrite draw_check_error_run. now apply error_switch_contract.
Qed.

Lemma check_error_contract_witness :
  125 <> EXIT_FAILURE /\
  error_check_contract 125
    (FillSsbo.glGetError FillSsbo.lossy_platform
       (FillSsbo.errors_read FillSsbo.initial_world))
    (FillSsbo.check_error 125 FillSsbo.lossy_platform FillSsbo.initial_world).
Proof.
  assert (H : 125 <> EXIT_FAILURE) by (unfold EXIT_FAILURE; lia).
  split; [exact H|].
  exact (proj1 (check_error_contract 125 H) FillSsbo.lossy_platform FillSsbo.initial_world).
Defined.

(** What [require_extension] does depends on the GL version flag and on the
    support of the literal ["extension"] only. *)
Lemma fill_require_extension_run EXIT_SKIP (drv : FillSsbo.driver) ext v w :
  FillSsbo.require_extension EXIT_SKIP drv ext v w =
    if v =? 0 then
      let w1 := FillSsbo.set_trace (cons (Call "glfwExtensionSupported" [T "extension"])) w in
      if FillSsbo.glfwExtensionSupported drv "extension" then Ret tt w1
      else Exit EXIT_SKIP
             (FillSsbo.set_trace
                (fun t => Call "glfwTerminate" []
                            :: Printf stderr "error: %s not supported\n" [T ext] :: t) w1)
    else Ret tt w.
Proof.
  unfold FillSsbo.require_extension.
  destruct (v =? 0); [|reflexivity].
  unfold bind, FillSsbo.call, FillSsbo.fprintf, modify; simpl.
  destruct (FillSsbo.glfwExtensionSupported drv "extension"); reflexivity.
Qed.

Lemma draw_reqire_extension_run EXIT_SKIP (drv : MapDraw.driver) ext v w :
  MapDraw.reqire_extension EXIT_SKIP drv ext v w =
    if v =? 0 then
      let w1 := MapDraw.set_trace (cons (Call "glfwExtensionSupported" [T "extension"])) w in
      if MapDraw.glfwExtensionSupported drv "extension" then Ret tt w1
      else Exit EXIT_SKIP
             (MapDraw.set_trace
                (fun t => Call "glfwTerminate" []
                            :: Printf stderr "error: %s not supported\n" [T ext] :: t) w1)
    else Ret tt w.
Proof.
  unfold MapDraw.reqire_extension.
  destruct (v =? 0); [|reflexivity].
  unfold bind, MapDraw.call, MapDraw.fprintf, modify; simpl.
  destruct (MapDraw.glfwExtensionSupported drv "extension"); reflexivity.
Qed.

(** C3.  The extension check does not test the extension it is called for.
    On a platform without GL 4.4 that supports none of the four required
    extensions, but one named [extension], every call continues; on a
    platform without GL 4.4 that supports the four required extensions, every
    call prints the diagnostic and leaves with [EXIT_SKIP].  Both programs. *)
Theorem require_extension_tests_literal (EXIT_SKIP : Z) :
  Forall (fun ext =>
    (let drv := FillSsbo.platform FillSsbo.supports_literal 4096 FillSsbo.shader_effect in
     FillSsbo.glfwExtensionSupported drv ext = false /\
     forall w, exists w',
       FillSsbo.require_extension EXIT_SKIP drv ext (FillSsbo.GLAD_GL_VERSION_4_4 drv) w
       = Ret tt w') /\
    (let drv := FillSsbo.platform FillSsbo.supports_required 4096 FillSsbo.shader_effect in
     FillSsbo.glfwExtensionSupported drv ext = true /\
     forall w, exists w',
       FillSsbo.require_extension EXIT_SKIP drv ext (FillSsbo.GLAD_GL_VERSION_4_4 drv) w
       = Exit EXIT_SKIP w' /\
       In (Printf stderr "error: %s not supported\n" [T ext]) (FillSsbo.trace w')) /\
    (let drv := MapDraw.platform MapDraw.supports_literal 1 (fun _ _ => []) in
     MapDraw.glfwExtensionSupported drv ext = false /\
     forall w, exists w',
       MapDraw.reqire_extension EXIT_SKIP drv ext (MapDraw.GLAD_GL_VERSION_4_4 drv) w
       = Ret tt w') /\
    (let drv := MapDraw.platform MapDraw.supports_required 1 (fun _ _ => []) in
     MapDraw.glfwExtensionSupported drv ext = true /\
     forall w, exists w',
       MapDraw.reqire_extension EXIT_SKIP drv ext (MapDraw.GLAD_GL_VERSION_4_4 drv) w
       = Exit EXIT_SKIP w' /\
       In (Printf stderr "error: %s not supported\n" [T ext]) (MapDraw.trace w')))
    FillSsbo.required_extensions.
Proof.
  unfold FillSsbo.required_extensions.
  repeat (constructor; [cbv zeta; split; [|split; [|split]] |]);
    try (split; [reflexivity | intros w; eexists]);
    try (rewrite fill_require_extension_run);
    try (rewrite draw_reqire_extension_run);
    try (simpl; split; [reflexivity | simpl; tauto]);
    try reflexivity.
  constructor.
Qed.

(** C8.  Neither [main] reads [argc] or [argv]: on the same platform, and
    from the same world, two runs with different arguments are the same
    computation, with the same trace of operations and the same exit status. *)
Theorem main_ignores_arguments (EXIT_SKIP : Z)
  (fill : FillSsbo.driver) (draw : MapDraw.driver) (fuel : nat)
  (argc1 argc2 : Z) (argv1 argv2 : list string) :
  FillSsbo.run EXIT_SKIP fill argc1 argv1 = FillSsbo.run EXIT_SKIP fill argc2 argv2 /\
  MapDraw.run EXIT_SKIP draw fuel argc1 argv1 = MapDraw.run EXIT_SKIP draw fuel argc2 argv2 /\
  (forall w, FillSsbo.main EXIT_SKIP fill argc1 argv1 w
             = FillSsbo.main EXIT_SKIP fill argc2 argv2 w) /\
  (forall w, MapDraw.main EXIT_SKIP draw fuel argc1 argv1 w
             = MapDraw.main EXIT_SKIP draw fuel argc2 argv2 w).
Proof.
  unfold FillSsbo.run, MapDraw.run.
  repeat split; intros; unfold FillSsbo.main, MapDraw.main; reflexivity.
Qed.
(** ** Exits, failed asserts and returned values *)

Section Stops.

Context {W : Type} (S : Z -> W -> Prop) (B : Prop).

Lemma stops_ret {A} (a : A) : stops_with S B (@ret W A a).
Proof. intros w. exact Logic.I. Qed.

Lemma stops_modify (f : W -> W) : stops_with S B (modify f).
Proof. intros w. exact Logic.I. Qed.

Lemma stops_gets {A} (f : W -> A) : stops_with S B (gets f).
Proof. intros w. exact Logic.I. Qed.

Lemma stops_undef {A} : stops_with S B (@undef W A).
Proof. intros w. exact Logic.I. Qed.

Lemma stops_out_of_fuel {A} : stops_with S B (@out_of_fuel W A).
Proof. intros w. exact Logic.I. Qed.

Lemma stops_abort {A} : B -> stops_with S B (@abort W A).
Proof. intros HB w. exact HB. Qed.

Lemma stops_exit {A} c : (forall w, S c w) -> stops_with S B (@exit W A c).
Proof. intros HS w. apply HS. Qed.

Lemma stops_bind {A A'} (m : M W A) (k : A -> M W A') :
  stops_with S B m -> (forall a, stops_with S B (k a)) -> stops_with S B (bind m k).
Proof.
  intros Hm Hk w. specialize (Hm w). unfold bind.
  destruct (m w) as [a w1|c1 w1|w1|w1|w1]; auto. apply Hk.
Qed.

Lemma stops_for_each {A} (body : Z -> A -> M W A) l :
  (forall i a, stops_with S B (body i a)) -> forall a, stops_with S B (for_each l body a).
Proof.
  intros Hb. induction l as [|i l IH]; intros a; cbn [for_each].
  - apply stops_ret.
  - apply stops_bind; [apply Hb | exact IH].
Qed.

End Stops.

Lemma returns_ret {W A} (S : A -> Prop) (a : A) : S a -> returns_with S (@ret W A a).
Proof. intros HS w a' w' H. injection H as <- _. exact HS. Qed.

Lemma returns_bind {W A B} (S : B -> Prop) (m : M W A) (k : A -> M W B) :
  (forall a, returns_with S (k a)) -> returns_with S (bind m k).
Proof.
  intros Hk w b w' H. apply bind_inv_Ret in H as (a & w1 & _ & H).
  exact (Hk a w1 b w' H).
Qed.
(** * More of fill_ssbo_coherent.cpp: the probes and the dispatches, result by result *)

Module FillSsboMore.
Import FillSsbo.
Import FillSsboFacts.

(** *** The probes, result by result *)

Section ProbeResults.

Variables (w : world) (b base len : Z) (bf : buffer).
Hypothesis Hbuf : buffers w !! b = Some bf.
Variable one : test_case.

Let data := Ptr b base len.
Let val (i : Z) := load_int (bytes bf) (base + 4 * i).
Let off4 := offset one / 4.
Let n := values_count - off4.

Hypothesis Hoff : 0 <= off4 <= values_count.
Hypothesis Hlen : 4 * n <= len.

Lemma probe_inital_state_loop_ok : forall fuel i,
  0 <= i <= n -> (Z.to_nat (n - i) < fuel)%nat ->
  (forall j, i <= j < n -> val j = fill_value_b) ->
  probe_inital_state_loop data one fuel i w = Ret true w.
Proof.
  induction fuel as [|fuel IH]; intros i Hi Hfuel Hok; [lia|].
  cbn [probe_inital_state_loop]. fold off4. fold n.
  rewrite (uint32_small i) by bounds.
  rewrite (uint32_small n) by bounds.
  destruct (Z.ltb_spec i n) as [Hlt|Hge]; [|reflexivity].
  unfold bind at 1. rewrite (read_run w b base len bf Hbuf) by bounds.
  fold (val i). rewrite (Hok i) by lia. rewrite Z.eqb_refl. cbn [negb].
  rewrite next_run by bounds. apply IH; [bounds | bounds |].
  intros j Hj. apply Hok. lia.
Qed.

Lemma probe_inital_state_loop_first j : forall fuel i,
  0 <= i <= j -> j < n -> (Z.to_nat (n - i) < fuel)%nat ->
  val j <> fill_value_b ->
  (forall j', i <= j' < j -> val j' = fill_value_b) ->
  probe_inital_state_loop data one fuel i w =
    Ret false (set_trace (cons (mismatch_line "inprobe_inital_state" j (val j))) w).
Proof.
  induction fuel as [|fuel IH]; intros i Hi Hj Hfuel Hbad Hok; [lia|].
  cbn [probe_inital_state_loop]. fold off4. fold n.
  rewrite (uint32_small i) by bounds.
  rewrite (uint32_small n) by bounds.
  destruct (Z.ltb_spec i n) as [Hlt|Hge]; [|lia].
  unfold bind at 1. rewrite (read_run w b base len bf Hbuf) by bounds.
  fold (val i).
  destruct (Z.eq_dec i j) as [->|Hne].
  - destruct (Z.eqb_spec (val j) fill_value_b); [contradiction|]. reflexivity.
  - rewrite (Hok i) by lia. rewrite Z.eqb_refl. cbn [negb].
    rewrite next_run by bounds. apply IH; try bounds; auto.
    intros j' Hj'. apply Hok. lia.
Qed.

(** The two ways [probe_inital_state] ends. *)
Lemma probe_inital_state_cases :
  ((forall j, 0 <= j < n -> val j = fill_value_b) /\
   probe_inital_state data one w = Ret true w) \/
  (exists j, 0 <= j < n /\ val j <> fill_value_b /\
     (forall j', 0 <= j' < j -> val j' = fill_value_b) /\
     probe_inital_state data one w =
       Ret false (set_trace (cons (mismatch_line "inprobe_inital_state" j (val j))) w)).
Proof.
  unfold probe_inital_state. fold off4. fold n.
  rewrite (uint32_small n) by bounds.
  destruct (first_failure (fun j => val j =? fill_value_b) 0 (Z.to_nat n))
    as [H|(j & Hj & Hbad & Hfirst)].
  - left. assert (H' : forall j, 0 <= j < n -> val j = fill_value_b).
    { intros j Hj. apply Z.eqb_eq, H. lia. }
    split; [exact H'|]. apply probe_inital_state_loop_ok; bounds || auto.
  - right. exists j. apply Z.eqb_neq in Hbad.
    assert (H' : forall j', 0 <= j' < j -> val j' = fill_value_b).
    { intros j' Hj'. apply Z.eqb_eq, Hfirst. lia. }
    repeat split; try lia; auto.
    apply probe_inital_state_loop_first; bounds || auto.
Qed.

Hypothesis Hstride : stride one <> 0.

(** Below the offset, [probe_value_in_range] ends as its first loop does:
    the second loop does not run. *)
Lemma probe_value_in_range_wrapped_cases start_bound end_bound value :
  0 <= start_bound < off4 ->
  off4 <= end_bound <= values_count ->
  let o := probe_value_in_range data one start_bound end_bound value w in
  ((forall j, 0 <= j < n -> untouched_at base bf one j = true) /\ o = Ret true w) \/
  (exists j, 0 <= j < n /\ untouched_at base bf one j = false /\
     (forall j', 0 <= j' < j -> untouched_at base bf one j' = true) /\
     o = Ret false (set_trace (cons (mismatch_line "probe_value_in_range" j (val j))) w)).
Proof.
  intros Hs He o. unfold o, probe_value_in_range. fold off4. fold n.
  rewrite (uint32_small n) by bounds.
  pose proof (written_loop_wrapped w b base len one Hoff start_bound end_bound value He Hs)
    as Hwrapped.
  cbv zeta in Hwrapped. fold off4 in Hwrapped.
  destruct (first_failure (untouched_at base bf one) 0 (Z.to_nat n))
    as [H|(j & Hj & Hbad & Hfirst)].
  - left. assert (H' : forall j, 0 <= j < n -> untouched_at base bf one j = true)
      by (intros j Hj; apply H; lia).
    split; [exact H'|].
    rewrite (untouched_loop_ok w b base len bf Hbuf one Hstride Hoff Hlen) by (bounds || auto).
    exact Hwrapped.
  - right. exists j.
    assert (H' : forall j', 0 <= j' < j -> untouched_at base bf one j' = true)
      by (intros j' Hj'; apply Hfirst; lia).
    repeat split; try lia; auto.
    apply (untouched_loop_first w b base len bf Hbuf one Hstride Hoff Hlen); bounds || auto.
Qed.

End ProbeResults.

(** *** Elements of a storage *)

Lemma testbit_byte_of_int v k i :
  0 <= k -> 0 <= i ->
  Z.testbit (byte_of_int v k) i = (i <? 8) && Z.testbit (uint32 v) (i + 8 * k).
Proof.
  intros Hk Hi. unfold byte_of_int, uint8. change 0xFF with (Z.ones 8).
  rewrite Z.land_spec, Z.shiftr_spec by lia.
  destruct (Z.ltb_spec i 8).
  - rewrite Z.ones_spec_low by lia. now rewrite andb_true_r.
  - rewrite Z.ones_spec_high by lia. now rewrite andb_false_r.
Qed.

Lemma uint32_testbit_high v i : 32 <= i -> Z.testbit (uint32 v) i = false.
Proof.
  intros Hi. unfold uint32. change 0xFFFFFFFF with (Z.ones 32).
  rewrite Z.land_spec, Z.ones_spec_high by lia. apply andb_false_r.
Qed.

(** The four bytes of an [int], least significant first, make the [int]. *)
Lemma bytes_of_int_join v :
  Z.lor (byte_of_int v 0)
    (Z.lor (Z.shiftl (byte_of_int v 1) 8)
       (Z.lor (Z.shiftl (byte_of_int v 2) 16) (Z.shiftl (byte_of_int v 3) 24)))
  = uint32 v.
Proof.
  apply Z.bits_inj'. intros i Hi.
  rewrite !Z.lor_spec, !Z.shiftl_spec by lia.
  destruct (Z.ltb_spec i 8) as [H8|H8].
  { rewrite testbit_byte_of_int by lia.
    rewrite (Z.testbit_neg_r _ (i - 8)), (Z.testbit_neg_r _ (i - 16)),
      (Z.testbit_neg_r _ (i - 24)) by lia.
    destruct (Z.ltb_spec i 8); [|lia]. rewrite !orb_false_r. cbn [andb].
    f_equal. lia. }
  destruct (Z.ltb_spec i 16) as [H16|H16].
  { rewrite !testbit_byte_of_int by lia.
    rewrite (Z.testbit_neg_r _ (i - 16)), (Z.testbit_neg_r _ (i - 24)) by lia.
    destruct (Z.ltb_spec i 8); [lia|]. destruct (Z.ltb_spec (i - 8) 8); [|lia].
    cbn [andb orb]. rewrite !orb_false_r. f_equal. lia. }
  destruct (Z.ltb_spec i 24) as [H24|H24].
  { rewrite !testbit_byte_of_int by lia.
    rewrite (Z.testbit_neg_r _ (i - 24)) by lia.
    destruct (Z.ltb_spec i 8); [lia|]. destruct (Z.ltb_spec (i - 8) 8); [lia|].
    destruct (Z.ltb_spec (i - 16) 8); [|lia].
    cbn [andb orb]. rewrite !orb_false_r. f_equal. lia. }
  rewrite !testbit_byte_of_int by lia.
  destruct (Z.ltb_spec i 8); [lia|]. destruct (Z.ltb_spec (i - 8) 8); [lia|].
  destruct (Z.ltb_spec (i - 16) 8); [lia|]. cbn [andb orb].
  destruct (Z.ltb_spec (i - 24) 8).
  - cbn [andb]. f_equal. lia.
  - cbn [andb]. symmetry. apply uint32_testbit_high. lia.
Qed.

(** Reading an [int] where its four bytes are stored gives it back. *)
Lemma load_int_bytes (mem : memory) a v :
  - 2 ^ 31 <= v < 2 ^ 31 ->
  mem a = byte_of_int v 0 -> mem (a + 1) = byte_of_int v 1 ->
  mem (a + 2) = byte_of_int v 2 -> mem (a + 3) = byte_of_int v 3 ->
  load_int mem a = v.
Proof.
  intros Hv H0 H1 H2 H3. unfold load_int. rewrite H0, H1, H2, H3.
  rewrite bytes_of_int_join, int32_uint32. now apply int32_small.
Qed.

Lemma load_int_ext (m1 m2 : memory) a :
  m1 a = m2 a -> m1 (a + 1) = m2 (a + 1) -> m1 (a + 2) = m2 (a + 2) ->
  m1 (a + 3) = m2 (a + 3) -> load_int m1 a = load_int m2 a.
Proof. intros H0 H1 H2 H3. unfold load_int. now rewrite H0, H1, H2, H3. Qed.

Lemma div4 e k : 0 <= k < 4 -> (4 * e + k) / 4 = e.
Proof. intros Hk. symmetry. apply Z.div_unique with (r := k); lia. Qed.

Lemma glsl_mod_is_0_mod x y : y <> 0 -> glsl_mod_is_0 x y = (x mod y =? 0).
Proof. intros Hy. unfold glsl_mod_is_0. now destruct (Z.eqb_spec y 0). Qed.

(** The elements of a storage after a dispatch of the shader: the
    invocations below [45 * 1000] that pass the tests of the shader have
    written [value], and nothing else has changed. *)
Lemma elem_run_shader u mem e :
  - 2 ^ 31 <= u_value u < 2 ^ 31 ->
  elem (run_shader u mem) e =
    if (0 <=? e) && (e <? 45 * 1000) && writes u e then u_value u else elem mem e.
Proof.
  intros Hv. unfold elem.
  assert (Hb : forall k, 0 <= k < 4 ->
             run_shader u mem (4 * e + k) =
             if (0 <=? e) && (e <? 45 * 1000) && writes u e
             then byte_of_int (u_value u) k else mem (4 * e + k)).
  { intros k Hk. rewrite run_shader_effect. unfold shader_effect, writes. cbv zeta.
    rewrite (div4 e k Hk). replace (4 * e + k - 4 * e) with k by lia.
    now rewrite !andb_assoc. }
  pose proof (Hb 0 ltac:(lia)) as H0. rewrite Z.add_0_r in H0.
  pose proof (Hb 1 ltac:(lia)) as H1.
  pose proof (Hb 2 ltac:(lia)) as H2.
  pose proof (Hb 3 ltac:(lia)) as H3.
  destruct ((0 <=? e) && (e <? 45 * 1000) && writes u e).
  - now apply load_int_bytes.
  - now apply load_int_ext.
Qed.

(** *** The steps of a test, with the bytes of its buffers *)

Lemma hoare_frame {W A} (phi : Prop) (P : W -> Prop) (m : M W A) (Q : W -> Prop) :
  hoare P m (fun _ => Q) ->
  hoare (fun w => P w /\ phi) m (fun _ w => Q w /\ phi).
Proof.
  intros H w [HP Hphi]. destruct (H w HP) as (a & w' & Hrun & HQ).
  exists a, w'. auto.
Qed.

Section TestSteps.

Variables (drv : driver) (one : test_case).
Variables (g : Z) (rest : gmap Z buffer) (t0 : list event).
Variables (cases : list test_case) (errs : nat).
Hypothesis Hrun : runnable one.

Let St := test_state g rest t0 cases errs.
Let len := values_count * 4 - offset one.

Lemma test_state_step ma mb mc ma' mb' mc' w w' evs :
  St ma mb mc w ->
  buffers w' =
    <[g + 3 := storage mc']> (<[g + 2 := storage mb']> (<[g + 1 := storage ma']> rest)) ->
  trace w' = evs ++ trace w -> forallb quiet evs = true ->
  test_cases w' = test_cases w -> errors_read w' = errors_read w ->
  generated w' = generated w ->
  St ma' mb' mc' w'.
Proof using Type.
  intros (Hb & (new & Htr & Hq) & Hc & He & Hg) Hb' Htr' Hq' Hc' He' Hg'.
  split; [exact Hb'|]. split; [|repeat split; congruence].
  exists (evs ++ new). split.
  - rewrite Htr', Htr. now rewrite app_assoc.
  - rewrite forallb_app. now rewrite Hq', Hq.
Qed.

Lemma test_state_printed ma mb mc w w' :
  St ma mb mc w -> printed w w' -> St ma mb mc w'.
Proof using Type.
  intros HS [->|(fn & i & v & ->)]; [exact HS|].
  destruct w. eapply test_state_step with (evs := [mismatch_line fn i v]); eauto;
    try reflexivity. apply HS.
Qed.

Lemma test_state_remapped id ma mb mc w :
  St ma mb mc w -> St ma mb mc (remapped id one w).
Proof using Type.
  intros HS. destruct w.
  eapply test_state_step with (evs := [_; _; _]); eauto; try reflexivity. apply HS.
Qed.

Lemma test_state_a ma mb mc w : St ma mb mc w -> buffers w !! (g + 1) = Some (storage ma).
Proof using Type.
  intros (-> & _). rewrite !lookup_insert_ne by (clear; lia). apply lookup_insert_eq.
Qed.

Lemma test_state_b ma mb mc w : St ma mb mc w -> buffers w !! (g + 2) = Some (storage mb).
Proof using Type.
  intros (-> & _). rewrite lookup_insert_ne by (clear; lia). apply lookup_insert_eq.
Qed.

Lemma test_state_c ma mb mc w : St ma mb mc w -> buffers w !! (g + 3) = Some (storage mc).
Proof using Type. intros (-> & _). apply lookup_insert_eq. Qed.

Lemma hoare_state_call fn args ma mb mc :
  hoare (St ma mb mc) (call fn args) (fun _ => St ma mb mc).
Proof using Type.
  intros w HS. exists tt, (set_trace (cons (Call fn args)) w).
  split; [reflexivity|]. destruct w.
  eapply test_state_step with (evs := [_]); eauto; try reflexivity. apply HS.
Qed.

Lemma hoare_state_fence ma mb mc :
  hoare (St ma mb mc) fence (fun _ => St ma mb mc).
Proof using Type.
  intros w HS. eexists tt, _. split; [reflexivity|]. destruct w.
  eapply test_state_step with (evs := [_; _]); eauto; try reflexivity. apply HS.
Qed.

Lemma compute_exec_events_quiet ssbo start_bound end_bound value :
  forallb quiet (compute_exec_events ssbo one start_bound end_bound value) = true.
Proof using Type. reflexivity. Qed.

Lemma hoare_compute_exec_a start_bound end_bound value ma mb mc :
  hoare (St ma mb mc) (compute_exec drv (g + 1) one start_bound end_bound value)
    (fun _ => St (device drv (dispatch_uniforms one start_bound end_bound value) ma) mb mc).
Proof using Type.
  intros w HS.
  destruct (compute_exec_run drv (g + 1) one start_bound end_bound value w)
    as (w' & Hrun' & Hbufs & _ & Htr & Hg & He & Hc).
  exists tt, w'. split; [exact Hrun'|].
  eapply test_state_step; eauto using compute_exec_events_quiet.
  rewrite Hbufs. destruct HS as (-> & _).
  rewrite !alter_insert_ne by (clear; lia). now rewrite alter_insert_eq.
Qed.

Lemma hoare_compute_exec_b start_bound end_bound value ma mb mc :
  hoare (St ma mb mc) (compute_exec drv (g + 2) one start_bound end_bound value)
    (fun _ => St ma (device drv (dispatch_uniforms one start_bound end_bound value) mb) mc).
Proof using Type.
  intros w HS.
  destruct (compute_exec_run drv (g + 2) one start_bound end_bound value w)
    as (w' & Hrun' & Hbufs & _ & Htr & Hg & He & Hc).
  exists tt, w'. split; [exact Hrun'|].
  eapply test_state_step; eauto using compute_exec_events_quiet.
  rewrite Hbufs. destruct HS as (-> & _).
  rewrite !alter_insert_ne by (clear; lia). now rewrite alter_insert_eq.
Qed.

Lemma hoare_compute_exec_c start_bound end_bound value ma mb mc :
  hoare (St ma mb mc) (compute_exec drv (g + 3) one start_bound end_bound value)
    (fun _ => St ma mb (device drv (dispatch_uniforms one start_bound end_bound value) mc)).
Proof using Type.
  intros w HS.
  destruct (compute_exec_run drv (g + 3) one start_bound end_bound value w)
    as (w' & Hrun' & Hbufs & _ & Htr & Hg & He & Hc).
  exists tt, w'. split; [exact Hrun'|].
  eapply test_state_step; eauto using compute_exec_events_quiet.
  rewrite Hbufs. destruct HS as (-> & _).
  now rewrite alter_insert_eq.
Qed.

(** The mapped range of a runnable case, element by element. *)
Lemma mapped_elem (m : memory) j :
  load_int m (offset one + 4 * j) = elem m (j + offset one / 4).
Proof.
  destruct (runnable_bounds one Hrun) as [_ Hmul]. unfold elem. f_equal. lia.
Qed.

Section Probe.

Variables (ma mb mc : memory) (id : Z) (m : memory).
Hypothesis Hid : forall w, St ma mb mc w -> buffers w !! id = Some (storage m).

Lemma hoare_probe_inital_state_v :
  hoare (St ma mb mc) (probe_inital_state (Ptr id (offset one) len) one)
    (fun r w => St ma mb mc w /\ (r = true <-> initial_ok one m)).
Proof.
  intros w HS. destruct (runnable_bounds one Hrun) as [Hb Hmul].
  destruct (probe_inital_state_cases w id (offset one) len (storage m) (Hid w HS) one)
    as [(Hok & Hret)|(j & Hj & Hbad & _ & Hret)].
  - unfold values_count. lia.
  - unfold len, values_count. lia.
  - exists true, w. split; [exact Hret|]. split; [exact HS|].
    split; [|reflexivity]. intros _ e He.
    specialize (Hok (e - offset one / 4) ltac:(lia)). cbv beta in Hok.
    cbn [storage bytes] in Hok. rewrite mapped_elem in Hok.
    now replace (e - offset one / 4 + offset one / 4) with e in Hok by lia.
  - eexists false, _. split; [exact Hret|].
    split; [eapply test_state_printed; [exact HS | apply printed_line]|].
    split; [discriminate|]. intros Hok. exfalso. apply Hbad. cbv beta.
    cbn [storage bytes]. rewrite mapped_elem. apply Hok. lia.
Qed.

Lemma untouched_at_elem j :
  untouched_at (offset one) (storage m) one j = true <->
  ((j + offset one / 4) mod stride one <> 0 -> elem m (j + offset one / 4) = fill_value_b).
Proof.
  unfold untouched_at. cbn [storage bytes]. rewrite mapped_elem.
  rewrite orb_true_iff, !Z.eqb_eq. split.
  - intros [H|H] Hne; [contradiction | exact H].
  - intros H. destruct (Z.eq_dec ((j + offset one / 4) mod stride one) 0); auto.
Qed.

Lemma written_at_elem value j :
  written_at (offset one) (storage m) one value j = true <->
  ((j + offset one / 4) mod stride one = 0 -> elem m (j + offset one / 4) = value).
Proof.
  unfold written_at. cbn [storage bytes]. rewrite mapped_elem.
  rewrite orb_true_iff, negb_true_iff, Z.eqb_neq, Z.eqb_eq. split.
  - intros [H|H] Hne; [contradiction | exact H].
  - intros H. destruct (Z.eq_dec ((j + offset one / 4) mod stride one) 0); auto.
Qed.

Lemma untouched_all_elem :
  (forall j, 0 <= j < values_count - offset one / 4 ->
             untouched_at (offset one) (storage m) one j = true) <->
  (forall e, offset one / 4 <= e < values_count -> e mod stride one <> 0 ->
             elem m e = fill_value_b).
Proof.
  split.
  - intros H e He Hne. specialize (H (e - offset one / 4) ltac:(lia)).
    apply untouched_at_elem in H;
      replace (e - offset one / 4 + offset one / 4) with e in * by lia; auto.
  - intros H j Hj. apply untouched_at_elem. intros Hne. apply H; [lia | exact Hne].
Qed.

Lemma written_all_elem start_bound end_bound value :
  (forall j, start_bound - offset one / 4 <= j < end_bound - offset one / 4 ->
             written_at (offset one) (storage m) one value j = true) <->
  (forall e, start_bound <= e < end_bound -> e mod stride one = 0 -> elem m e = value).
Proof.
  split.
  - intros H e He Hne. specialize (H (e - offset one / 4) ltac:(lia)).
    apply written_at_elem in H;
      replace (e - offset one / 4 + offset one / 4) with e in * by lia; auto.
  - intros H j Hj. apply written_at_elem. intros Hne. apply H; [lia | exact Hne].
Qed.

Lemma hoare_probe_value_in_range_v start_bound end_bound value :
  0 <= start_bound <= values_count -> 15000 <= end_bound <= values_count ->
  hoare (St ma mb mc)
    (probe_value_in_range (Ptr id (offset one) len) one start_bound end_bound value)
    (fun r w => St ma mb mc w /\ (r = true <-> range_ok one start_bound end_bound value m)).
Proof.
  intros Hs He w HS. destruct (runnable_bounds one Hrun) as [Hb Hmul].
  assert (Hoff : 0 <= offset one / 4 <= values_count) by (unfold values_count; lia).
  assert (Hlen : 4 * (values_count - offset one / 4) <= len)
    by (unfold len, values_count; lia).
  assert (Hstride : stride one <> 0) by apply Hrun.
  unfold range_ok.
  destruct (Z_lt_le_dec start_bound (offset one / 4)) as [Hlt|Hge].
  - destruct (probe_value_in_range_wrapped_cases w id (offset one) len (storage m)
                (Hid w HS) one Hoff Hlen Hstride start_bound end_bound value)
      as [(Hok & Hret)|(j & Hj & Hbad & _ & Hret)]; [lia | lia | |].
    + exists true, w. split; [exact Hret|]. split; [exact HS|].
      split; [|reflexivity]. intros _. split; [now apply untouched_all_elem | lia].
    + eexists false, _. split; [exact Hret|].
      split; [eapply test_state_printed; [exact HS | apply printed_line]|].
      split; [discriminate|]. intros [Hok _].
      pose proof (proj2 untouched_all_elem Hok) as Hok'.
      rewrite Hok' in Hbad by lia. discriminate.
  - destruct (probe_value_in_range_cases w id (offset one) len (storage m)
                (Hid w HS) one Hstride Hoff Hlen start_bound end_bound value)
      as [(Hok & Hw & Hret)|[(j & Hj & Hbad & _ & Hret)|(j & _ & Hj & Hbad & _ & Hret)]];
      [lia | lia | | |].
    + exists true, w. split; [exact Hret|]. split; [exact HS|].
      split; [|reflexivity]. intros _.
      split; [now apply untouched_all_elem | intros _; now apply written_all_elem].
    + eexists false, _. split; [exact Hret|].
      split; [eapply test_state_printed; [exact HS | apply printed_line]|].
      split; [discriminate|]. intros [Hok _].
      pose proof (proj2 untouched_all_elem Hok) as Hok'.
      rewrite Hok' in Hbad by lia. discriminate.
    + eexists false, _. split; [exact Hret|].
      split; [eapply test_state_printed; [exact HS | apply printed_line]|].
      split; [discriminate|]. intros [_ Hok].
      pose proof (proj2 (written_all_elem start_bound end_bound value) (Hok Hge)) as Hok'.
      rewrite Hok' in Hbad by lia. discriminate.
Qed.

Lemma hoare_probe_offseted_v :
  hoare (St ma mb mc) (probe_offseted_part_of_ssbo id one)
    (fun r w => St ma mb mc w /\ (r = true <-> prefix_ok one m)).
Proof.
  intros w HS. destruct (runnable_bounds one Hrun) as [Hb Hmul].
  destruct (probe_offseted_part_of_ssbo_cases id one w (storage m) (Hid w HS))
    as [(E & Hret)|[(E & Hok & Hret)|(j & E & Hj & Hbad & _ & Hret)]];
    [unfold values_count; lia | reflexivity | | |].
  - exists true, w. split; [exact Hret|]. split; [exact HS|].
    split; [|reflexivity]. intros _ e He. rewrite E in He. change (0 / 4) with 0 in He. lia.
  - eexists true, _. split; [exact Hret|].
    split; [now apply test_state_remapped|].
    split; [|reflexivity]. intros _ e He. apply Hok, He.
  - eexists false, _. split; [exact Hret|].
    split; [eapply test_state_printed;
            [apply test_state_remapped; exact HS | apply printed_line]|].
    split; [discriminate|]. intros Hok. exfalso. apply Hbad, Hok, Hj.
Qed.

End Probe.

(** [pass &= probe (...)], the earlier probes having asked [earlier]. *)
Lemma hoare_and_probe_v (earlier ok : Prop) pass (probe : M world bool) ma mb mc :
  hoare (St ma mb mc) probe (fun r w => St ma mb mc w /\ (r = true <-> ok)) ->
  hoare (fun w => St ma mb mc w /\ (pass = true <-> earlier)) (and_probe pass probe)
    (fun r w => St ma mb mc w /\ (r = true <-> earlier /\ ok)).
Proof using Type.
  intros H w [HS Hpass]. destruct (H w HS) as (r & w' & Hret & HS' & Hr).
  exists (pass && r), w'. unfold and_probe. rewrite (bind_Ret _ _ _ _ _ Hret).
  split; [reflexivity|]. split; [exact HS'|].
  rewrite andb_true_iff. tauto.
Qed.

End TestSteps.

(** *** A whole test, with the bytes of its buffers *)

Lemma init_ssbo_events_quiet id : forallb quiet (init_ssbo_events id) = true.
Proof. reflexivity. Qed.

Lemma map_ssbo_events_quiet id off : forallb quiet (map_ssbo_events id off) = true.
Proof. reflexivity. Qed.

Lemma allocation_events_quiet one g : forallb quiet (allocation_events one g) = true.
Proof.
  unfold allocation_events.
  now rewrite !forallb_app, !init_ssbo_events_quiet, !map_ssbo_events_quiet.
Qed.

(** [test_script] on a runnable case, the error checks passing: it returns
    what [test_verdict] says, and leaves its three buffers as the device has
    left them after the third stage. *)
Lemma test_script_verdict EXIT_SKIP drv one w :
  runnable one ->
  glGetError drv (errors_read w) = GL_NO_ERROR ->
  glGetError drv (S (errors_read w)) = GL_NO_ERROR ->
  glGetError drv (S (S (errors_read w))) = GL_NO_ERROR ->
  exists pass w',
    test_script EXIT_SKIP drv one w = Ret pass w' /\
    test_state (generated w) (buffers w) (trace w) (test_cases w)
      (S (S (S (errors_read w))))
      (buff_a_3 (device drv) (fresh_storage drv) one)
      (buff_b_3 (device drv) (fresh_storage drv) one)
      (buff_c_3 (device drv) (fresh_storage drv) one) w' /\
    (pass = true <-> test_verdict (device drv) (fresh_storage drv) one).
Proof.
  intros Hrun He0 He1 He2. set (g := generated w).
  destruct (runnable_bounds one Hrun) as [Hb Hmul].
  assert (Hoff : 0 <= offset one < values_count * 4) by (unfold values_count; lia).
  unfold test_script. cbv zeta.
  (* the first buffer *)
  destruct (init_ssbo_run EXIT_SKIP drv w He0) as (w1 & R1 & B1 & T1 & G1 & E1 & C1).
  fold g in R1, B1, T1, G1. rewrite (bind_Ret _ _ _ _ _ R1).
  destruct (map_ssbo_run (g + 1) (offset one) w1 _
              ltac:(rewrite B1; apply lookup_insert_eq) eq_refl Hoff)
    as (w2 & R2 & B2 & T2 & G2 & E2 & C2).
  rewrite (bind_Ret _ _ _ _ _ R2).
  (* the second buffer *)
  destruct (init_ssbo_run EXIT_SKIP drv w2) as (w3 & R3 & B3 & T3 & G3 & E3 & C3);
    [congruence|].
  rewrite G2, G1 in R3, B3, T3, G3. replace (g + 1 + 1) with (g + 2) in * by lia.
  rewrite (bind_Ret _ _ _ _ _ R3).
  destruct (map_ssbo_run (g + 2) (offset one) w3 _
              ltac:(rewrite B3; apply lookup_insert_eq) eq_refl Hoff)
    as (w4 & R4 & B4 & T4 & G4 & E4 & C4).
  rewrite (bind_Ret _ _ _ _ _ R4).
  (* the third buffer *)
  destruct (init_ssbo_run EXIT_SKIP drv w4) as (w5 & R5 & B5 & T5 & G5 & E5 & C5);
    [congruence|].
  rewrite G4, G3 in R5, B5, T5, G5. replace (g + 2 + 1) with (g + 3) in * by lia.
  rewrite (bind_Ret _ _ _ _ _ R5).
  destruct (map_ssbo_run (g + 3) (offset one) w5 _
              ltac:(rewrite B5; apply lookup_insert_eq) eq_refl Hoff)
    as (w6 & R6 & B6 & T6 & G6 & E6 & C6).
  rewrite (bind_Ret _ _ _ _ _ R6).
  cbn [ssbo_id data].
  change (uint32 (values_count / 3)) with 15000.
  change (uint32 (2 * 15000)) with 30000.
  change (uint32 values_count) with 45000.
  set (m0 := filled (fresh_storage drv) one).
  set (St := test_state g (buffers w) (trace w) (test_cases w) (S (S (S (errors_read w))))).
  assert (HS : St m0 m0 m0 w6 /\ (true = true <-> True)).
  { split; [|tauto]. split; [|split; [|repeat split; congruence]].
    - rewrite B6, B5, B4, B3, B2, B1. rewrite !insert_insert_eq. reflexivity.
    - exists (allocation_events one g). split; [|apply allocation_events_quiet].
      rewrite T6, T5, T4, T3, T2, T1. unfold allocation_events.
      now rewrite <- !app_assoc. }
  revert HS. generalize w6.
  match goal with
  | |- forall w0, _ -> exists p w', ?m w0 = Ret p w' /\ _ =>
      enough (Hh : exists earlier,
                 hoare (fun w0 => St m0 m0 m0 w0 /\ (true = true <-> True)) m
                   (fun p w' =>
                      St (buff_a_3 (device drv) (fresh_storage drv) one)
                         (buff_b_3 (device drv) (fresh_storage drv) one)
                         (buff_c_3 (device drv) (fresh_storage drv) one) w' /\
                      (p = true <-> earlier)) /\
                 (earlier <-> test_verdict (device drv) (fresh_storage drv) one))
  end.
  { destruct Hh as (earlier & Hh & Hiff). intros w0 Hw0.
    destruct (Hh w0 Hw0) as (p & w' & Hret & HS' & Hp).
    exists p, w'. split; [exact Hret|]. split; [exact HS'|]. now rewrite Hp. }
  eexists. split.
  - unfold St.
    repeat (eapply hoare_bind;
            [ lazymatch goal with
              | |- hoare _ (and_probe _ (probe_inital_state _ _)) _ =>
                  apply hoare_and_probe_v; eapply hoare_probe_inital_state_v
              | |- hoare _ (and_probe _ (probe_value_in_range _ _ _ _ _)) _ =>
                  apply hoare_and_probe_v; eapply hoare_probe_value_in_range_v
              | |- hoare _ (and_probe _ (probe_offseted_part_of_ssbo _ _)) _ =>
                  apply hoare_and_probe_v; eapply hoare_probe_offseted_v
              | |- hoare _ (call _ _) _ => apply hoare_frame; apply hoare_state_call
              | |- hoare _ fence _ => apply hoare_frame; apply hoare_state_fence
              | |- hoare _ (compute_exec _ (_ + 1) _ _ _ _) _ =>
                  apply hoare_frame; apply (hoare_compute_exec_a drv)
              | |- hoare _ (compute_exec _ (_ + 2) _ _ _ _) _ =>
                  apply hoare_frame; apply (hoare_compute_exec_b drv)
              | |- hoare _ (compute_exec _ (_ + 3) _ _ _ _) _ =>
                  apply hoare_frame; apply (hoare_compute_exec_c drv)
              end;
              first [ exact Hrun | apply test_state_a | apply test_state_b
                    | apply test_state_c | unfold values_count; lia ]
            | intros ?; cbv beta ]).
    apply hoare_ret. intros w0 Hw0. exact Hw0.
  - unfold test_verdict, buff_a_3, buff_b_3, buff_c_3, buff_a_2, buff_b_2, buff_b_1.
    fold m0. tauto.
Qed.

(** *** A device that runs the shader as written *)

Lemma load_int_fill_value_b (mem : memory) a :
  mem a = uint8 fill_value_b -> mem (a + 1) = uint8 fill_value_b ->
  mem (a + 2) = uint8 fill_value_b -> mem (a + 3) = uint8 fill_value_b ->
  load_int mem a = fill_value_b.
Proof. intros H0 H1 H2 H3. unfold load_int. rewrite H0, H1, H2, H3. reflexivity. Qed.

(** The elements of new storage once [init_ssbo] and [map_ssbo] have filled
    it: [fill_value_a] below the offset, [fill_value_b] from it. *)
Lemma elem_filled fresh one e :
  runnable one -> 0 <= e < values_count ->
  elem (filled fresh one) e =
    if e <? offset one / 4 then fill_value_a else fill_value_b.
Proof.
  intros Hrun He. destruct (runnable_bounds one Hrun) as [Hb Hmul].
  assert (Hbyte : forall k, 0 <= k < 4 ->
            filled fresh one (4 * e + k) =
            if e <? offset one / 4 then uint8 fill_value_a else uint8 fill_value_b).
  { intros k Hk. unfold filled, write_bytes, values_count in *.
    destruct (Z.ltb_spec e (offset one / 4)).
    - destruct (Z.leb_spec (offset one) (4 * e + k)); [lia|]. cbn [andb].
      destruct (Z.leb_spec 0 (4 * e + k)); [|lia].
      destruct (Z.ltb_spec (4 * e + k) (0 + 45000 * 4)); [reflexivity | lia].
    - destruct (Z.leb_spec (offset one) (4 * e + k)); [|lia].
      destruct (Z.ltb_spec (4 * e + k) (offset one + (45000 * 4 - offset one)));
        [reflexivity | lia]. }
  pose proof (Hbyte 0 ltac:(lia)) as H0. rewrite Z.add_0_r in H0.
  pose proof (Hbyte 1 ltac:(lia)) as H1.
  pose proof (Hbyte 2 ltac:(lia)) as H2.
  pose proof (Hbyte 3 ltac:(lia)) as H3.
  unfold elem. destruct (e <? offset one / 4).
  - now apply load_int_fill_value_a.
  - now apply load_int_fill_value_b.
Qed.

Lemma modifed_value_range : - 2 ^ 31 <= modifed_value < 2 ^ 31.
Proof. vm_compute. split; [discriminate | reflexivity]. Qed.

Lemma remodifed_value_range : - 2 ^ 31 <= remodifed_value < 2 ^ 31.
Proof. vm_compute. split; [discriminate | reflexivity]. Qed.

(** An element after [compute_exec] on a device that runs the shader. *)
Lemma elem_dispatch one start_bound end_bound value mem e :
  stride one <> 0 ->
  - 2 ^ 31 <= value < 2 ^ 31 -> 0 <= e < values_count ->
  elem (run_shader (dispatch_uniforms one start_bound end_bound value) mem) e =
    if (Z.max (offset one) start_bound <=? e) && (e <? end_bound)
       && (e mod stride one =? 0)
    then value else elem mem e.
Proof.
  intros Hs Hv He. rewrite elem_run_shader by exact Hv.
  unfold writes, dispatch_uniforms. cbn [u_stride u_start_bound u_end_bound u_value].
  rewrite (glsl_mod_is_0_mod e (stride one) Hs).
  unfold values_count in He.
  destruct (Z.leb_spec 0 e); [|lia]. destruct (Z.ltb_spec e (45 * 1000)); [|lia].
  reflexivity.
Qed.

Ltac elems :=
  unfold buff_a_3, buff_b_3, buff_c_3, buff_a_2, buff_b_2, buff_b_1;
  rewrite ?elem_dispatch
    by first [ assumption | apply modifed_value_range | apply remodifed_value_range
             | unfold values_count in *; lia ];
  rewrite elem_filled by first [ assumption | unfold values_count in *; lia ].

Ltac cases :=
  repeat match goal with
  | |- context [?a <=? ?b] => destruct (Z.leb_spec a b); cbn [andb]
  | |- context [?a <? ?b] => destruct (Z.ltb_spec a b); cbn [andb]
  | |- context [?a =? ?b] => destruct (Z.eqb_spec a b); cbn [andb]
  end.

(** On a device that runs the shader as written, a test on a runnable case
    passes exactly when no multiple of the stride lies in the second third
    of the elements and below [offset]: [compute_exec] compares the offset,
    a count of bytes, with bounds that count elements, so such an element,
    which the probes of the third stage expect written, is not. *)
Lemma conforming_verdict fresh one :
  runnable one ->
  test_verdict run_shader fresh one <->
  (forall e, 15000 <= e < 30000 -> e < offset one -> e mod stride one <> 0).
Proof.
  intros Hrun. destruct (runnable_bounds one Hrun) as [Hb Hmul].
  assert (Hs : stride one <> 0) by apply Hrun.
  assert (Hxb : modifed_value <> fill_value_b) by (vm_compute; discriminate).
  assert (Hyb : remodifed_value <> fill_value_b) by (vm_compute; discriminate).
  split.
  - intros (_ & _ & _ & _ & _ & _ & [_ Hy] & _) e He Ho Hmod.
    specialize (Hy ltac:(lia) e He Hmod). revert Hy. elems.
    cases; try lia; congruence.
  - intros Hno. unfold test_verdict, initial_ok, range_ok, prefix_ok.
    repeat split; intros; elems; cases; try lia; try congruence;
      try (exfalso; eapply Hno; eauto; lia).
Qed.

(** *** What the probes establish *)

(** X1.  [probe_inital_state] returns [true] exactly when every element of
    the mapped range holds [fill_value_b]; otherwise it returns [false],
    having printed the index and the value of the first element that does
    not, under the name [inprobe_inital_state]. *)
Theorem probe_inital_state_spec (w : world) (b base len : Z) (bf : buffer)
  (one : test_case) :
  let off4 := offset one / 4 in
  let data := Ptr b base len in
  let o := probe_inital_state data one w in
  buffers w !! b = Some bf ->
  0 <= off4 <= values_count ->
  4 * (values_count - off4) <= len ->
  ((exists w', o = Ret true w') <->
   forall i, 0 <= i < values_count - off4 -> element w data i = Some fill_value_b) /\
  (o = Ret true w \/
   exists i v,
     o = Ret false (set_trace (cons (mismatch_line "inprobe_inital_state" i v)) w) /\
     0 <= i < values_count - off4 /\
     element w data i = Some v /\ v <> fill_value_b /\
     forall j, 0 <= j < i -> element w data j = Some fill_value_b).
Proof.
  intros off4 data o Hbuf Hoff Hlen.
  assert (Hel : forall i, 0 <= i < values_count - off4 ->
            element w data i = Some (load_int (bytes bf) (base + 4 * i))).
  { intros i Hi. apply (element_run w b base len bf Hbuf); lia. }
  destruct (probe_inital_state_cases w b base len bf Hbuf one Hoff Hlen)
    as [(Hok & Hret)|(j & Hj & Hbad & Hfirst & Hret)]; cbv beta in *;
    fold off4 in Hok || fold off4 in Hj, Hfirst; fold data o in Hret.
  - split; [|now left]. split; [|now exists w].
    intros _ i Hi. rewrite Hel by exact Hi. now rewrite Hok.
  - split.
    + split.
      * intros (w' & Hw'). rewrite Hret in Hw'. discriminate.
      * intros Hall. exfalso. apply Hbad.
        specialize (Hall j Hj). rewrite Hel in Hall by exact Hj. congruence.
    + right. exists j, (load_int (bytes bf) (base + 4 * j)).
      repeat split; try lia; auto.
      intros i Hi. rewrite Hel by lia. now rewrite Hfirst.
Qed.

Lemma probe_inital_state_spec_witness :
  let one := {| stride := 4096; offset := 4096 |} in
  let data := Ptr 1 4096 175904 in
  (exists w', probe_inital_state data one b_filled_world = Ret true w') <->
  forall i, 0 <= i < values_count - 1024 -> element b_filled_world data i = Some fill_value_b.
Proof.
  intros one data.
  apply (probe_inital_state_spec b_filled_world 1 4096 175904
           {| size := values_count * 4; bytes := fun _ => uint8 fill_value_b |} one).
  - reflexivity.
  - vm_compute. split; discriminate.
  - vm_compute. discriminate.
Defined.

(** X2.  [probe_offseted_part_of_ssbo] on a test case with offset 0 returns
    [true] without a call; otherwise it binds the buffer, unmaps it and maps
    its first [offset] bytes, and returns [true] exactly when every [int] of
    them holds [fill_value_a], printing the first that does not. *)
Theorem probe_offseted_part_of_ssbo_spec (ssbo : Z) (one : test_case) (w : world)
  (bf : buffer) :
  let o := probe_offseted_part_of_ssbo ssbo one w in
  buffers w !! ssbo = Some bf ->
  0 <= offset one <= values_count * 4 -> size bf = values_count * 4 ->
  (offset one = 0 -> o = Ret true w) /\
  (offset one <> 0 ->
   final_world o = remapped ssbo one w \/
   exists i v, final_world o =
     set_trace (cons (mismatch_line "probe_offseted_part_of_ssbo" i v)) (remapped ssbo one w) /\
     0 <= i < offset one / 4 /\ elem (bytes bf) i = v /\ v <> fill_value_a /\
     forall j, 0 <= j < i -> elem (bytes bf) j = fill_value_a) /\
  (exists r w', o = Ret r w' /\
     (r = true <-> forall i, 0 <= i < offset one / 4 -> elem (bytes bf) i = fill_value_a)).
Proof.
  intros o Hbuf Hoff Hsize.
  destruct (probe_offseted_part_of_ssbo_cases ssbo one w bf Hbuf Hoff Hsize)
    as [(E & Hret)|[(E & Hok & Hret)|(j & E & Hj & Hbad & Hfirst & Hret)]];
    cbv zeta in *; fold o in Hret; rewrite Hret; cbn [final_world].
  - split; [reflexivity|]. split; [contradiction|].
    exists true, w. split; [reflexivity|]. split; [|reflexivity].
    intros _ i Hi. rewrite E in Hi. change (0 / 4) with 0 in Hi. lia.
  - split; [contradiction|]. split; [now left|].
    eexists true, _. split; [reflexivity|]. split; [|reflexivity]. intros _. exact Hok.
  - split; [contradiction|]. split.
    + intros _. right. exists j, (load_int (bytes bf) (4 * j)).
      repeat split; try lia; auto.
    + eexists false, _. split; [reflexivity|]. split; [discriminate|].
      intros Hok. exfalso. apply Hbad, Hok, Hj.
Qed.

Lemma probe_offseted_part_of_ssbo_spec_witness :
  exists r w',
    probe_offseted_part_of_ssbo 1 {| stride := 4096; offset := 4096 |} b_filled_world
      = Ret r w' /\
    (r = true <->
     forall i, 0 <= i < 1024 -> elem (fun _ => uint8 fill_value_b) i = fill_value_a).
Proof.
  apply (probe_offseted_part_of_ssbo_spec 1 {| stride := 4096; offset := 4096 |}
           b_filled_world
           {| size := values_count * 4; bytes := fun _ => uint8 fill_value_b |}).
  - reflexivity.
  - vm_compute. split; discriminate.
  - reflexivity.
Defined.

(** X3.  With a start bound below the mapping ([start_bound < offset / 4],
    as in every call of the tests with start bound 0 on a case with an
    offset), [probe_value_in_range] checks no written value: it returns
    [true] exactly when the elements that are not multiples of the stride
    hold [fill_value_b], whatever [value] and the bounds are. *)
Theorem probe_value_in_range_below_offset (w : world) (b base len : Z) (bf : buffer)
  (one : test_case) (start_bound end_bound value : Z) :
  let off4 := offset one / 4 in
  let data := Ptr b base len in
  let o := probe_value_in_range data one start_bound end_bound value w in
  buffers w !! b = Some bf ->
  stride one <> 0 ->
  4 * (values_count - off4) <= len ->
  0 <= start_bound < off4 ->
  off4 <= end_bound <= values_count ->
  ((exists w', o = Ret true w') <-> untouched_ok w data one) /\
  (forall start_bound' end_bound' value',
     0 <= start_bound' < off4 -> off4 <= end_bound' <= values_count ->
     probe_value_in_range data one start_bound' end_bound' value' w = o).
Proof.
  intros off4 data o Hbuf Hstride Hlen Hs He.
  assert (Hoff : 0 <= off4 <= values_count) by lia.
  pose proof (untouched_ok_iff w b base len bf Hbuf one Hlen) as Hiff.
  assert (Hdet : forall s e v, 0 <= s < off4 -> off4 <= e <= values_count ->
            ((forall j, 0 <= j < values_count - off4 -> untouched_at base bf one j = true) /\
             probe_value_in_range data one s e v w = Ret true w) \/
            (exists j, 0 <= j < values_count - off4 /\ untouched_at base bf one j = false /\
               (forall j', 0 <= j' < j -> untouched_at base bf one j' = true) /\
               probe_value_in_range data one s e v w =
                 Ret false (set_trace (cons (mismatch_line "probe_value_in_range" j
                                               (load_int (bytes bf) (base + 4 * j)))) w))).
  { intros s e v Hs' He'.
    apply (probe_value_in_range_wrapped_cases w b base len bf Hbuf one Hoff Hlen Hstride
             s e v Hs' He'). }
  split.
  - destruct (Hdet start_bound end_bound value Hs He) as [(Hok & Hret)|(j & Hj & Hbad & _ & Hret)];
      fold o in Hret.
    + split; [intros _; now apply Hiff | now exists w].
    + split.
      * intros (w' & Hw'). rewrite Hret in Hw'. discriminate.
      * intros Hu. pose proof (proj1 Hiff Hu j Hj) as Hj'. congruence.
  - intros s e v Hs' He'.
    destruct (Hdet start_bound end_bound value Hs He) as [(Hok & Hret)|(j & Hj & Hbad & Hf & Hret)];
    destruct (Hdet s e v Hs' He') as [(Hok' & Hret')|(j' & Hj' & Hbad' & Hf' & Hret')];
      fold o in Hret; rewrite Hret, Hret'; try reflexivity.
    + rewrite Hok in Hbad' by exact Hj'. discriminate.
    + rewrite Hok' in Hbad by exact Hj. discriminate.
    + assert (j' = j); [|now subst].
      destruct (Z.lt_trichotomy j' j) as [Hlt|[Heq|Hgt]]; [|exact Heq|].
      * rewrite Hf in Hbad' by lia. discriminate.
      * rewrite Hf' in Hbad by lia. discriminate.
Qed.

Lemma probe_value_in_range_below_offset_witness :
  let one := {| stride := 4096; offset := 4096 |} in
  let data := Ptr 1 4096 175904 in
  (exists w', probe_value_in_range data one 0 15000 modifed_value b_filled_world = Ret true w')
  <-> untouched_ok b_filled_world data one.
Proof.
  intros one data.
  apply (probe_value_in_range_below_offset b_filled_world 1 4096 175904
           {| size := values_count * 4; bytes := fun _ => uint8 fill_value_b |} one
           0 15000 modifed_value).
  - reflexivity.
  - discriminate.
  - vm_compute. discriminate.
  - vm_compute. split; [discriminate | reflexivity].
  - vm_compute. split; discriminate.
Defined.

(** The second loop of [probe_value_in_range], both bounds below the mapping. *)
Lemma written_loop_before_mapping (w : world) (b base len : Z)
  (bf : buffer) (one : test_case) (start_bound end_bound value : Z) :
  let off4 := offset one / 4 in
  let data := Ptr b base len in
  buffers w !! b = Some bf ->
  stride one <> 0 ->
  0 <= off4 <= values_count ->
  4 * (values_count - off4) <= len ->
  0 <= start_bound < end_bound -> end_bound < off4 ->
  start_bound mod stride one = 0 ->
  untouched_ok w data one ->
  read data (start_bound - off4) w = Undef w /\
  probe_value_in_range data one start_bound end_bound value w = Undef w.
Proof.
  intros off4 data Hbuf Hstride Hoff Hlen Hs He Hmod Hu.
  assert (Hread : read data (start_bound - off4) w = Undef w).
  { unfold data, read. destruct (Z.leb_spec 0 (4 * (start_bound - off4))); [lia|].
    reflexivity. }
  split; [exact Hread|].
  unfold probe_value_in_range. fold off4.
  rewrite (uint32_small (values_count - off4)) by (unfold values_count in *; lia).
  rewrite (untouched_loop_ok w b base len bf Hbuf one Hstride Hoff Hlen);
    [| unfold values_count in *; lia | unfold loop_fuel, values_count in *; lia
     | apply (untouched_ok_iff w b base len bf Hbuf one Hlen); exact Hu ].
  assert (Hi0 : int32 (uint32 (start_bound - off4)) = start_bound - off4).
  { rewrite int32_uint32. apply int32_small. unfold values_count in *. lia. }
  rewrite Hi0. unfold loop_fuel. cbn [written_loop]. fold off4.
  rewrite (uint32_neg (start_bound - off4)) by (unfold values_count in *; lia).
  rewrite (uint32_neg (end_bound - off4)) by (unfold values_count in *; lia).
  destruct (Z.ltb_spec (start_bound - off4 + 2 ^ 32) (end_bound - off4 + 2 ^ 32)); [|lia].
  unfold bind at 1.
  rewrite (shifted_rem_run w one (start_bound - off4) Hstride)
    by (fold off4; unfold values_count in *; lia).
  fold off4. replace (start_bound - off4 + off4) with start_bound by lia.
  rewrite Hmod. cbn [Z.eqb]. unfold bind at 1. fold data. now rewrite Hread.
Qed.

(** X4.  With both bounds below the mapping ([end_bound < offset / 4], as in
    the first stage on a case whose offset is past the first third of the
    buffer) the second loop of [probe_value_in_range] does run, from the
    negative index [start_bound - offset / 4]: once the first loop has
    passed, a start bound that is a multiple of the stride makes it read
    [data[start_bound - offset / 4]], before the mapped range. *)
Theorem probe_value_in_range_reads_before_mapping (w : world) (b base len : Z)
  (bf : buffer) (one : test_case) (start_bound end_bound value : Z) :
  let off4 := offset one / 4 in
  let data := Ptr b base len in
  buffers w !! b = Some bf ->
  stride one <> 0 ->
  0 <= off4 <= values_count ->
  4 * (values_count - off4) <= len ->
  0 <= start_bound < end_bound -> end_bound < off4 ->
  start_bound mod stride one = 0 ->
  untouched_ok w data one ->
  read data (start_bound - off4) w = Undef w /\
  probe_value_in_range data one start_bound end_bound value w = Undef w.
Proof.
  intros off4 data. apply written_loop_before_mapping.
Qed.

Lemma probe_value_in_range_reads_before_mapping_witness :
  let one := {| stride := 65536; offset := 65536 |} in
  let data := Ptr 1 65536 114464 in
  untouched_ok b_filled_world data one /\
  probe_value_in_range data one 0 15000 modifed_value b_filled_world = Undef b_filled_world.
Proof.
  intros one data.
  assert (Hu : untouched_ok b_filled_world data one).
  { intros i Hi _. unfold element, data, read.
    change (offset one / 4) with 16384 in Hi. unfold values_count in Hi.
    destruct (Z.leb_spec 0 (4 * i)); [|lia].
    destruct (Z.leb_spec (4 * i + 4) 114464); [|lia]. reflexivity. }
  split; [exact Hu|].
  apply (probe_value_in_range_reads_before_mapping b_filled_world 1 65536 114464
           {| size := values_count * 4; bytes := fun _ => uint8 fill_value_b |} one
           0 15000 modifed_value); try exact Hu.
  - reflexivity.
  - discriminate.
  - vm_compute. split; discriminate.
  - vm_compute. discriminate.
  - lia.
  - reflexivity.
  - reflexivity.
Defined.

(** *** What a test returns *)

(** X5.  [test_script] on a runnable case, the three error checks passing,
    returns the conjunction of what its probes ask ([test_verdict]); it leaves
    the three buffers it has created with the bytes the device has left after
    the third stage, and every other buffer as it was. *)
Theorem test_script_result EXIT_SKIP drv one w :
  runnable one ->
  glGetError drv (errors_read w) = GL_NO_ERROR ->
  glGetError drv (S (errors_read w)) = GL_NO_ERROR ->
  glGetError drv (S (S (errors_read w))) = GL_NO_ERROR ->
  let g := generated w in
  let dev := device drv in
  let fresh := fresh_storage drv in
  exists pass w',
    test_script EXIT_SKIP drv one w = Ret pass w' /\
    (pass = true <-> test_verdict dev fresh one) /\
    buffers w' !! (g + 1) = Some (storage (buff_a_3 dev fresh one)) /\
    buffers w' !! (g + 2) = Some (storage (buff_b_3 dev fresh one)) /\
    buffers w' !! (g + 3) = Some (storage (buff_c_3 dev fresh one)) /\
    (forall id, id <> g + 1 -> id <> g + 2 -> id <> g + 3 ->
                buffers w' !! id = buffers w !! id) /\
    generated w' = g + 3 /\ test_cases w' = test_cases w.
Proof.
  intros Hrun He0 He1 He2 g dev fresh.
  destruct (test_script_verdict EXIT_SKIP drv one w Hrun He0 He1 He2)
    as (pass & w' & Hret & (Hb & _ & Hc & _ & Hg) & Hpass).
  exists pass, w'. fold g in Hb, Hg. fold dev fresh in Hb, Hpass.
  split; [exact Hret|]. split; [exact Hpass|]. rewrite Hb.
  split; [rewrite !lookup_insert_ne by lia; apply lookup_insert_eq|].
  split; [rewrite lookup_insert_ne by lia; apply lookup_insert_eq|].
  split; [apply lookup_insert_eq|].
  split; [|auto].
  intros id H1 H2 H3. now rewrite !lookup_insert_ne by congruence.
Qed.

Lemma test_script_result_witness :
  exists pass w',
    test_script 125 lossy_platform {| stride := 4096; offset := 4096 |} initial_world
      = Ret pass w' /\
    (pass = true <->
     test_verdict lossy_device (fun _ => 0) {| stride := 4096; offset := 4096 |}).
Proof.
  destruct (test_script_result 125 lossy_platform {| stride := 4096; offset := 4096 |}
              initial_world) as (pass & w' & Hret & Hpass & _).
  - vm_compute. repeat split; discriminate.
  - reflexivity.
  - reflexivity.
  - reflexivity.
  - exists pass, w'. split; [exact Hret | exact Hpass].
Defined.

(** X6.  On a device that runs the compute shader as it is written, a test
    on a runnable case passes exactly when no multiple of the stride lies
    both in the second third of the elements, [15000, 30000), and below
    [offset]: [compute_exec] takes the maximum of the offset, a count of
    bytes, and the start bound, a count of elements, so the dispatches of
    the third stage leave such an element unwritten, and the probes of that
    stage expect it written. *)
Theorem test_script_on_run_shader EXIT_SKIP drv one w :
  runnable one ->
  device drv = run_shader ->
  glGetError drv (errors_read w) = GL_NO_ERROR ->
  glGetError drv (S (errors_read w)) = GL_NO_ERROR ->
  glGetError drv (S (S (errors_read w))) = GL_NO_ERROR ->
  exists pass w',
    test_script EXIT_SKIP drv one w = Ret pass w' /\
    (pass = true <->
     forall e, 15000 <= e < 30000 -> e < offset one -> e mod stride one <> 0).
Proof.
  intros Hrun Hdev He0 He1 He2.
  destruct (test_script_verdict EXIT_SKIP drv one w Hrun He0 He1 He2)
    as (pass & w' & Hret & _ & Hpass).
  exists pass, w'. split; [exact Hret|].
  rewrite Hpass, Hdev. now apply conforming_verdict.
Qed.

Lemma test_script_on_run_shader_witness :
  (exists w', test_script 125 shader_platform {| stride := 4096; offset := 4092 |}
                initial_world = Ret true w') /\
  (exists w', test_script 125 (platform supports_literal 16384 run_shader)
                {| stride := 16384; offset := 16388 |} initial_world = Ret false w').
Proof.
  split.
  - destruct (test_script_on_run_shader 125 shader_platform
                {| stride := 4096; offset := 4092 |} initial_world)
      as (pass & w' & Hret & Hpass); try reflexivity.
    { vm_compute. repeat split; discriminate. }
    cbn [offset stride] in Hpass.
    assert (pass = true) as -> by (apply Hpass; intros; lia).
    now exists w'.
  - destruct (test_script_on_run_shader 125 (platform supports_literal 16384 run_shader)
                {| stride := 16384; offset := 16388 |} initial_world)
      as (pass & w' & Hret & Hpass); try reflexivity.
    { vm_compute. repeat split; discriminate. }
    cbn [offset stride] in Hpass.
    destruct pass; [|now exists w'].
    exfalso. apply (proj1 Hpass eq_refl 16384); [lia | lia | reflexivity].
Defined.

(** *** The run of [main], test by test *)

Lemma run_reaches_tests EXIT_SKIP drv argc argv :
  glfwCreateWindow_ok drv = true ->
  gladLoadGLLoader_ok drv = true ->
  GLAD_GL_VERSION_4_4 drv <> 0 \/ glfwExtensionSupported drv "extension" = true ->
  glCreateProgram drv <> 0 ->
  exists w0,
    run EXIT_SKIP drv argc argv = tests_and_exit EXIT_SKIP drv w0 /\
    test_cases w0 = test_cases initial_world /\ buffers w0 = ∅ /\
    generated w0 = 0 /\ errors_read w0 = 0%nat /\
    forallb quiet (trace w0) = true /\ forallb startup_event (trace w0) = true.
Proof.
  intros Hwin Hglad Hext Hprog.
  unfold run, main. cbv zeta. rewrite Hwin, Hglad. cbn [negb].
  fold (tests_and_exit EXIT_SKIP drv).
  generalize (tests_and_exit EXIT_SKIP drv). intros rest.
  unfold require_extension, build_programm, glfwWindowHints, initial_world.
  destruct (Z.eqb_spec (GLAD_GL_VERSION_4_4 drv) 0) as [E|E].
  - destruct Hext as [Hext|Hext]; [contradiction|]. rewrite Hext. cbn [negb].
    destruct (GL_COMPILE_STATUS drv =? 0), (GL_LINK_STATUS drv =? 0); exec;
      (destruct (Z.eqb_spec (glCreateProgram drv) 0); [contradiction|]);
      eexists; (split; [reflexivity|]); repeat split.
  - destruct (GL_COMPILE_STATUS drv =? 0), (GL_LINK_STATUS drv =? 0); exec;
      (destruct (Z.eqb_spec (glCreateProgram drv) 0); [contradiction|]);
      eexists; (split; [reflexivity|]); repeat split.
Qed.

Lemma init_test_cases_pages drv k w :
  length (test_cases w) = 7%nat ->
  sysconf_SC_PAGESIZE drv = 4 * k -> 2 <= k <= 7499 ->
  exists w',
    init_test_cases drv w = Ret tt w' /\
    test_cases w' = page_straddling_cases (4 * k) /\
    trace w' = Call "sysconf" [T "_SC_PAGESIZE"] :: trace w.
Proof.
  intros Hlen Hpage Hk. destruct w as [tr bufs gen bnd cur errs pr cases]. simpl in Hlen.
  do 7 (destruct cases as [|? cases]; [discriminate Hlen|]).
  destruct cases; [|discriminate Hlen].
  unfold init_test_cases. exec. simpl.
  eexists. split; [reflexivity|]. split; [|reflexivity].
  cbn [test_cases]. rewrite Hpage.
  rewrite (uint32_small (4 * k)) by lia.
  rewrite (uint32_small (4 * k * 2)) by lia.
  rewrite !uint32_small by lia.
  replace (4 * k * 2) with (2 * (4 * k)) by lia. reflexivity.
Qed.


(** One turn of the loop of [main]. *)
Lemma main_loop_body_run EXIT_SKIP drv i one pass w :
  test_cases w !! Z.to_nat i = Some one ->
  runnable one ->
  (forall n, glGetError drv n = GL_NO_ERROR) ->
  exists r w1 new,
    test_script EXIT_SKIP drv one w = Ret r w1 /\
    (r = true <-> test_verdict (device drv) (fresh_storage drv) one) /\
    test_cases w1 = test_cases w /\
    trace w1 = new ++ trace w /\ forallb quiet new = true /\
    main_loop_body EXIT_SKIP drv i pass w =
      Ret (r && pass)
        (if r && pass then w1 else set_trace (cons (test_failed_line one)) w1).
Proof.
  intros Hone Hrun Herr.
  destruct (test_script_verdict EXIT_SKIP drv one w Hrun (Herr _) (Herr _) (Herr _))
    as (r & w1 & Hret & (_ & (new & Htr & Hq) & Hc & _) & Hr).
  exists r, w1, new.
  split; [exact Hret|]. split; [exact Hr|]. split; [exact Hc|].
  split; [exact Htr|]. split; [exact Hq|].
  unfold main_loop_body, test_case_at. unfold bind at 1. unfold bind at 1.
  unfold gets. rewrite Hone. cbn [ret]. unfold bind at 1. rewrite Hret.
  destruct (r && pass); reflexivity.
Qed.


Lemma tests_from_cons EXIT_SKIP drv i l pass w a w' :
  main_loop_body EXIT_SKIP drv i pass w = Ret a w' ->
  tests_from EXIT_SKIP drv (i :: l) pass w = tests_from EXIT_SKIP drv l a w'.
Proof.
  intros H. unfold tests_from. cbn [for_each]. unfold bind at 1 2. now rewrite H.
Qed.

Lemma tests_and_exit_from EXIT_SKIP drv w w' :
  init_test_cases drv w = Ret tt w' ->
  tests_and_exit EXIT_SKIP drv w =
    tests_from EXIT_SKIP drv [0; 1; 2; 3; 4; 5; 6] true w'.
Proof. intros H. unfold tests_and_exit. now rewrite (bind_Ret _ _ _ _ _ H). Qed.

(** *** The run on a device that runs the shader *)

Section RunShader.

Variables (EXIT_SKIP : Z) (drv : driver) (k : Z).
Hypothesis Hdev : device drv = run_shader.
Hypothesis Herr : forall n, glGetError drv n = GL_NO_ERROR.

Let Inv (pass : bool) (w : world) : Prop :=
  test_cases w = page_straddling_cases (4 * k) /\ forallb quiet (trace w) = true /\
  pass = true.

(** A turn on a case that passes, the earlier ones having passed. *)
Lemma hoare_passing_turn i one :
  2 <= k <= 7499 ->
  page_straddling_cases (4 * k) !! Z.to_nat i = Some one ->
  In one (page_straddling_cases (4 * k)) ->
  (forall e, 15000 <= e < 30000 -> e < offset one -> e mod stride one <> 0) ->
  hoare (Inv true) (main_loop_body EXIT_SKIP drv i true) Inv.
Proof using Hdev Herr.
  intros Hk Hone Hin Hno w (Hc & Hq & _).
  pose proof (page_cases_runnable k one Hk Hin) as Hrun.
  destruct (main_loop_body_run EXIT_SKIP drv i one true w)
    as (r & w1 & new & Hret & Hr & Hc1 & Htr & Hqn & Hbody); auto.
  { now rewrite Hc. }
  assert (r = true) as ->.
  { apply Hr. rewrite Hdev. now apply conforming_verdict. }
  exists true, w1. split; [exact Hbody|].
  repeat split; [congruence|].
  rewrite Htr, forallb_app. now rewrite Hqn, Hq.
Qed.

End RunShader.

Lemma quiet_not_failed (t : list event) one :
  forallb quiet t = true -> ~ In (test_failed_line one) t.
Proof.
  intros Hq Hin. rewrite forallb_forall in Hq. now specialize (Hq _ Hin).
Qed.



(** X8.  On pages of [p] bytes, [15000 <= p < 30000] (of 16384 bytes, say),
    on a device that runs the shader as written, the test on the case of
    offset [p + 4] fails, the three before it having passed: [main] prints
    [Test failed] for it, although the device has done what the shader
    says, and returns 0. *)
Theorem run_on_run_shader_false_alarm EXIT_SKIP drv k argc argv :
  glfwCreateWindow_ok drv = true ->
  gladLoadGLLoader_ok drv = true ->
  GLAD_GL_VERSION_4_4 drv <> 0 \/ glfwExtensionSupported drv "extension" = true ->
  glCreateProgram drv <> 0 ->
  (forall n, glGetError drv n = GL_NO_ERROR) ->
  device drv = run_shader ->
  sysconf_SC_PAGESIZE drv = 4 * k -> 3750 <= k <= 7499 ->
  exists w' newer older,
    run EXIT_SKIP drv argc argv = Ret 0 w' /\
    trace w' =
      newer ++ test_failed_line {| stride := 4 * k; offset := 4 * k + 4 |} :: older /\
    forall one, ~ In (test_failed_line one) older.
Proof.
  intros Hwin Hglad Hext Hprog Herr Hdev Hpage Hk.
  assert (Hk' : 2 <= k <= 7499) by lia.
  destruct (run_reaches_tests EXIT_SKIP drv argc argv Hwin Hglad Hext Hprog)
    as (w0 & -> & Hc0 & _ & Hg0 & _ & Hq0 & _).
  destruct (init_test_cases_pages drv k w0) as (w1 & Hi & Hc1 & Htr1);
    [now rewrite Hc0 | exact Hpage | lia |].
  rewrite (tests_and_exit_from _ _ _ _ Hi).
  assert (Hq1 : forallb quiet (trace w1) = true).
  { rewrite Htr1. cbn [forallb quiet]. exact Hq0. }
  assert (Hmod : forall e, 0 < e < 4 * k -> e mod (4 * k) <> 0).
  { intros e He. rewrite Z.mod_small by lia. lia. }
  (* the cases of offsets 0, p and p - 4 pass *)
  destruct (hoare_passing_turn EXIT_SKIP drv k Hdev Herr 0 _ Hk' eq_refl
              ltac:(unfold page_straddling_cases; cbn [In]; repeat (first [left; reflexivity | right]))) with (w := w1)
    as (p0 & w2 & R0 & Hc2 & Hq2 & ->).
  { cbn [offset]. intros; lia. }
  { now repeat split. }
  rewrite (tests_from_cons _ _ _ _ _ _ _ _ R0).
  destruct (hoare_passing_turn EXIT_SKIP drv k Hdev Herr 1 _ Hk' eq_refl
              ltac:(unfold page_straddling_cases; cbn [In]; repeat (first [left; reflexivity | right]))) with (w := w2)
    as (p1 & w3 & R1 & Hc3 & Hq3 & ->).
  { cbn [offset stride]. intros e He Ho. apply Hmod. lia. }
  { now repeat split. }
  rewrite (tests_from_cons _ _ _ _ _ _ _ _ R1).
  destruct (hoare_passing_turn EXIT_SKIP drv k Hdev Herr 2 _ Hk' eq_refl
              ltac:(unfold page_straddling_cases; cbn [In]; repeat (first [left; reflexivity | right]))) with (w := w3)
    as (p2 & w4 & R2 & Hc4 & Hq4 & ->).
  { cbn [offset stride]. intros e He Ho. apply Hmod. lia. }
  { now repeat split. }
  rewrite (tests_from_cons _ _ _ _ _ _ _ _ R2).
  (* the case of offset p + 4 fails *)
  set (one := {| stride := 4 * k; offset := 4 * k + 4 |}).  assert (Hin : In one (page_straddling_cases (4 * k))).
  { unfold page_straddling_cases, one. cbn [In].
    repeat (first [left; reflexivity | right]). }
  assert (Hrun : runnable one) by exact (page_cases_runnable k one Hk' Hin).
  destruct (main_loop_body_run EXIT_SKIP drv 3 one true w4)
    as (r & w5 & new & Hret & Hr & Hc5 & Htr5 & Hq5 & Hbody);
    [now rewrite Hc4 | exact Hrun | exact Herr |].
  assert (r = false) as ->.
  { destruct r; [|reflexivity]. exfalso.
    rewrite Hdev in Hr.
    pose proof (proj1 (conforming_verdict (fresh_storage drv) one Hrun)
                  (proj1 Hr eq_refl) (4 * k)) as Hno.
    apply Hno; unfold one; cbn [offset stride]; try lia.
    apply Z_mod_same_full. }
  cbn [andb] in Hbody. rewrite (tests_from_cons _ _ _ _ _ _ _ _ Hbody).
  (* the tests that are left *)
  destruct (main_loop_returns EXIT_SKIP drv k (test_failed_line one :: trace w5)
              [4; 5; 6] false (set_trace (cons (test_failed_line one)) w5))
    as (pass' & w6 & Hrest & _ & newer & Htr6); [exact Herr | exact Hk' | | |].
  { intros i [<-|[<-|[<-|[]]]]; change (seqZ 0 7) with [0; 1; 2; 3; 4; 5; 6];
      cbn [In]; repeat (first [left; reflexivity | right]). }
  { split; [cbn [set_trace test_cases]; congruence | now exists []]. }
  unfold tests_from. rewrite (bind_Ret _ _ _ _ _ Hrest).
  eexists _, (_ :: _ :: newer), (trace w5). split; [reflexivity|].
  cbn [call modify set_trace trace]. split; [now rewrite Htr6|].
  intros c. apply quiet_not_failed. rewrite Htr5, forallb_app. now rewrite Hq5, Hq4.
Qed.

Lemma run_on_run_shader_false_alarm_witness :
  exists w' newer older,
    run 125 (platform supports_literal 16384 run_shader) 1 ["fill_ssbo_coherent"%string]
      = Ret 0 w' /\
    trace w' = newer ++ test_failed_line {| stride := 16384; offset := 16388 |} :: older.
Proof.
  destruct (run_on_run_shader_false_alarm 125 (platform supports_literal 16384 run_shader)
              4096 1 ["fill_ssbo_coherent"%string])
    as (w' & newer & older & Hret & Htr & _).
  - reflexivity.
  - reflexivity.
  - right. reflexivity.
  - discriminate.
  - reflexivity.
  - reflexivity.
  - reflexivity.
  - lia.
  - exists w', newer, older. split; [exact Hret | exact Htr].
Defined.

(** X9.  Once a test has failed, [main] prints [Test failed] for every
    later test, whatever that test returns: [pass] is never set again. *)
Theorem main_loop_body_failure_sticks EXIT_SKIP drv i one w :
  test_cases w !! Z.to_nat i = Some one ->
  runnable one ->
  (forall n, glGetError drv n = GL_NO_ERROR) ->
  exists r w1,
    test_script EXIT_SKIP drv one w = Ret r w1 /\
    (r = true <-> test_verdict (device drv) (fresh_storage drv) one) /\
    main_loop_body EXIT_SKIP drv i false w =
      Ret false (set_trace (cons (test_failed_line one)) w1).
Proof.
  intros Hone Hrun Herr.
  destruct (main_loop_body_run EXIT_SKIP drv i one false w Hone Hrun Herr)
    as (r & w1 & new & Hret & Hr & _ & _ & _ & Hbody).
  exists r, w1. split; [exact Hret|]. split; [exact Hr|].
  rewrite Hbody. now rewrite andb_false_r.
Qed.

Lemma main_loop_body_failure_sticks_witness :
  exists w1,
    test_script 125 shader_platform {| stride := 4096; offset := 4096 |}
      world_of_second_test = Ret true w1 /\
    main_loop_body 125 shader_platform 1 false world_of_second_test =
      Ret false (set_trace (cons (test_failed_line {| stride := 4096; offset := 4096 |})) w1).
Proof.
  destruct (main_loop_body_failure_sticks 125 shader_platform 1
              {| stride := 4096; offset := 4096 |} world_of_second_test)
    as (r & w1 & Hret & Hr & Hbody).
  - reflexivity.
  - vm_compute. repeat split; discriminate.
  - reflexivity.
  - assert (r = true) as ->.
    { apply Hr. apply conforming_verdict.
      - vm_compute. repeat split; discriminate.
      - cbn [offset]. intros; lia. }
    exists w1. split; [exact Hret | exact Hbody].
Defined.

(** *** An error of GL *)

Lemma init_ssbo_exits EXIT_SKIP drv w :
  glGetError drv (errors_read w) <> GL_NO_ERROR ->
  exists w',
    init_ssbo EXIT_SKIP drv w = Exit (error_status EXIT_SKIP (glGetError drv (errors_read w))) w' /\
    trace w' = init_ssbo_events (generated w + 1) ++ trace w /\
    errors_read w' = S (errors_read w).
Proof.
  intros Herr. destruct w as [tr bufs gen bnd cur errs pr cases].
  simpl in Herr. unfold init_ssbo, check_error, glMapBufferRange, memset. exec.
  rewrite lookup_insert_eq. cbn [size].
  change ((0 <=? 0) && (0 <? values_count * 4) && (0 + values_count * 4 <=? values_count * 4))
    with true. exec.
  change (values_count * 4 <=? values_count * 4) with true. exec.
  unfold error_status.
  destruct (Z.eqb_spec (glGetError drv errs) GL_NO_ERROR); [contradiction|].
  destruct (glGetError drv errs =? GL_OUT_OF_MEMORY); eexists; repeat split; reflexivity.
Qed.

Lemma test_script_exits EXIT_SKIP drv one w c w' :
  init_ssbo EXIT_SKIP drv w = Exit c w' ->
  test_script EXIT_SKIP drv one w = Exit c w'.
Proof. intros H. unfold test_script. cbv zeta. unfold bind at 1. now rewrite H. Qed.

Lemma main_loop_body_exits EXIT_SKIP drv i one pass w c w' :
  test_cases w !! Z.to_nat i = Some one ->
  test_script EXIT_SKIP drv one w = Exit c w' ->
  main_loop_body EXIT_SKIP drv i pass w = Exit c w'.
Proof.
  intros Hone H. unfold main_loop_body, test_case_at. unfold bind at 1. unfold bind at 1.
  unfold gets. rewrite Hone. cbn [ret]. unfold bind at 1. now rewrite H.
Qed.

Lemma tests_from_exits EXIT_SKIP drv i l pass w c w' :
  main_loop_body EXIT_SKIP drv i pass w = Exit c w' ->
  tests_from EXIT_SKIP drv (i :: l) pass w = Exit c w'.
Proof.
  intros H. unfold tests_from. cbn [for_each]. unfold bind at 1 2. now rewrite H.
Qed.

Lemma init_test_cases_trace drv w :
  length (test_cases w) = 7%nat ->
  exists w',
    init_test_cases drv w = Ret tt w' /\
    test_cases w' !! 0%nat = Some {| stride := 2; offset := 0 |} /\
    errors_read w' = errors_read w /\
    trace w' = Call "sysconf" [T "_SC_PAGESIZE"] :: trace w.
Proof.
  intros Hlen. destruct w as [tr bufs gen bnd cur errs pr cases]. simpl in Hlen.
  do 7 (destruct cases as [|? cases]; [discriminate Hlen|]).
  destruct cases; [|discriminate Hlen].
  unfold init_test_cases. exec. simpl.
  eexists. split; [reflexivity|]. repeat split.
Qed.

(** X10.  When the error check of the first [init_ssbo] reads an error, the
    process ends there, whatever the page size, with [EXIT_SKIP] on
    [GL_OUT_OF_MEMORY] and with [EXIT_FAILURE] on any other error: nothing
    has been dispatched, and neither [glfwDestroyWindow] nor [glfwTerminate]
    has been called. *)
Theorem run_exits_on_gl_error EXIT_SKIP drv argc argv :
  glfwCreateWindow_ok drv = true ->
  gladLoadGLLoader_ok drv = true ->
  GLAD_GL_VERSION_4_4 drv <> 0 \/ glfwExtensionSupported drv "extension" = true ->
  glCreateProgram drv <> 0 ->
  glGetError drv 0 <> GL_NO_ERROR ->
  exists w',
    run EXIT_SKIP drv argc argv = Exit (error_status EXIT_SKIP (glGetError drv 0)) w' /\
    (exists older, trace w' = Call "glGetError" [] :: older) /\
    forallb startup_event (trace w') = true /\
    errors_read w' = 1%nat.
Proof.
  intros Hwin Hglad Hext Hprog Herr.
  destruct (run_reaches_tests EXIT_SKIP drv argc argv Hwin Hglad Hext Hprog)
    as (w0 & -> & Hc0 & _ & Hg0 & He0 & _ & Hs0).
  destruct (init_test_cases_trace drv w0) as (w1 & Hi & Hc1 & He1 & Htr1);
    [now rewrite Hc0|].
  destruct (init_ssbo_exits EXIT_SKIP drv w1) as (w2 & Hexit & Htr2 & He2).
  { now rewrite He1, He0. }
  rewrite He1, He0 in Hexit, He2.
  exists w2. split.
  - rewrite (tests_and_exit_from _ _ _ _ Hi).
    apply tests_from_exits.
    apply main_loop_body_exits with (one := {| stride := 2; offset := 0 |}).
    + exact Hc1.
    + now apply test_script_exits.
  - rewrite Htr2, Htr1. split; [eexists; reflexivity|]. split; [|exact He2].
    rewrite forallb_app. cbn [forallb startup_event]. now rewrite Hs0.
Qed.

Lemma run_exits_on_gl_error_witness :
  exists w', run 125 out_of_memory 1 ["fill_ssbo_coherent"%string] = Exit 125 w'.
Proof.
  destruct (run_exits_on_gl_error 125 out_of_memory 1 ["fill_ssbo_coherent"%string])
    as (w' & Hret & _).
  - reflexivity.
  - reflexivity.
  - left. discriminate.
  - discriminate.
  - discriminate.
  - exists w'. exact Hret.
Defined.

(** *** The dispatch *)

(** X11.  [glDispatchCompute (45, 1, 1)] with groups of 1000 invocations
    runs the shader on the [values_count] elements of the buffer and on no
    other: with a stride that is not 0, an element [e] holds [value]
    afterwards when [0 <= e < 45000], [start_bound <= e < end_bound] and [e]
    is a multiple of [stride], and is unchanged otherwise; no byte outside
    the first [values_count * 4] is written, whatever [end_bound] is. *)
Theorem dispatch_writes_exactly (u : uniforms) (mem : memory) :
  u_stride u <> 0 ->
  - 2 ^ 31 <= u_value u < 2 ^ 31 ->
  (forall e,
     elem (run_shader u mem) e =
       if (0 <=? e) && (e <? values_count) && (u_start_bound u <=? e)
          && (e <? u_end_bound u) && (e mod u_stride u =? 0)
       then u_value u else elem mem e) /\
  (forall a, a < 0 \/ values_count * 4 <= a -> run_shader u mem a = mem a).
Proof.
  intros Hs Hv. split.
  - intros e. rewrite elem_run_shader by exact Hv. unfold writes.
    rewrite (glsl_mod_is_0_mod e (u_stride u) Hs).
    change (45 * 1000) with values_count. now rewrite !andb_assoc.
  - intros a Ha. rewrite run_shader_effect. unfold shader_effect. cbv zeta.
    unfold values_count in Ha.
    destruct (Z.leb_spec 0 (a / 4)) as [H0|H0]; [|reflexivity].
    destruct (Z.ltb_spec (a / 4) (45 * 1000)) as [H1|H1]; [|reflexivity].
    exfalso. pose proof (Z.div_mod a 4 ltac:(lia)).
    pose proof (Z.mod_pos_bound a 4 ltac:(lia)). lia.
Qed.

Lemma dispatch_writes_exactly_witness :
  let u := dispatch_uniforms {| stride := 4096; offset := 4096 |} 0 15000 modifed_value in
  elem (run_shader u (fun _ => 0)) 8192 = modifed_value /\
  elem (run_shader u (fun _ => 0)) 8193 = 0 /\
  elem (run_shader u (fun _ => 0)) 16384 = 0.
Proof.
  intros u.
  destruct (dispatch_writes_exactly u (fun _ => 0)) as [H _].
  - discriminate.
  - vm_compute. split; [discriminate | reflexivity].
  - rewrite (H 8192), (H 8193), (H 16384). vm_compute. repeat split.
Defined.

(** *** The exit status *)

Section Statuses.

Variables (EXIT_SKIP : Z) (drv : driver).

Let S := exit_cause EXIT_SKIP drv.
Let B := glCreateProgram drv = 0.

Ltac straight :=
  repeat first
    [ apply stops_ret | apply stops_modify | apply stops_gets | apply stops_undef
    | apply stops_out_of_fuel
    | apply stops_bind; [|intros ?]
    | match goal with
      | |- stops_with _ _ (if ?b then _ else _) => destruct b
      | |- stops_with _ _ (match ?x with _ => _ end) => destruct x
      end ].

Lemma stops_call fn args : stops_with S B (call fn args).
Proof using Type. apply stops_modify. Qed.

Lemma stops_printf fmt args : stops_with S B (printf fmt args).
Proof using Type. apply stops_modify. Qed.

Lemma stops_read p i : stops_with S B (read p i).
Proof using Type.
  intros w. unfold read. destruct p; [exact Logic.I|].
  destruct ((0 <=? 4 * i) && (4 * i + 4 <=? len)); [|exact Logic.I].
  now destruct (buffers w !! buf).
Qed.

Lemma stops_memset p c n : stops_with S B (memset p c n).
Proof using Type. unfold memset, call. straight. Qed.

Lemma stops_glMapBufferRange off len : stops_with S B (glMapBufferRange off len).
Proof using Type. unfold glMapBufferRange, call. straight. Qed.

Lemma stops_glBindBufferBase index buf : stops_with S B (glBindBufferBase index buf).
Proof using Type. unfold glBindBufferBase, call. straight. Qed.

Lemma stops_check_error : stops_with S B (check_error EXIT_SKIP drv).
Proof using Type.
  intros w. destruct w as [tr bufs gen bnd cur errs pr cases]. unfold check_error. exec.
  destruct (Z.eqb_spec (glGetError drv errs) GL_NO_ERROR) as [E|E]; [exact Logic.I|].
  destruct (glGetError drv errs =? GL_OUT_OF_MEMORY) eqn:Ho;
    right; exists errs; unfold error_status; rewrite Ho; auto.
Qed.

Lemma stops_require_extension ext :
  stops_with S B (require_extension EXIT_SKIP drv ext (GLAD_GL_VERSION_4_4 drv)).
Proof using Type.
  intros w. unfold require_extension.
  destruct (Z.eqb_spec (GLAD_GL_VERSION_4_4 drv) 0) as [E|E]; [|exact Logic.I].
  destruct (glfwExtensionSupported drv "extension") eqn:Hx; exec; [exact Logic.I|].
  left. auto.
Qed.

Lemma stops_build_programm : stops_with S B (build_programm drv).
Proof using Type.
  intros w. destruct w as [tr bufs gen bnd cur errs pr cases]. unfold build_programm.
  destruct (GL_COMPILE_STATUS drv =? 0), (GL_LINK_STATUS drv =? 0); exec;
    destruct (Z.eqb_spec (glCreateProgram drv) 0); try exact Logic.I; assumption.
Qed.

Lemma stops_init_ssbo : stops_with S B (init_ssbo EXIT_SKIP drv).
Proof using Type.
  unfold init_ssbo, glGenBuffers, glBufferStorage, glUnmapBuffer, call.
  repeat first
    [ apply stops_check_error | apply stops_memset | apply stops_glMapBufferRange
    | apply stops_glBindBufferBase
    | apply stops_ret | apply stops_modify | apply stops_gets
    | apply stops_bind; [|intros ?] ].
Qed.

Lemma stops_map_ssbo ssbo off : stops_with S B (map_ssbo ssbo off).
Proof using Type.
  unfold map_ssbo.
  repeat first
    [ apply stops_memset | apply stops_glMapBufferRange | apply stops_glBindBufferBase
    | apply stops_ret | apply stops_bind; [|intros ?] ].
Qed.

Lemma stops_compute_exec ssbo one s e v : stops_with S B (compute_exec drv ssbo one s e v).
Proof using Type.
  unfold compute_exec, glUniform1ui, glUniform1i, glDispatchCompute, call.
  repeat first
    [ apply stops_glBindBufferBase
    | apply stops_ret | apply stops_modify | apply stops_gets
    | apply stops_bind; [|intros ?] ].
Qed.

Lemma stops_shifted_rem i one : stops_with S B (shifted_rem i one).
Proof using Type. unfold shifted_rem. cbv zeta. straight. Qed.

Lemma stops_mismatch fn i v : stops_with S B (mismatch fn i v).
Proof using Type. apply stops_modify. Qed.

Lemma stops_next {A} i (loop : Z -> M world A) :
  (forall j, stops_with S B (loop j)) -> stops_with S B (next i loop).
Proof using Type. intros H. unfold next. destruct (i =? INT_MAX); [apply stops_undef | apply H]. Qed.

Ltac probe_step :=
  repeat first
    [ apply stops_read | apply stops_shifted_rem | apply stops_mismatch
    | apply stops_ret | apply stops_out_of_fuel
    | apply stops_bind; [|intros ?]
    | apply stops_next; assumption
    | match goal with
      | |- stops_with _ _ (if ?b then _ else _) => destruct b
      end ].

Lemma stops_written_loop data one e v : forall fuel i,
  stops_with S B (written_loop data one e v fuel i).
Proof using Type.
  induction fuel as [|fuel IH]; intros i; cbn [written_loop]; probe_step.
Qed.

Lemma stops_untouched_loop data one (k : M world bool) :
  stops_with S B k -> forall fuel i, stops_with S B (untouched_loop data one k fuel i).
Proof using Type.
  intros Hk. induction fuel as [|fuel IH]; intros i; cbn [untouched_loop]; probe_step;
    assumption.
Qed.

Lemma stops_probe_value_in_range data one s e v :
  stops_with S B (probe_value_in_range data one s e v).
Proof using Type.
  unfold probe_value_in_range. cbv zeta.
  apply stops_untouched_loop, stops_written_loop.
Qed.

Lemma stops_probe_inital_state_loop data one : forall fuel i,
  stops_with S B (probe_inital_state_loop data one fuel i).
Proof using Type.
  induction fuel as [|fuel IH]; intros i; cbn [probe_inital_state_loop]; probe_step.
Qed.

Lemma stops_probe_offseted_loop data one : forall fuel i,
  stops_with S B (probe_offseted_loop data one fuel i).
Proof using Type.
  induction fuel as [|fuel IH]; intros i; cbn [probe_offseted_loop]; probe_step.
Qed.

Lemma stops_probe_offseted_part_of_ssbo ssbo one :
  stops_with S B (probe_offseted_part_of_ssbo ssbo one).
Proof using Type.
  unfold probe_offseted_part_of_ssbo, glUnmapBuffer, call.
  destruct (offset one =? 0); [apply stops_ret|].
  repeat first
    [ apply stops_glMapBufferRange | apply stops_glBindBufferBase
    | apply stops_probe_offseted_loop
    | apply stops_modify | apply stops_bind; [|intros ?] ].
Qed.

Lemma stops_test_script one : stops_with S B (test_script EXIT_SKIP drv one).
Proof using Type.
  unfold test_script, and_probe, fence, call. cbv zeta.
  repeat first
    [ apply stops_init_ssbo | apply stops_map_ssbo | apply stops_compute_exec
    | apply stops_probe_value_in_range | apply stops_probe_offseted_part_of_ssbo
    | apply stops_probe_inital_state_loop
    | apply stops_ret | apply stops_modify
    | apply stops_bind; [|intros ?] ].
Qed.

Lemma stops_main_loop_body i pass : stops_with S B (main_loop_body EXIT_SKIP drv i pass).
Proof using Type.
  unfold main_loop_body, test_case_at, printf. cbv zeta.
  repeat first
    [ apply stops_test_script
    | apply stops_ret | apply stops_modify | apply stops_gets | apply stops_undef
    | apply stops_bind; [|intros ?]
    | match goal with
      | |- stops_with _ _ (if ?b then _ else _) => destruct b
      | |- stops_with _ _ (match ?x with _ => _ end) => destruct x
      end ].
Qed.

Lemma stops_main argc argv : stops_with S B (main EXIT_SKIP drv argc argv).
Proof using Type.
  unfold main, glfwWindowHints, init_test_cases, getSystemPageSize, call. cbv zeta.
  repeat first
    [ apply stops_require_extension | apply stops_build_programm
    | apply stops_for_each; intros ? ?; apply stops_main_loop_body
    | apply stops_ret | apply stops_modify
    | apply stops_bind; [|intros ?]
    | match goal with
      | |- stops_with _ _ (if ?b then _ else _) => destruct b
      end ].
Qed.

End Statuses.

Lemma main_returns_statuses EXIT_SKIP drv argc argv :
  returns_with
    (fun c => c = EXIT_SKIP /\ glfwCreateWindow_ok drv = false \/
              c = EXIT_FAILURE /\ glfwCreateWindow_ok drv = true /\
                gladLoadGLLoader_ok drv = false \/
              c = 0 /\ glfwCreateWindow_ok drv = true /\ gladLoadGLLoader_ok drv = true)
    (main EXIT_SKIP drv argc argv).
Proof.
  unfold main. cbv zeta.
  do 3 (apply returns_bind; intros ?).
  destruct (glfwCreateWindow_ok drv); cbn [negb]; [|apply returns_ret; auto].
  do 2 (apply returns_bind; intros ?).
  destruct (gladLoadGLLoader_ok drv); cbn [negb]; [|apply returns_ret; auto].
  repeat (apply returns_bind; intros ?).
  apply returns_ret. auto.
Qed.

(** X15.  The ways a run of [fill_ssbo_coherent] stops.  When [main]
    returns, it returns [EXIT_SKIP] and no window was created, or
    [EXIT_FAILURE] and GL did not load, or 0 with a window and GL loaded.
    When the process leaves through [exit], it had a window and GL, and
    either the check of the extensions found GL 4.4 and the extension
    called [extension] both missing and left with [EXIT_SKIP], or
    [check_error] had just read an error and left with [EXIT_SKIP] on
    [GL_OUT_OF_MEMORY] and with [EXIT_FAILURE] on any other error.  When it
    stops on the failed [assert], [glCreateProgram] had returned 0. *)
Theorem run_status EXIT_SKIP drv argc argv :
  match run EXIT_SKIP drv argc argv with
  | Ret c _ =>
      c = EXIT_SKIP /\ glfwCreateWindow_ok drv = false \/
      c = EXIT_FAILURE /\ glfwCreateWindow_ok drv = true /\
        gladLoadGLLoader_ok drv = false \/
      c = 0 /\ glfwCreateWindow_ok drv = true /\ gladLoadGLLoader_ok drv = true
  | Exit c w' =>
      glfwCreateWindow_ok drv = true /\ gladLoadGLLoader_ok drv = true /\
      exit_cause EXIT_SKIP drv c w'
  | Abort _ =>
      glfwCreateWindow_ok drv = true /\ gladLoadGLLoader_ok drv = true /\
      glCreateProgram drv = 0
  | Undef _ | Fuel _ => True
  end.
Proof.
  pose proof (stops_main EXIT_SKIP drv argc argv initial_world) as Hstop.
  pose proof (main_returns_statuses EXIT_SKIP drv argc argv initial_world) as Hret.
  unfold run.
  destruct (glfwCreateWindow_ok drv) eqn:Hw.
  - destruct (gladLoadGLLoader_ok drv) eqn:Hg.
    + destruct (main EXIT_SKIP drv argc argv initial_world) as [c w'|c w'|w'|w'|w'];
        auto.
      destruct (Hret c w' eq_refl) as [[_ H]|[(_ & _ & H)|(-> & _)]];
        try discriminate H. auto.
    + clear Hstop Hret. unfold main, glfwWindowHints, initial_world. cbv zeta.
      rewrite Hw, Hg. cbn [negb]. exec. auto.
  - clear Hstop Hret. unfold main, glfwWindowHints, initial_world. cbv zeta.
    rewrite Hw. cbn [negb]. exec. auto.
Qed.

(** *** A mapping that starts behind the first third *)

Lemma elem_filled_aligned fresh one e :
  0 <= offset one -> offset one = 4 * (offset one / 4) -> 0 <= e < values_count ->
  elem (filled fresh one) e =
    if e <? offset one / 4 then fill_value_a else fill_value_b.
Proof.
  intros Hb Hmul He.
  assert (Hbyte : forall k, 0 <= k < 4 ->
            filled fresh one (4 * e + k) =
            if e <? offset one / 4 then uint8 fill_value_a else uint8 fill_value_b).
  { intros k Hk. unfold filled, write_bytes, values_count in *.
    destruct (Z.ltb_spec e (offset one / 4)).
    - destruct (Z.leb_spec (offset one) (4 * e + k)); [lia|]. cbn [andb].
      destruct (Z.leb_spec 0 (4 * e + k)); [|lia].
      destruct (Z.ltb_spec (4 * e + k) (0 + 45000 * 4)); [reflexivity | lia].
    - destruct (Z.leb_spec (offset one) (4 * e + k)); [|lia].
      destruct (Z.ltb_spec (4 * e + k) (offset one + (45000 * 4 - offset one)));
        [reflexivity | lia]. }
  pose proof (Hbyte 0 ltac:(lia)) as H0. rewrite Z.add_0_r in H0.
  pose proof (Hbyte 1 ltac:(lia)) as H1.
  pose proof (Hbyte 2 ltac:(lia)) as H2.
  pose proof (Hbyte 3 ltac:(lia)) as H3.
  unfold elem. destruct (e <? offset one / 4).
  - now apply load_int_fill_value_a.
  - now apply load_int_fill_value_b.
Qed.

Lemma and_probe_true (probe : M world bool) (w : world) :
  probe w = Ret true w -> and_probe true probe w = Ret true w.
Proof. intros H. unfold and_probe. now rewrite (bind_Ret _ _ _ _ _ H). Qed.

Lemma and_probe_undef pass (probe : M world bool) (w : world) :
  probe w = Undef w -> and_probe pass probe w = Undef w.
Proof. intros H. unfold and_probe, bind. now rewrite H. Qed.

(** A test on a case whose mapping starts behind the first third of the
    elements: the probe of the first stage reads before the mapped range. *)
Lemma test_script_before_mapping EXIT_SKIP drv one w :
  stride one <> 0 ->
  offset one = 4 * (offset one / 4) -> 15000 < offset one / 4 < 45000 ->
  device drv = run_shader ->
  glGetError drv (errors_read w) = GL_NO_ERROR ->
  glGetError drv (S (errors_read w)) = GL_NO_ERROR ->
  glGetError drv (S (S (errors_read w))) = GL_NO_ERROR ->
  exists w', test_script EXIT_SKIP drv one w = Undef w'.
Proof.
  intros Hstride Hmul Hq Hdev He0 He1 He2. set (g := generated w).
  assert (Hoff : 0 <= offset one < values_count * 4) by (unfold values_count; lia).
  unfold test_script. cbv zeta.
  destruct (init_ssbo_run EXIT_SKIP drv w He0) as (w1 & R1 & B1 & T1 & G1 & E1 & C1).
  fold g in R1, B1, T1, G1. rewrite (bind_Ret _ _ _ _ _ R1).
  destruct (map_ssbo_run (g + 1) (offset one) w1 _
              ltac:(rewrite B1; apply lookup_insert_eq) eq_refl Hoff)
    as (w2 & R2 & B2 & T2 & G2 & E2 & C2).
  rewrite (bind_Ret _ _ _ _ _ R2).
  destruct (init_ssbo_run EXIT_SKIP drv w2) as (w3 & R3 & B3 & T3 & G3 & E3 & C3);
    [congruence|].
  rewrite G2, G1 in R3, B3, T3, G3. replace (g + 1 + 1) with (g + 2) in * by lia.
  rewrite (bind_Ret _ _ _ _ _ R3).
  destruct (map_ssbo_run (g + 2) (offset one) w3 _
              ltac:(rewrite B3; apply lookup_insert_eq) eq_refl Hoff)
    as (w4 & R4 & B4 & T4 & G4 & E4 & C4).
  rewrite (bind_Ret _ _ _ _ _ R4).
  destruct (init_ssbo_run EXIT_SKIP drv w4) as (w5 & R5 & B5 & T5 & G5 & E5 & C5);
    [congruence|].
  rewrite G4, G3 in R5, B5, T5, G5. replace (g + 2 + 1) with (g + 3) in * by lia.
  rewrite (bind_Ret _ _ _ _ _ R5).
  destruct (map_ssbo_run (g + 3) (offset one) w5 _
              ltac:(rewrite B5; apply lookup_insert_eq) eq_refl Hoff)
    as (w6 & R6 & B6 & T6 & G6 & E6 & C6).
  rewrite (bind_Ret _ _ _ _ _ R6).
  cbn [ssbo_id data].
  change (uint32 (values_count / 3)) with 15000.
  set (m0 := filled (fresh_storage drv) one).
  set (len := values_count * 4 - offset one).
  set (St := test_state g (buffers w) (trace w) (test_cases w) (S (S (S (errors_read w))))).
  assert (HS : St m0 m0 m0 w6).
  { split; [|split; [|repeat split; congruence]].
    - rewrite B6, B5, B4, B3, B2, B1. rewrite !insert_insert_eq. reflexivity.
    - exists (allocation_events one g). split; [|apply allocation_events_quiet].
      rewrite T6, T5, T4, T3, T2, T1. unfold allocation_events.
      now rewrite <- !app_assoc. }
  unfold St in HS. clear St. clear R1 R2 R3 R4 R5 R6 B1 B2 B3 B4 B5 B6 T1 T2 T3 T4 T5 T6.
  assert (Hbounds : 0 <= offset one / 4 <= values_count) by (unfold values_count; lia).
  assert (Hlen : 4 * (values_count - offset one / 4) <= len)
    by (unfold len, values_count; lia).
  (* the initial probes pass and print nothing *)
  assert (Hinit : forall id w0, buffers w0 !! id = Some (storage m0) ->
            probe_inital_state (Ptr id (offset one) len) one w0 = Ret true w0).
  { intros id w0 Hid.
    destruct (probe_inital_state_cases w0 id (offset one) len (storage m0) Hid one
                Hbounds Hlen) as [(_ & Hret)|(j & Hj & Hbad & _)]; [exact Hret|].
    exfalso. apply Hbad. cbv beta. cbn [storage bytes].
    replace (offset one + 4 * j) with (4 * (j + offset one / 4)) by lia.
    change (load_int m0 (4 * (j + offset one / 4))) with (elem m0 (j + offset one / 4)).
    unfold m0. rewrite elem_filled_aligned by (unfold values_count in *; lia).
    destruct (Z.ltb_spec (j + offset one / 4) (offset one / 4)); [lia | reflexivity]. }
  rewrite (bind_Ret _ _ _ _ _ (and_probe_true _ _ (Hinit _ _ (test_state_a _ _ _ _ _ _ _ _ _ HS)))).
  rewrite (bind_Ret _ _ _ _ _ (and_probe_true _ _ (Hinit _ _ (test_state_b _ _ _ _ _ _ _ _ _ HS)))).
  rewrite (bind_Ret _ _ _ _ _ (and_probe_true _ _ (Hinit _ _ (test_state_c _ _ _ _ _ _ _ _ _ HS)))).
  destruct (hoare_state_call g (buffers w) (trace w) (test_cases w) _
              "glUseProgram" [T "prog"] m0 m0 m0 w6 HS) as ([] & w7 & R7 & HS7).
  rewrite (bind_Ret _ _ _ _ _ R7).
  destruct (hoare_compute_exec_b drv one g (buffers w) (trace w) (test_cases w) _
              0 15000 modifed_value m0 m0 m0 w7 HS7) as ([] & w8 & R8 & HS8).
  rewrite (bind_Ret _ _ _ _ _ R8).
  destruct (hoare_state_fence g (buffers w) (trace w) (test_cases w) _ _ _ _ w8 HS8)
    as ([] & w9 & R9 & HS9).
  rewrite (bind_Ret _ _ _ _ _ R9).
  exists w9. unfold bind at 1. rewrite and_probe_undef; [reflexivity|].
  apply (written_loop_before_mapping w9 (g + 2) (offset one) len _ one 0 15000
           modifed_value (test_state_b _ _ _ _ _ _ _ _ _ HS9) Hstride Hbounds Hlen);
    [lia | lia | apply Z.mod_0_l; exact Hstride |].
  (* the first loop passes: the dispatch has written nothing *)
  intros i Hi Hne.
  rewrite (element_run w9 (g + 2) (offset one) len _ (test_state_b _ _ _ _ _ _ _ _ _ HS9))
    by (unfold len, values_count in *; lia).
  f_equal. cbn [storage bytes].
  replace (offset one + 4 * i) with (4 * (i + offset one / 4)) by lia.
  match goal with |- load_int ?m (4 * ?e) = _ => change (elem m e = fill_value_b) end.
  unfold m0. rewrite Hdev, elem_dispatch
    by first [apply modifed_value_range | unfold values_count in *; lia].
  rewrite elem_filled_aligned by (unfold values_count in *; lia).
  destruct (Z.leb_spec (Z.max (offset one) 0) (i + offset one / 4)); cbn [andb].
  - destruct (Z.ltb_spec (i + offset one / 4) 15000); [lia|]. cbn [andb].
    destruct (Z.ltb_spec (i + offset one / 4) (offset one / 4)); [lia | reflexivity].
  - destruct (Z.ltb_spec (i + offset one / 4) (offset one / 4)); [lia | reflexivity].
Qed.

Lemma main_loop_body_undef EXIT_SKIP drv i one pass w w' :
  test_cases w !! Z.to_nat i = Some one ->
  test_script EXIT_SKIP drv one w = Undef w' ->
  main_loop_body EXIT_SKIP drv i pass w = Undef w'.
Proof.
  intros Hone H. unfold main_loop_body, test_case_at. unfold bind at 1. unfold bind at 1.
  unfold gets. rewrite Hone. cbn [ret]. unfold bind at 1. now rewrite H.
Qed.

Lemma tests_from_undef EXIT_SKIP drv i l pass w w' :
  main_loop_body EXIT_SKIP drv i pass w = Undef w' ->
  tests_from EXIT_SKIP drv (i :: l) pass w = Undef w'.
Proof.
  intros H. unfold tests_from. cbn [for_each]. unfold bind at 1 2. now rewrite H.
Qed.

(** X19.  On pages of more than 60000 bytes (of 65536 bytes, say) the
    mapping of the second test case starts behind the first third of the
    elements, and the probe of its first stage reads [data[- offset / 4]],
    before the mapped range: on a device that runs the shader as written,
    the first test passes and the run then has undefined behaviour. *)
Theorem run_reads_before_mapping EXIT_SKIP drv k argc argv :
  glfwCreateWindow_ok drv = true ->
  gladLoadGLLoader_ok drv = true ->
  GLAD_GL_VERSION_4_4 drv <> 0 \/ glfwExtensionSupported drv "extension" = true ->
  glCreateProgram drv <> 0 ->
  (forall n, glGetError drv n = GL_NO_ERROR) ->
  device drv = run_shader ->
  sysconf_SC_PAGESIZE drv = 4 * k -> 15000 < k < 45000 ->
  exists w1 w2 w',
    test_script EXIT_SKIP drv {| stride := 2; offset := 0 |} w1 = Ret true w2 /\
    test_script EXIT_SKIP drv {| stride := 4 * k; offset := 4 * k |} w2 = Undef w' /\
    run EXIT_SKIP drv argc argv = Undef w'.
Proof.
  intros Hwin Hglad Hext Hprog Herr Hdev Hpage Hk.
  destruct (run_reaches_tests EXIT_SKIP drv argc argv Hwin Hglad Hext Hprog)
    as (w0 & -> & Hc0 & _).
  destruct (init_test_cases_run drv w0) as (w1 & Hi & Hc1 & _); [now rewrite Hc0|].
  cbv zeta in Hc1. rewrite Hpage, (uint32_small (4 * k)) in Hc1 by lia.
  rewrite (tests_and_exit_from _ _ _ _ Hi).
  (* the first test passes *)
  assert (Hrun0 : runnable {| stride := 2; offset := 0 |})
    by (apply (runnable_multiple 2 0); lia).
  destruct (main_loop_body_run EXIT_SKIP drv 0 {| stride := 2; offset := 0 |} true w1)
    as (r & w2 & new & Hret & Hr & Hc2 & _ & _ & Hbody);
    [now rewrite Hc1 | exact Hrun0 | exact Herr |].
  assert (r = true) as ->.
  { apply Hr. rewrite Hdev. apply conforming_verdict; [exact Hrun0|].
    cbn [offset]. intros; lia. }
  cbn [andb] in Hbody. rewrite (tests_from_cons _ _ _ _ _ _ _ _ Hbody).
  (* the second reads before its mapping *)
  destruct (test_script_before_mapping EXIT_SKIP drv {| stride := 4 * k; offset := 4 * k |} w2)
    as (w' & Hundef); cbn [stride offset]; auto; try lia.
  { rewrite (Z.mul_comm 4 k), Z.div_mul by lia. lia. }
  { rewrite (Z.mul_comm 4 k), Z.div_mul by lia. lia. }
  exists w1, w2, w'. split; [exact Hret|]. split; [exact Hundef|].
  apply tests_from_undef.
  apply main_loop_body_undef with (one := {| stride := 4 * k; offset := 4 * k |});
    [|exact Hundef].
  rewrite Hc2, Hc1. reflexivity.
Qed.

Lemma run_reads_before_mapping_witness :
  exists w',
    run 125 (platform supports_literal 65536 run_shader) 1 ["fill_ssbo_coherent"%string]
      = Undef w'.
Proof.
  destruct (run_reads_before_mapping 125 (platform supports_literal 65536 run_shader)
              16384 1 ["fill_ssbo_coherent"%string])
    as (w1 & w2 & w' & _ & _ & Hrun).
  - reflexivity.
  - reflexivity.
  - right. reflexivity.
  - discriminate.
  - reflexivity.
  - reflexivity.
  - reflexivity.
  - lia.
  - exists w'. exact Hrun.
Defined.

End FillSsboMore.
(** * More of map_and_draw_coherent.cpp *)

Module MapDrawMore.
Import MapDraw.
Import MapDrawFacts.

(** *** The loop of [draw] *)

Lemma frames_events_snoc width height n k :
  frames_events width height n k ++ frame_events width height n =
  frame_events width height n ++ frames_events width height n k.
Proof.
  induction k as [|k IH]; cbn [frames_events].
  - now rewrite app_nil_r.
  - now rewrite <- app_assoc, IH.
Qed.

(** The loop of [draw], the window being found open [k] times and then
    closed. *)
Lemma draw_loop_frames drv width height : forall k fuel w,
  closes_after drv (close_polls w) k ->
  (k < fuel)%nat ->
  exists w',
    draw_loop drv width height fuel w = Ret tt w' /\
    trace w' = Call "glfwWindowShouldClose" [T "window"]
               :: frames_events width height (indexes_count w) k ++ trace w /\
    close_polls w' = (close_polls w + S k)%nat /\
    (mapped w', color w', vertices w', indexes w', indexes_count w') =
    (mapped w, color w, vertices w, indexes w, indexes_count w) /\
    (errors_read w', prog w', ssbo w') = (errors_read w, prog w, ssbo w).
Proof.
  induction k as [|k IH]; intros fuel w [Hopen Hclose] Hfuel.
  - destruct fuel as [|fuel]; [lia|]. destruct w; simpl in *.
    exec. rewrite Nat.add_0_r in Hclose. rewrite Hclose.
    eexists. split; [reflexivity|]. cbn. repeat split. lia.
  - destruct fuel as [|fuel]; [lia|].
    destruct w as [tr mp col ver ind cnt errs cp pr sb]; simpl in *.
    exec. fold (draw_loop drv width height).
    pose proof (Hopen 0%nat ltac:(lia)) as H0. rewrite Nat.add_0_r in H0. rewrite H0.
    match goal with |- context [draw_loop drv width height fuel ?W] =>
      destruct (IH fuel W) as (w' & -> & Htr & Hcp & Harr & Hrest) end.
    + cbn [close_polls]. split.
      * intros j Hj. replace (S cp + j)%nat with (cp + S j)%nat by lia. apply Hopen. lia.
      * replace (S cp + k)%nat with (cp + S k)%nat by lia. exact Hclose.
    + lia.
    + exists w'. split; [reflexivity|]. destruct w'. cbn in Htr, Hcp, Harr, Hrest |- *.
      split; [|split; [rewrite Hcp; lia | split; assumption]].
      rewrite Htr.
      change (?a :: ?b :: ?c :: ?d :: ?e :: ?f :: ?g :: ?h :: ?i :: ?j :: ?l :: ?m :: ?n
                :: ?o :: ?p :: ?q :: tr)
        with (frame_events width height cnt ++ tr).
      cbn [frames_events].
      now rewrite app_assoc, frames_events_snoc, <- app_assoc.
Qed.

Lemma calls_of_app fn (t1 t2 : list event) :
  calls_of fn (t1 ++ t2) = (calls_of fn t1 + calls_of fn t2)%nat.
Proof.
  induction t1 as [|[f a|to fmt a] t1 IH]; cbn [calls_of app]; [reflexivity| |exact IH].
  destruct (String.eqb f fn); [now rewrite IH | exact IH].
Qed.

Lemma calls_of_frames width height n k :
  calls_of "glDrawElements" (frames_events width height n k) = k /\
  calls_of "glfwSwapBuffers" (frames_events width height n k) = k /\
  calls_of "glfwWindowShouldClose" (frames_events width height n k) = k.
Proof.
  induction k as [|k (IH1 & IH2 & IH3)]; cbn [frames_events]; [now repeat split|].
  rewrite !calls_of_app, IH1, IH2, IH3. now repeat split.
Qed.

(** X12.  [draw] renders one frame for each poll that finds the window
    open, each with [glDrawElements] on [indexes_count] indexes, and returns
    at the first poll that finds it closed: when the window is [k] times
    open and then closed, there are [k] frames, and none if it is closed at
    the first poll.  The arrays and [indexes_count] are not written. *)
Theorem draw_frames drv fuel width height k (w : world) :
  closes_after drv (close_polls w) k ->
  (k < fuel)%nat ->
  exists w',
    draw drv fuel width height w = Ret tt w' /\
    trace w' =
      Call "glfwWindowShouldClose" [T "window"]
      :: frames_events width height (indexes_count w) k
      ++ Call "glUseProgram" [T "prog"] :: trace w /\
    calls_of "glDrawElements" (trace w') = (k + calls_of "glDrawElements" (trace w))%nat /\
    calls_of "glfwSwapBuffers" (trace w') = (k + calls_of "glfwSwapBuffers" (trace w))%nat /\
    close_polls w' = (close_polls w + S k)%nat /\
    (color w', vertices w', indexes w', indexes_count w') =
    (color w, vertices w, indexes w, indexes_count w).
Proof.
  intros Hclose Hfuel. unfold draw. unfold bind, call, modify.
  destruct (draw_loop_frames drv width height k fuel
              (set_trace (cons (Call "glUseProgram" [T "prog"])) w))
    as (w' & -> & Htr & Hcp & Harr & _); [destruct w; exact Hclose | exact Hfuel |].
  exists w'. split; [reflexivity|]. destruct w; cbn in *.
  destruct (calls_of_frames width height indexes_count0 k) as (H1 & H2 & _).
  rewrite Htr. cbn [calls_of String.eqb Ascii.eqb Bool.eqb].
  rewrite !calls_of_app, H1, H2. cbn [calls_of String.eqb Ascii.eqb Bool.eqb].
  injection Harr as _ Hc Hv Hi Hn.
  repeat split; congruence.
Qed.

Lemma draw_frames_witness :
  exists w',
    draw (platform supports_literal 3 (fun _ _ => [])) 5 256 256 initial_world = Ret tt w' /\
    calls_of "glDrawElements" (trace w') = 3%nat.
Proof.
  destruct (draw_frames (platform supports_literal 3 (fun _ _ => [])) 5 256 256 3
              initial_world) as (w' & Hret & _ & Hn & _).
  - split; [|reflexivity]. intros j Hj. simpl.
    destruct j as [|[|[|j]]]; [reflexivity | reflexivity | reflexivity | lia].
  - lia.
  - exists w'. split; [exact Hret | exact Hn].
Defined.

(** X13.  As long as the window is not found closed, [draw] does not
    return: whatever bound is put on the number of frames, the loop is
    still running when it is reached.  Nothing in the program limits the
    frames. *)
Theorem draw_runs_while_open drv width height fuel (w : world) :
  (forall n, glfwWindowShouldClose drv n = false) ->
  exists w',
    draw drv fuel width height w = Fuel w' /\
    calls_of "glDrawElements" (trace w') = (fuel + calls_of "glDrawElements" (trace w))%nat.
Proof.
  intros Hopen. unfold draw. unfold bind at 1. unfold call, modify.
  assert (H : forall fuel w0, exists w',
             draw_loop drv width height fuel w0 = Fuel w' /\
             calls_of "glDrawElements" (trace w') =
               (fuel + calls_of "glDrawElements" (trace w0))%nat).
  { clear w fuel. induction fuel as [|fuel IH]; intros w0.
    - exists w0. split; reflexivity.
    - destruct w0 as [tr mp col ver ind cnt errs cp pr sb].
      cbn [draw_loop]. exec. fold (draw_loop drv width height). rewrite Hopen.
      match goal with |- context [draw_loop drv width height fuel ?W] =>
        destruct (IH W) as (w' & -> & Hn) end.
      exists w'. split; [reflexivity|]. destruct w'. cbn in Hn |- *. rewrite Hn. lia. }
  destruct (H fuel (set_trace (cons (Call "glUseProgram" [T "prog"])) w)) as (w' & -> & Hn).
  exists w'. split; [reflexivity|]. rewrite Hn. destruct w. reflexivity.
Qed.

Lemma draw_runs_while_open_witness :
  exists w',
    draw never_closed 4 256 256 initial_world = Fuel w' /\
    calls_of "glDrawElements" (trace w') = 4%nat.
Proof.
  destruct (draw_runs_while_open never_closed 256 256 4 initial_world) as (w' & Hret & Hn).
  - reflexivity.
  - exists w'. split; [exact Hret | exact Hn].
Defined.

(** *** The ways [main] ends before drawing *)

(** X14.  When the framebuffer is not complete, [setup_buffers] returns
    [false] and [main] returns 0, the status of a pass: nothing is
    generated or drawn, and neither [glfwDestroyWindow] nor [glfwTerminate]
    is called. *)
Theorem main_returns_0_on_incomplete_framebuffer EXIT_SKIP drv fuel argc argv :
  glfwCreateWindow_ok drv = true ->
  gladLoadGLLoader_ok drv = true ->
  glCreateProgram drv <> 0 ->
  GLAD_GL_VERSION_4_4 drv <> 0 \/ glfwExtensionSupported drv "extension" = true ->
  glGenBuffers_ssbo drv <> 0 ->
  glGetError drv 0 = GL_NO_ERROR ->
  glCheckFramebufferStatus_complete drv = false ->
  exists w',
    run EXIT_SKIP drv fuel argc argv = Ret 0 w' /\
    (exists older,
       trace w' = Call "glCheckFramebufferStatus" [T "GL_FRAMEBUFFER"] :: older) /\
    (color w', vertices w', indexes w') = (∅, ∅, ∅) /\
    calls_of "glDrawElements" (trace w') = 0%nat /\
    calls_of "glfwDestroyWindow" (trace w') = 0%nat /\
    calls_of "glfwTerminate" (trace w') = 0%nat.
Proof.
  intros Hwin Hglad Hprog Hext Hssbo He0 Hfb.
  unfold run, main, build_programm, setup_buffers, reqire_extension, initial_world.
  cbv zeta. rewrite Hwin, Hglad, Hfb. cbn [negb].
  destruct (Z.eqb_spec (GLAD_GL_VERSION_4_4 drv) 0) as [E|E];
    [destruct Hext as [Hext|Hext]; [contradiction | rewrite Hext; cbn [negb]]|];
    destruct (GL_COMPILE_STATUS_vertex drv =? 0), (GL_COMPILE_STATUS_fragment drv =? 0),
      (GL_LINK_STATUS drv =? 0); exec;
    (destruct (Z.eqb_spec (glCreateProgram drv) 0); [contradiction|]);
    (destruct (Z.eqb_spec (glGenBuffers_ssbo drv) 0); [contradiction|]);
    rewrite He0; cbn;
    (eexists; split; [reflexivity|]); cbn; repeat split; eexists; reflexivity.
Qed.

Lemma main_returns_0_on_incomplete_framebuffer_witness :
  exists w',
    run 125 incomplete_framebuffer 5 1 ["map_and_draw_coherent"%string] = Ret 0 w' /\
    calls_of "glDrawElements" (trace w') = 0%nat.
Proof.
  destruct (main_returns_0_on_incomplete_framebuffer 125 incomplete_framebuffer 5 1
              ["map_and_draw_coherent"%string]) as (w' & Hret & _ & _ & Hn & _).
  - reflexivity.
  - reflexivity.
  - discriminate.
  - left. discriminate.
  - discriminate.
  - reflexivity.
  - reflexivity.
  - exists w'. split; [exact Hret | exact Hn].
Defined.

(** *** The exit status *)

Section Statuses.

Variables (EXIT_SKIP : Z) (drv : driver).

Let Cause := exit_cause EXIT_SKIP drv.
Let Failed := glCreateProgram drv = 0 \/ glGenBuffers_ssbo drv = 0.

Ltac straight :=
  repeat first
    [ apply stops_ret | apply stops_modify | apply stops_gets | apply stops_undef
    | apply stops_out_of_fuel
    | apply stops_bind; [|intros ?]
    | match goal with
      | |- stops_with _ _ (if ?b then _ else _) => destruct b
      | |- stops_with _ _ (match ?x with _ => _ end) => destruct x
      end ].

Lemma draw_stops_store {V} k (set : (gmap Z V -> gmap Z V) -> world -> world) index (v : V) :
  stops_with Cause Failed (store k set index v).
Proof using Type. unfold store. straight. Qed.

Lemma draw_stops_reqire_extension ext :
  stops_with Cause Failed (reqire_extension EXIT_SKIP drv ext (GLAD_GL_VERSION_4_4 drv)).
Proof using Type.
  intros w. unfold reqire_extension.
  destruct (Z.eqb_spec (GLAD_GL_VERSION_4_4 drv) 0) as [E|E]; [|exact Logic.I].
  destruct (glfwExtensionSupported drv "extension") eqn:Hx; exec; [exact Logic.I|].
  left. auto.
Qed.

Lemma draw_stops_build_programm : stops_with Cause Failed (build_programm drv).
Proof using Type.
  intros w. destruct w as [tr mp col ver ind cnt errs cp pr sb]. unfold build_programm.
  destruct (GL_COMPILE_STATUS_vertex drv =? 0), (GL_COMPILE_STATUS_fragment drv =? 0),
    (GL_LINK_STATUS drv =? 0); exec;
    destruct (Z.eqb_spec (glCreateProgram drv) 0); try exact Logic.I; now left.
Qed.

Lemma draw_stops_setup_buffers width height :
  stops_with Cause Failed (setup_buffers EXIT_SKIP drv width height).
Proof using Type.
  unfold setup_buffers. cbv zeta.
  do 4 (apply stops_bind; [apply draw_stops_reqire_extension | intros _]).
  intros w. destruct w as [tr mp col ver ind cnt errs cp pr sb]. exec.
  destruct (Z.eqb_spec (glGenBuffers_ssbo drv) 0) as [E|E]; [now right|].
  destruct (Z.eqb_spec (glGetError drv errs) GL_NO_ERROR) as [E0|E0].
  2: { destruct (glGetError drv errs =? GL_OUT_OF_MEMORY) eqn:Ho;
         right; exists errs; unfold error_status; rewrite Ho; auto. }
  destruct (glCheckFramebufferStatus_complete drv); cbn [negb]; [|exact Logic.I].
  destruct (Z.eqb_spec (glGetError drv (Datatypes.S errs)) GL_NO_ERROR) as [E1|E1];
    [exact Logic.I|].
  destruct (glGetError drv (Datatypes.S errs) =? GL_OUT_OF_MEMORY) eqn:Ho;
    right; exists (Datatypes.S errs); unfold error_status; rewrite Ho; auto.
Qed.

Ltac loop_step :=
  repeat first
    [ apply draw_stops_store | apply stops_ret | apply stops_out_of_fuel
    | apply stops_bind; [|intros ?]
    | match goal with
      | H : forall _ _, stops_with _ _ _ |- _ => apply H
      | |- stops_with _ _ (if ?b then _ else _) => destruct b
      end ].

Lemma draw_stops_color_row width height y : forall fuel x index,
  stops_with Cause Failed (color_row width height y fuel x index).
Proof using Type. induction fuel as [|fuel IH]; intros x index; cbn [color_row]; loop_step. Qed.

Lemma draw_stops_color_rows width height : forall fuel y index,
  stops_with Cause Failed (color_rows width height fuel y index).
Proof using Type.
  induction fuel as [|fuel IH]; intros y index; cbn [color_rows];
    repeat first
      [ apply draw_stops_color_row | apply stops_ret | apply stops_out_of_fuel
      | apply stops_bind; [|intros ?] | apply IH
      | match goal with |- stops_with _ _ (if ?b then _ else _) => destruct b end ].
Qed.

Lemma draw_stops_vertex_row width height step y : forall fuel x index,
  stops_with Cause Failed (vertex_row width height step y fuel x index).
Proof using Type. induction fuel as [|fuel IH]; intros x index; cbn [vertex_row]; loop_step. Qed.

Lemma draw_stops_vertex_rows width height step : forall fuel y index,
  stops_with Cause Failed (vertex_rows width height step fuel y index).
Proof using Type.
  induction fuel as [|fuel IH]; intros y index; cbn [vertex_rows];
    repeat first
      [ apply draw_stops_vertex_row | apply stops_ret | apply stops_out_of_fuel
      | apply stops_bind; [|intros ?] | apply IH
      | match goal with |- stops_with _ _ (if ?b then _ else _) => destruct b end ].
Qed.

Lemma draw_stops_index_pairs cols y : forall fuel x index,
  stops_with Cause Failed (index_pairs cols y fuel x index).
Proof using Type. induction fuel as [|fuel IH]; intros x index; cbn [index_pairs]; loop_step. Qed.

Lemma draw_stops_index_rows cols rows : forall fuel y index,
  stops_with Cause Failed (index_rows cols rows fuel y index).
Proof using Type.
  induction fuel as [|fuel IH]; intros y index; cbn [index_rows];
    repeat first
      [ apply draw_stops_index_pairs | apply draw_stops_store | apply stops_ret
      | apply stops_out_of_fuel
      | apply stops_bind; [|intros ?] | apply IH
      | match goal with |- stops_with _ _ (if ?b then _ else _) => destruct b end ].
Qed.

Lemma draw_stops_generate_colors width height step :
  stops_with Cause Failed (generate_colors width height step).
Proof using Type.
  unfold generate_colors, printf.
  apply stops_bind; [apply draw_stops_color_rows | intros ?; apply stops_modify].
Qed.

Lemma draw_stops_generateVerticles width height step :
  stops_with Cause Failed (generateVerticles width height step).
Proof using Type.
  unfold generateVerticles, printf. cbv zeta.
  repeat first
    [ apply draw_stops_vertex_rows | apply draw_stops_index_rows
    | apply stops_modify | apply stops_undef
    | apply stops_bind; [|intros ?]
    | match goal with |- stops_with _ _ (if ?b then _ else _) => destruct b end ].
Qed.

Lemma draw_stops_draw_loop width height : forall fuel,
  stops_with Cause Failed (draw_loop drv width height fuel).
Proof using Type.
  induction fuel as [|fuel IH]; cbn [draw_loop]; [apply stops_out_of_fuel|].
  unfold draw_frame, call.
  repeat first
    [ exact IH | apply stops_ret | apply stops_modify | apply stops_gets
    | apply stops_bind; [|intros ?]
    | match goal with |- stops_with _ _ (if ?b then _ else _) => destruct b end ].
Qed.

Lemma draw_stops_main fuel argc argv : stops_with Cause Failed (main EXIT_SKIP drv fuel argc argv).
Proof using Type.
  unfold main, getSystemPageSize, glfwWindowHints, draw, call, printf. cbv zeta.
  repeat first
    [ apply draw_stops_build_programm | apply draw_stops_setup_buffers
    | apply draw_stops_generateVerticles | apply draw_stops_generate_colors
    | apply draw_stops_draw_loop
    | apply stops_ret | apply stops_modify
    | apply stops_bind; [|intros ?]
    | match goal with |- stops_with _ _ (if ?b then _ else _) => destruct b end ].
Qed.

End Statuses.

Lemma draw_main_returns_statuses EXIT_SKIP drv fuel argc argv :
  returns_with
    (fun c => c = EXIT_SKIP /\ glfwCreateWindow_ok drv = false \/
              c = EXIT_FAILURE /\ glfwCreateWindow_ok drv = true /\
                gladLoadGLLoader_ok drv = false \/
              c = 0 /\ glfwCreateWindow_ok drv = true /\ gladLoadGLLoader_ok drv = true)
    (main EXIT_SKIP drv fuel argc argv).
Proof.
  unfold main. cbv zeta.
  do 5 (apply returns_bind; intros ?).
  destruct (glfwCreateWindow_ok drv); cbn [negb]; [|apply returns_ret; auto].
  do 2 (apply returns_bind; intros ?).
  destruct (gladLoadGLLoader_ok drv); cbn [negb]; [|apply returns_ret; auto].
  do 2 (apply returns_bind; intros ?).
  match goal with |- returns_with _ (if negb ?b then _ else _) => destruct b end;
    cbn [negb]; [|apply returns_ret; auto].
  repeat (apply returns_bind; intros ?).
  apply returns_ret. auto.
Qed.

(** X16.  The ways a run of [map_and_draw_coherent] stops.  When [main]
    returns, it returns [EXIT_SKIP] and no window was created, or
    [EXIT_FAILURE] and GL did not load, or 0 with a window and GL loaded.
    When the process leaves through [exit], it had a window and GL, and
    either the check of the extensions found GL 4.4 and the extension
    called [extension] both missing and left with [EXIT_SKIP], or
    [check_error] had just read an error and left with [EXIT_SKIP] on
    [GL_OUT_OF_MEMORY] and with [EXIT_FAILURE] on any other error.  When it
    stops on a failed [assert], [glCreateProgram] had returned 0 or the
    name generated for [ssbo] was 0. *)
Theorem draw_run_status EXIT_SKIP drv fuel argc argv :
  match run EXIT_SKIP drv fuel argc argv with
  | Ret c _ =>
      c = EXIT_SKIP /\ glfwCreateWindow_ok drv = false \/
      c = EXIT_FAILURE /\ glfwCreateWindow_ok drv = true /\
        gladLoadGLLoader_ok drv = false \/
      c = 0 /\ glfwCreateWindow_ok drv = true /\ gladLoadGLLoader_ok drv = true
  | Exit c w' =>
      glfwCreateWindow_ok drv = true /\ gladLoadGLLoader_ok drv = true /\
      exit_cause EXIT_SKIP drv c w'
  | Abort _ =>
      glfwCreateWindow_ok drv = true /\ gladLoadGLLoader_ok drv = true /\
      (glCreateProgram drv = 0 \/ glGenBuffers_ssbo drv = 0)
  | Undef _ | Fuel _ => True
  end.
Proof.
  pose proof (draw_stops_main EXIT_SKIP drv fuel argc argv initial_world) as Hstop.
  pose proof (draw_main_returns_statuses EXIT_SKIP drv fuel argc argv initial_world) as Hret.
  unfold run.
  destruct (glfwCreateWindow_ok drv) eqn:Hw.
  - destruct (gladLoadGLLoader_ok drv) eqn:Hg.
    + destruct (main EXIT_SKIP drv fuel argc argv initial_world) as [c w'|c w'|w'|w'|w'];
        auto.
      destruct (Hret c w' eq_refl) as [[_ H]|[(_ & _ & H)|(-> & _)]];
        try discriminate H. auto.
    + clear Hstop Hret. unfold main, initial_world. cbv zeta.
      rewrite Hw, Hg. cbn [negb]. exec. auto.
  - clear Hstop Hret. unfold main, initial_world. cbv zeta.
    rewrite Hw. cbn [negb]. exec. auto.
Qed.

(** *** The colour table *)

Lemma store_color_run (w : world) sz index (v : float) :
  mapped w !! 0 = Some sz -> 0 <= index -> 4 * index + 4 <= sz ->
  store 0 set_color index v w = Ret tt (set_color (insert index v) w).
Proof.
  intros Hm H0 H1. unfold store, bind, gets. rewrite Hm. unfold sizeof_element.
  destruct (Z.leb_spec 0 index); [|lia].
  destruct (Z.leb_spec (4 * index + 4) sz); [|lia]. reflexivity.
Qed.

Section Colors.

Variables (width height sz : Z).

(** One row of the table. *)
Lemma color_row_spec y : forall fuel x index (w : world),
  mapped w !! 0 = Some sz ->
  0 <= x <= width -> 0 <= index -> 4 * (index + 4 * (width - x)) <= sz ->
  (Z.to_nat (width - x) < fuel)%nat ->
  exists w',
    color_row width height y fuel x index w = Ret (index + 4 * (width - x)) w' /\
    (forall x' c, x <= x' < width -> 0 <= c < 4 ->
       color w' !! (index + 4 * (x' - x) + c) = Some (color_value width height x' y c)) /\
    (forall i, i < index \/ index + 4 * (width - x) <= i -> color w' !! i = color w !! i) /\
    beside_color w' = beside_color w /\ trace w' = trace w.
Proof.
  induction fuel as [|fuel IH]; intros x index w Hm Hx Hi Hsz Hfuel; [lia|].
  cbn [color_row]. destruct (Z.ltb_spec x width) as [Hlt|Hge].
  - unfold bind at 1. rewrite (store_color_run w sz) by (auto; lia).
    unfold bind at 1. rewrite (store_color_run _ sz) by (destruct w; auto; lia).
    unfold bind at 1. rewrite (store_color_run _ sz) by (destruct w; auto; lia).
    unfold bind at 1. rewrite (store_color_run _ sz) by (destruct w; auto; lia).
    match goal with |- context [color_row _ _ _ fuel _ _ ?W] =>
      destruct (IH (x + 1) (index + 4) W) as (w' & Hret & Hw & Hf & Hb & Ht);
        [destruct w; exact Hm | lia | lia | lia | lia |]
    end.
    exists w'. split; [rewrite Hret; f_equal; lia|].
    split; [|split; [|split]].
    + intros x' c Hx' Hc. destruct (Z.eq_dec x' x) as [->|Hne].
      * rewrite Hf by lia. destruct w; cbn [color set_color].
        replace (index + 4 * (x - x) + c) with (index + c) by lia.
        assert (c = 0 \/ c = 1 \/ c = 2 \/ c = 3) as [-> | [-> | [-> | ->]]] by lia;
          unfold color_value; cbn [Z.eqb Pos.eqb];
          rewrite ?Z.add_0_r;
          repeat first [ rewrite lookup_insert_eq; reflexivity
                       | rewrite lookup_insert_ne by lia ].
      * replace (index + 4 * (x' - x) + c) with (index + 4 + 4 * (x' - (x + 1)) + c) by lia.
        apply Hw; lia.
    + intros i Hi'. rewrite Hf by lia. destruct w; cbn [color set_color].
      now rewrite !lookup_insert_ne by lia.
    + rewrite Hb. destruct w; reflexivity.
    + rewrite Ht. destruct w; reflexivity.
  - assert (x = width) as -> by lia. exists w. split; [f_equal; lia|].
    split; [intros; lia|]. auto.
Qed.

Hypothesis Hwidth : 0 <= width.

(** The rows from [y] on. *)
Lemma color_rows_spec : forall fuel y index (w : world),
  mapped w !! 0 = Some sz ->
  0 <= y <= height -> 0 <= index -> 4 * (index + 4 * (width * (height - y))) <= sz ->
  (Z.to_nat (height - y) < fuel)%nat ->
  exists w',
    color_rows width height fuel y index w = Ret (index + 4 * (width * (height - y))) w' /\
    (forall x' y' c, 0 <= x' < width -> y <= y' < height -> 0 <= c < 4 ->
       color w' !! (index + 4 * (width * (y' - y) + x') + c) =
         Some (color_value width height x' y' c)) /\
    (forall i, i < index \/ index + 4 * (width * (height - y)) <= i ->
               color w' !! i = color w !! i) /\
    beside_color w' = beside_color w /\ trace w' = trace w.
Proof using Hwidth.
  induction fuel as [|fuel IH]; intros y index w Hm Hy Hi Hsz Hfuel; [lia|].
  cbn [color_rows]. destruct (Z.ltb_spec y height) as [Hlt|Hge].
  - assert (Hmul : width * (height - y) = width + width * (height - (y + 1))) by ring.
    assert (Hpos : 0 <= width * (height - (y + 1))) by (apply Z.mul_nonneg_nonneg; lia).
    destruct (color_row_spec y (span_fuel 0 width) 0 index w Hm)
      as (w1 & Hret1 & Hw1 & Hf1 & Hb1 & Ht1); [lia | lia | lia | unfold span_fuel; lia |].
    unfold bind at 1. rewrite Hret1. rewrite Z.sub_0_r.
    destruct (IH (y + 1) (index + 4 * width) w1) as (w' & Hret & Hw & Hf & Hb & Ht);
      [ | lia | lia | lia | lia | ].
    { unfold beside_color in Hb1. congruence. }
    exists w'. split; [rewrite Hret; f_equal; lia|].
    split; [|split; [|split; congruence]].
    + intros x' y' c Hx' Hy' Hc. destruct (Z.eq_dec y' y) as [->|Hne].
      * rewrite Hf by lia.
        replace (width * (y - y) + x') with (x' - 0) by (rewrite Z.sub_diag; lia).
        apply Hw1; lia.
      * assert (Hm' : width * (y' - y) = width + width * (y' - (y + 1))) by ring.
        replace (index + 4 * (width * (y' - y) + x') + c)
          with (index + 4 * width + 4 * (width * (y' - (y + 1)) + x') + c) by lia.
        apply Hw; lia.
    + intros i Hi'. rewrite Hf by lia. apply Hf1. lia.
  - assert (y = height) as -> by lia. rewrite Z.sub_diag, Z.mul_0_r.
    exists w. split; [f_equal; lia|]. split; [intros; lia|]. auto.
Qed.

End Colors.

(** The table [generate_colors] writes. *)
Lemma generate_colors_run width height step sz (w : world) :
  mapped w !! 0 = Some sz ->
  0 <= width -> 0 <= height -> 16 * (width * height) <= sz ->
  exists w',
    generate_colors width height step w = Ret tt w' /\
    (forall x y c, 0 <= x < width -> 0 <= y < height -> 0 <= c < 4 ->
       color w' !! (4 * (x + y * width) + c) = Some (color_value width height x y c)) /\
    (forall i, i < 0 \/ 4 * (width * height) <= i -> color w' !! i = color w !! i) /\
    trace w' = Printf stdout "Colors count %d \n" [I (width * height)] :: trace w /\
    beside_color w' = beside_color w.
Proof.
  intros Hm Hw Hh Hsz. unfold generate_colors.
  destruct (color_rows_spec width height sz Hw (span_fuel 0 height) 0 0 w Hm)
    as (w1 & Hret & Hc & Hf & Hb & Ht); [lia | lia | rewrite Z.sub_0_r; lia
                                        | unfold span_fuel; lia |].
  rewrite Z.sub_0_r, Z.add_0_l in Hret, Hf.
  unfold bind. rewrite Hret. unfold printf, modify.
  eexists. split; [reflexivity|]. clear Hret. unfold beside_color in *.
  destruct w1; cbn [set_trace trace mapped color vertices indexes indexes_count
                    errors_read close_polls prog ssbo] in *.
  split; [|split; [|split]].
  - intros x y c Hx Hy Hc'. specialize (Hc x y c Hx ltac:(lia) Hc').
    rewrite Z.sub_0_r in Hc. rewrite <- Hc. f_equal. lia.
  - exact Hf.
  - rewrite Ht. unfold idiv.
    rewrite (Z.mul_comm 4 (width * height)), Z.quot_mul by lia. reflexivity.
  - exact Hb.
Qed.

(** X18.  [generate_colors], the mapping of the colour buffer holding
    [width * height] colours of four floats and its size being that of a
    [GLint]: it returns having written, for every pixel [(x, y)], the
    [float]s [(float) x / (float) width], [(float) y / (float) height],
    [(float) (x + y * width) / (float) (width * height)], each quotient
    rounded to binary32, and 1 at the indices [4 * (x + y * width)] to
    [4 * (x + y * width) + 3] (the entry [x + width * y] of the array of
    [vec4] the fragment shader reads, with [width = 256]) and nothing else,
    and having printed the count [width * height]. *)
Theorem generate_colors_layout width height step sz (w : world) :
  mapped w !! 0 = Some sz -> sz <= INT_MAX ->
  0 <= width -> 0 <= height -> 16 * (width * height) <= sz ->
  exists w',
    generate_colors width height step w = Ret tt w' /\
    (forall x y c, 0 <= x < width -> 0 <= y < height -> 0 <= c < 4 ->
       color w' !! (4 * (x + y * width) + c) = Some (color_value width height x y c)) /\
    (forall i, i < 0 \/ 4 * (width * height) <= i -> color w' !! i = color w !! i) /\
    trace w' = Printf stdout "Colors count %d \n" [I (width * height)] :: trace w /\
    beside_color w' = beside_color w.
Proof. intros Hm _. now apply generate_colors_run. Qed.

Lemma generate_colors_layout_witness :
  exists w',
    generate_colors 3 2 8 (set_mapped (insert 0 96) initial_world) = Ret tt w' /\
    color w' !! 4 = Some (Finite (11184811 # 33554432)) /\
    color w' !! 5 = Some (Finite 0) /\
    color w' !! 6 = Some (Finite (11184811 # 67108864)) /\
    color w' !! 7 = Some (Finite 1) /\
    color w' !! 24 = None.
Proof.
  destruct (generate_colors_layout 3 2 8 96 (set_mapped (insert 0 96) initial_world))
    as (w' & Hret & Hc & Hout & _).
  - reflexivity.
  - discriminate.
  - lia.
  - lia.
  - lia.
  - exists w'. split; [exact Hret|].
    split; [exact (Hc 1 0 0 ltac:(lia) ltac:(lia) ltac:(lia))|].
    split; [exact (Hc 1 0 1 ltac:(lia) ltac:(lia) ltac:(lia))|].
    split; [exact (Hc 1 0 2 ltac:(lia) ltac:(lia) ltac:(lia))|].
    split; [exact (Hc 1 0 3 ltac:(lia) ltac:(lia) ltac:(lia))|].
    rewrite Hout by lia. reflexivity.
Defined.

(** *** A whole run *)

(** X20.  A run of [map_and_draw_coherent] that gets its window, GL and
    buffers, the window being found open [k] times: the three mapped arrays
    are written once, before the first frame (1089 vertices, 2176 indexes
    below 1089, and the 65536 colours, which fill the mapping of the colour
    buffer to its last float), every one of the [k] frames draws the 2176
    indexes, and no frame writes to a mapped array. *)
Theorem main_writes_then_draws EXIT_SKIP drv fuel k argc argv :
  glfwCreateWindow_ok drv = true ->
  gladLoadGLLoader_ok drv = true ->
  glCreateProgram drv <> 0 ->
  GLAD_GL_VERSION_4_4 drv <> 0 \/ glfwExtensionSupported drv "extension" = true ->
  glGenBuffers_ssbo drv <> 0 ->
  glGetError drv 0 = GL_NO_ERROR ->
  glGetError drv 1 = GL_NO_ERROR ->
  glCheckFramebufferStatus_complete drv = true ->
  closes_after drv 0 k -> (k < fuel)%nat ->
  exists w' before,
    run EXIT_SKIP drv fuel argc argv = Ret 0 w' /\
    trace w' =
      Call "glfwTerminate" [] :: Call "glfwDestroyWindow" [T "window"]
      :: Call "glfwWindowShouldClose" [T "window"]
      :: frames_events 256 256 2176 k
      ++ Call "glUseProgram" [T "prog"]
      :: Printf stdout "Colors count %d \n" [I 65536]
      :: Printf stdout "Indexes count %d \n" [I 2176]
      :: Printf stdout "Vertexes count %d \n" [I 1089] :: before /\
    mapped w' = mapped_by_setup /\
    (forall x y c, 0 <= x < 256 -> 0 <= y < 256 -> 0 <= c < 4 ->
       color w' !! (4 * (x + y * 256) + c) = Some (color_value 256 256 x y c)) /\
    (forall i, i < 0 \/ 262144 <= i -> color w' !! i = None) /\
    (forall i, is_Some (vertices w' !! i) <-> 0 <= i < 3 * 1089) /\
    (forall i, is_Some (indexes w' !! i) <-> 0 <= i < 2176) /\
    (forall i v, indexes w' !! i = Some v -> 0 <= v < 1089) /\
    indexes_count w' = 2176.
Proof.
  intros Hwin Hglad Hprog Hext Hssbo He0 He1 Hfb Hclose Hfuel.
  unfold run, main, initial_world. exec. rewrite Hwin, Hglad. simpl.
  match goal with |- context [build_programm drv ?W] =>
    destruct (draw_build_programm_returns drv W Hprog) as (w1 & -> & Ha1 & He & Hc1) end.
  simpl in Ha1, He, Hc1. injection Ha1 as Hm1 Hcol1 Hv1 Hi1.
  destruct (setup_buffers_returns EXIT_SKIP drv w1) as (w2 & -> & Hm2 & Ha2); auto;
    try (rewrite He; assumption).
  injection Ha2 as Hcol2 Hv2 Hi2 Hc2. simpl.
  pose proof (generateVerticles_report w2 Hm2 ltac:(congruence) ltac:(congruence)
                ltac:(congruence)) as Hrep.
  destruct (generateVerticles 256 256 8 w2) as [[] w3| | | |] eqn:Hgen; try discriminate Hrep.
  simpl in Hrep. injection Hrep as Htr3 Hm3 _ Hcp3 _ _ Hcount Hvert Hind Hcol3.
  apply written_range_spec in Hvert as [Hvert _].
  apply written_range_spec in Hind as [Hind Hbelow].
  apply bool_decide_eq_true in Hcol3.
  destruct (generate_colors_run 256 256 8 1048576 w3) as (w4 & -> & Hlay & Hout & Htr4 & Hb4);
    [rewrite Hm3, Hm2; reflexivity | lia | lia | lia |].
  unfold beside_color in Hb4.
  injection Hb4 as Hm4 Hv4 Hi4 Hn4 _ Hcp4 _ _.
  assert (Hdraw : exists w5,
            draw drv fuel 256 256 w4 = Ret tt w5 /\
            trace w5 = Call "glfwWindowShouldClose" [T "window"]
                       :: frames_events 256 256 (indexes_count w4) k
                       ++ Call "glUseProgram" [T "prog"] :: trace w4 /\
            (mapped w5, color w5, vertices w5, indexes w5, indexes_count w5) =
            (mapped w4, color w4, vertices w4, indexes w4, indexes_count w4)).
  { unfold draw. unfold bind, call, modify.
    destruct (draw_loop_frames drv 256 256 k fuel
                (set_trace (cons (Call "glUseProgram" [T "prog"])) w4))
      as (w5 & -> & Htr5 & _ & Harr & _).
    - assert (Hc : close_polls w4 = 0%nat) by congruence.
      destruct w4; cbn in Hc |- *. rewrite Hc. exact Hclose.
    - exact Hfuel.
    - exists w5. split; [reflexivity|]. destruct w4; cbn in *. split; assumption. }
  destruct Hdraw as (w5 & -> & Htr5 & Harr).
  injection Harr as Hm5 Hcol5 Hv5 Hi5 Hn5.
  eexists _, (trace w2). split; [reflexivity|].
  destruct w5; cbn [set_trace trace mapped color vertices indexes indexes_count] in *.
  subst. rewrite Htr4, Htr3, Hn4, Hcount, Hm4, Hm3, Hv4, Hi4.
  split; [reflexivity|]. split; [exact Hm2|].
  split; [exact Hlay|].
  split; [intros i Hi'; rewrite Hout by lia; rewrite Hcol3; apply lookup_empty|].
  split; [exact Hvert|]. split; [exact Hind|]. split; [|reflexivity].
  intros i v Hiv. apply Hbelow in Hiv.
  rewrite andb_true_iff, Z.leb_le, Z.ltb_lt in Hiv. exact Hiv.
Qed.

Lemma main_writes_then_draws_witness :
  exists w',
    run 125 (platform supports_literal 3 (fun _ _ => [])) 5 1
      ["map_and_draw_coherent"%string] = Ret 0 w' /\
    indexes_count w' = 2176 /\
    color w' !! (4 * (255 + 255 * 256) + 3) = Some (color_value 256 256 255 255 3) /\
    color w' !! 262144 = None.
Proof.
  destruct (main_writes_then_draws 125 (platform supports_literal 3 (fun _ _ => [])) 5 3 1
              ["map_and_draw_coherent"%string])
    as (w' & before & Hret & _ & _ & Hlay & Hout & _ & _ & _ & Hn).
  - reflexivity.
  - reflexivity.
  - discriminate.
  - now right.
  - discriminate.
  - reflexivity.
  - reflexivity.
  - reflexivity.
  - split; [|reflexivity]. intros j Hj. simpl.
    destruct j as [|[|[|j]]]; [reflexivity | reflexivity | reflexivity | lia].
  - lia.
  - exists w'. split; [exact Hret|]. split; [exact Hn|]. split.
    + apply (Hlay 255 255 3); lia.
    + apply Hout. lia.
Defined.

End MapDrawMore.
(** * Both programs: the shader program *)

Lemma fill_build_programm_run (drv : FillSsbo.driver) (w : FillSsbo.world) :
  let w' := FillSsbo.set_prog (FillSsbo.glCreateProgram drv)
              (FillSsbo.set_trace (app (FillSsbo.build_programm_events drv)) w) in
  FillSsbo.build_programm drv w =
    if FillSsbo.glCreateProgram drv =? 0 then Abort w' else Ret tt w'.
Proof.
  unfold FillSsbo.build_programm, FillSsbo.build_programm_events. destruct w.
  destruct (FillSsbo.GL_COMPILE_STATUS drv =? 0), (FillSsbo.GL_LINK_STATUS drv =? 0);
    FillSsboFacts.exec; destruct (FillSsbo.glCreateProgram drv =? 0); reflexivity.
Qed.

Lemma draw_build_programm_run (drv : MapDraw.driver) (w : MapDraw.world) :
  let w' := MapDraw.set_prog (MapDraw.glCreateProgram drv)
              (MapDraw.set_trace (app (MapDraw.build_programm_events drv)) w) in
  MapDraw.build_programm drv w =
    if MapDraw.glCreateProgram drv =? 0 then Abort w' else Ret tt w'.
Proof.
  unfold MapDraw.build_programm, MapDraw.build_programm_events. destruct w.
  destruct (MapDraw.GL_COMPILE_STATUS_vertex drv =? 0),
    (MapDraw.GL_COMPILE_STATUS_fragment drv =? 0), (MapDraw.GL_LINK_STATUS drv =? 0);
    MapDrawFacts.exec; destruct (MapDraw.glCreateProgram drv =? 0); reflexivity.
Qed.

Ltac in_events :=
  cbn [app In];
  split; [ intros H; repeat (destruct H as [H|H]; try discriminate H);
           solve [ contradiction | congruence | reflexivity | assumption ]
         | intros H; solve [ congruence | auto 25 ] ].

(** X17.  In both programs a shader that does not compile, or a program that
    does not link, is reported on standard output and nothing more:
    [build_programm] goes on, links and returns, and the program runs with
    the program object it has.  (The compute shader of [fill_ssbo_coherent]
    is reported as a vertex shader.)  Only a program object named 0 stops
    the run, on the [assert]. *)
Theorem build_programm_goes_on_after_errors :
  (forall (drv : FillSsbo.driver) (w : FillSsbo.world),
     let o := FillSsbo.build_programm drv w in
     let new := FillSsbo.build_programm_events drv in
     FillSsbo.trace (final_world o) = new ++ FillSsbo.trace w /\
     (In (Printf stdout "ERROR::SHADER::VERTEX::COMPILATION_FAILED %s\n" [T "infoLog"]) new
      <-> FillSsbo.GL_COMPILE_STATUS drv = 0) /\
     (In (Printf stdout "ERROR::SHADER::PROGRAM::LINKING_FAILED %s\n" [T "infoLog"]) new
      <-> FillSsbo.GL_LINK_STATUS drv = 0) /\
     In (Call "glLinkProgram" [T "prog"]) new /\
     FillSsbo.prog (final_world o) = FillSsbo.glCreateProgram drv /\
     (FillSsbo.glCreateProgram drv <> 0 -> o = Ret tt (final_world o)) /\
     (FillSsbo.glCreateProgram drv = 0 -> o = Abort (final_world o))) /\
  (forall (drv : MapDraw.driver) (w : MapDraw.world),
     let o := MapDraw.build_programm drv w in
     let new := MapDraw.build_programm_events drv in
     MapDraw.trace (final_world o) = new ++ MapDraw.trace w /\
     (In (Printf stdout "ERROR::SHADER::VERTEX::COMPILATION_FAILED %s\n" [T "infoLog"]) new
      <-> MapDraw.GL_COMPILE_STATUS_vertex drv = 0) /\
     (In (Printf stdout "ERROR::SHADER::FRAGMENT::COMPILATION_FAILED %s\n" [T "infoLog"]) new
      <-> MapDraw.GL_COMPILE_STATUS_fragment drv = 0) /\
     (In (Printf stdout "ERROR::SHADER::PROGRAM::LINKING_FAILED %s\n" [T "infoLog"]) new
      <-> MapDraw.GL_LINK_STATUS drv = 0) /\
     In (Call "glLinkProgram" [T "prog"]) new /\
     MapDraw.prog (final_world o) = MapDraw.glCreateProgram drv /\
     (MapDraw.glCreateProgram drv <> 0 -> o = Ret tt (final_world o)) /\
     (MapDraw.glCreateProgram drv = 0 -> o = Abort (final_world o))).
Proof.
  split.
  - intros drv w o new. unfold o. rewrite fill_build_programm_run. cbv zeta.
    split; [destruct (FillSsbo.glCreateProgram drv =? 0), w; reflexivity|].
    split; [|split; [|split; [|split; [|split]]]].
    + unfold new, FillSsbo.build_programm_events.
      destruct (Z.eqb_spec (FillSsbo.GL_COMPILE_STATUS drv) 0),
        (FillSsbo.GL_LINK_STATUS drv =? 0); in_events.
    + unfold new, FillSsbo.build_programm_events.
      destruct (FillSsbo.GL_COMPILE_STATUS drv =? 0),
        (Z.eqb_spec (FillSsbo.GL_LINK_STATUS drv) 0); in_events.
    + unfold new, FillSsbo.build_programm_events.
      apply in_or_app. right. cbn [app In]. auto.
    + destruct (FillSsbo.glCreateProgram drv =? 0), w; reflexivity.
    + intros Hp. destruct (Z.eqb_spec (FillSsbo.glCreateProgram drv) 0); [contradiction|].
      reflexivity.
    + intros Hp. destruct (Z.eqb_spec (FillSsbo.glCreateProgram drv) 0); [|contradiction].
      reflexivity.
  - intros drv w o new. unfold o. rewrite draw_build_programm_run. cbv zeta.
    split; [destruct (MapDraw.glCreateProgram drv =? 0), w; reflexivity|].
    split; [|split; [|split; [|split; [|split; [|split]]]]].
    + unfold new, MapDraw.build_programm_events.
      destruct (Z.eqb_spec (MapDraw.GL_COMPILE_STATUS_vertex drv) 0),
        (MapDraw.GL_COMPILE_STATUS_fragment drv =? 0),
        (MapDraw.GL_LINK_STATUS drv =? 0); in_events.
    + unfold new, MapDraw.build_programm_events.
      destruct (MapDraw.GL_COMPILE_STATUS_vertex drv =? 0),
        (Z.eqb_spec (MapDraw.GL_COMPILE_STATUS_fragment drv) 0),
        (MapDraw.GL_LINK_STATUS drv =? 0); in_events.
    + unfold new, MapDraw.build_programm_events.
      destruct (MapDraw.GL_COMPILE_STATUS_vertex drv =? 0),
        (MapDraw.GL_COMPILE_STATUS_fragment drv =? 0),
        (Z.eqb_spec (MapDraw.GL_LINK_STATUS drv) 0); in_events.
    + unfold new, MapDraw.build_programm_events.
      apply in_or_app. right. apply in_or_app. right. cbn [app In]. auto.
    + destruct (MapDraw.glCreateProgram drv =? 0), w; reflexivity.
    + intros Hp. destruct (Z.eqb_spec (MapDraw.glCreateProgram drv) 0); [contradiction|].
      reflexivity.
    + intros Hp. destruct (Z.eqb_spec (MapDraw.glCreateProgram drv) 0); [|contradiction].
      reflexivity.
Qed.
